(** * Lucidian: the Copilot agent loop and its tool executor

    A shallow embedding of the two Copilot back ends of the repository:

    - [Plugin]  : copilot-plugin/src/core  ([ToolExecutor], [AgentLoop]);
    - [Service] : src/core/copilot         ([CopilotToolExecutor],
                                            [CopilotService]).

    JavaScript strings are modelled as [string] (code units are 8-bit
    characters here), JavaScript numbers that are used as counters, indices
    and clock readings as [Z], the file system as a finite map from absolute
    paths to file contents together with a set of directories, and everything
    that lives outside the repository (the chat endpoint, the token endpoint,
    the clock, the shell, [JSON.parse]) as fields of a [Host] record. *)

From Stdlib Require Import ZArith List String Ascii Bool Lia Permutation Sorted SpecFloat.
From stdpp Require Import base option gmap strings pretty.

Import ListNotations.
Local Open Scope string_scope.
Local Open Scope Z_scope.

(** ** JavaScript string and path primitives used by the sources *)

Module JS.

(** [s.startsWith(p)] *)
Definition startsWith (s p : string) : bool := String.prefix p s.

(** [s.includes(p)] *)
Fixpoint includes (s p : string) {struct s} : bool :=
  if String.prefix p s then true
  else match s with
       | EmptyString => false
       | String _ s' => includes s' p
       end.

Fixpoint drop (n : nat) (s : string) : string :=
  match n, s with
  | O, _ => s
  | S k, String _ s' => drop k s'
  | S _, EmptyString => EmptyString
  end.

(** Number of cuts that [s.split(sep)] makes for a non-empty separator:
    matches are searched left to right and never overlap. [skip] is the
    number of characters of the last match still to step over. *)
Fixpoint split_cuts (sep : string) (skip : nat) (s : string) : nat :=
  match s with
  | EmptyString => O
  | String _ s' =>
      match skip with
      | S k => split_cuts sep k s'
      | O => if String.prefix sep s
             then S (split_cuts sep (String.length sep - 1) s')
             else split_cuts sep O s'
      end
  end.

(** [s.split(sep).length]. With the empty separator [split] returns the
    array of the code units of [s], which is empty for the empty string. *)
Definition split_length (s sep : string) : nat :=
  match sep with
  | EmptyString => String.length s
  | _ => S (split_cuts sep O s)
  end.

(** Position of the first match of [pat] in [s], as the text before it and
    the text after it ([s.indexOf(pat)]). *)
Fixpoint first_match (pat s : string) {struct s} : option (string * string) :=
  if String.prefix pat s then Some (EmptyString, drop (String.length pat) s)
  else match s with
       | EmptyString => None
       | String c s' =>
           match first_match pat s' with
           | Some (b, a) => Some (String c b, a)
           | None => None
           end
       end.

(** ECMAScript [GetSubstitution] for a string pattern (no captures): in
    the replacement text [$$] stands for a dollar sign, [$&] for the matched
    text, [$`] for the text before the match and [$'] for the text after
    it; every other character is copied. *)
Fixpoint get_substitution (matched before after repl : string) : string :=
  match repl with
  | EmptyString => EmptyString
  | String c r =>
      if Ascii.eqb c "$" then
        match r with
        | String d r' =>
            if Ascii.eqb d "$" then String "$" (get_substitution matched before after r')
            else if Ascii.eqb d "&" then matched +:+ get_substitution matched before after r'
            else if Ascii.eqb d "`" then before +:+ get_substitution matched before after r'
            else if Ascii.eqb d "'" then after +:+ get_substitution matched before after r'
            else String c (get_substitution matched before after r)
        | EmptyString => String c EmptyString
        end
      else String c (get_substitution matched before after r)
  end.

(** [s.replace(pat, repl)] for a string [pat]: only the first match is
    replaced, and [repl] goes through [GetSubstitution]. *)
Definition replace (s pat repl : string) : string :=
  match first_match pat s with
  | None => s
  | Some (b, a) => b +:+ get_substitution pat b a repl +:+ a
  end.

(** [s.split(c)] for a one-character separator. *)
Fixpoint split_on (c : ascii) (s : string) : list string :=
  match s with
  | EmptyString => [EmptyString]
  | String a s' =>
      if Ascii.eqb a c then EmptyString :: split_on c s'
      else match split_on c s' with
           | h :: t => String a h :: t
           | [] => [String a EmptyString]
           end
  end.

(** [l.join(sep)] *)
Fixpoint join (sep : string) (l : list string) : string :=
  match l with
  | [] => EmptyString
  | [x] => x
  | x :: t => x +:+ sep +:+ join sep t
  end.

Definition isAbsolute (p : string) : bool :=
  match p with
  | String c _ => Ascii.eqb c "/"
  | EmptyString => false
  end.

(** Node's [normalizeString]: walks the segments of a path, drops empty
    segments and [.], and lets [..] remove the segment before it. Above
    the start, [..] is kept for a relative path and dropped for an
    absolute one. [acc] is the stack of kept segments, last one first. *)
Fixpoint normalize_segments (allowAboveRoot : bool) (segs acc : list string)
  : list string :=
  match segs with
  | [] => List.rev acc
  | seg :: rest =>
      if String.eqb seg "" || String.eqb seg "." then
        normalize_segments allowAboveRoot rest acc
      else if String.eqb seg ".." then
        match acc with
        | top :: acc' =>
            if String.eqb top ".."
            then normalize_segments allowAboveRoot rest (seg :: acc)
            else normalize_segments allowAboveRoot rest acc'
        | [] =>
            if allowAboveRoot
            then normalize_segments allowAboveRoot rest [seg]
            else normalize_segments allowAboveRoot rest []
        end
      else normalize_segments allowAboveRoot rest (seg :: acc)
  end.

(** The right-to-left scan of [path.resolve]: arguments are prepended
    until an absolute one has been taken; empty arguments are skipped and
    the working directory comes last. [rev_args] is the argument list
    reversed. *)
Fixpoint resolve_scan (cwd : string) (rev_args : list string)
  (resolvedPath : string) : string * bool :=
  match rev_args with
  | [] =>
      match cwd with
      | EmptyString => (resolvedPath, false)
      | _ => (cwd +:+ "/" +:+ resolvedPath, isAbsolute cwd)
      end
  | p :: rest =>
      match p with
      | EmptyString => resolve_scan cwd rest resolvedPath
      | _ =>
          if isAbsolute p then (p +:+ "/" +:+ resolvedPath, true)
          else resolve_scan cwd rest (p +:+ "/" +:+ resolvedPath)
      end
  end.

(** [path.resolve(...args)] of Node's POSIX [path] module. *)
Definition path_resolve (cwd : string) (args : list string) : string :=
  let '(resolvedPath, resolvedAbsolute) := resolve_scan cwd (List.rev args) "" in
  let normalized :=
    join "/" (normalize_segments (negb resolvedAbsolute)
                (split_on "/" resolvedPath) []) in
  if resolvedAbsolute then "/" +:+ normalized
  else match normalized with
       | EmptyString => "."
       | _ => normalized
       end.

End JS.

(** ** Numbers

    A number of JavaScript is a double, and its arithmetic is that of
    IEEE 754. [Float f] is the double nearest to [f], which is [f] itself
    when [f] is a double; [Whole z] is the double nearest to the integer
    [z], which is [z] itself up to 2^53 in size. On such whole numbers the
    sums, differences and comparisons are those of the integers, as long as
    the result is again one of them. A double that is a whole number can
    be written both ways, and every operation takes both; what is proved
    about whole numbers is stated for [Whole z]. *)
Inductive number : Type :=
| Whole (z : Z)
| Float (f : spec_float).

Module Number.

Definition prec : Z := 53.
Definition emax : Z := 1024.

Definition NaN : number := Float S754_nan.

(** The double of a whole number, and the canonical form of a double. *)
Definition of_Z (z : Z) : spec_float := binary_normalize prec emax z 0 false.

Definition canonical (f : spec_float) : spec_float :=
  match f with
  | S754_finite s m e => binary_normalize prec emax (cond_Zopp s (Zpos m)) e s
  | _ => f
  end.

(** The whole numbers that are doubles without rounding, one after the
    other. *)
Definition exact (z : Z) : bool := Z.abs z <=? 2 ^ 53.

Definition of_whole (z : Z) : number := if exact z then Whole z else Float (of_Z z).

Definition to_float (n : number) : spec_float :=
  match n with
  | Whole z => of_Z z
  | Float f => canonical f
  end.

Definition is_nan (f : spec_float) : bool :=
  match f with
  | S754_nan => true
  | _ => false
  end.

(** [a + b] and [a - b] *)
Definition add (a b : number) : number :=
  match a, b with
  | Whole x, Whole y =>
      if exact x && exact y then of_whole (x + y)
      else Float (SFadd prec emax (of_Z x) (of_Z y))
  | _, _ => Float (SFadd prec emax (to_float a) (to_float b))
  end.

Definition sub (a b : number) : number :=
  match a, b with
  | Whole x, Whole y =>
      if exact x && exact y then of_whole (x - y)
      else Float (SFsub prec emax (of_Z x) (of_Z y))
  | _, _ => Float (SFsub prec emax (to_float a) (to_float b))
  end.

(** [a < b] *)
Definition ltb (a b : number) : bool :=
  match a, b with
  | Whole x, Whole y =>
      if exact x && exact y then x <? y else SFltb (of_Z x) (of_Z y)
  | _, _ => SFltb (to_float a) (to_float b)
  end.

(** [Math.max(a, b)] and [Math.min(a, b)]: [NaN] when either is, and of
    two zeros the positive one is the greater. Of two whole numbers the
    greater has the greater double, or the same. *)
Definition max (a b : number) : number :=
  match a, b with
  | Whole x, Whole y => Whole (Z.max x y)
  | _, _ =>
      match to_float a, to_float b with
      | S754_nan, _ | _, S754_nan => NaN
      | S754_zero sa, S754_zero sb => if sa then b else a
      | _, _ => if ltb a b then b else a
      end
  end.

Definition min (a b : number) : number :=
  match a, b with
  | Whole x, Whole y => Whole (Z.min x y)
  | _, _ =>
      match to_float a, to_float b with
      | S754_nan, _ | _, S754_nan => NaN
      | S754_zero sa, S754_zero sb => if sa then a else b
      | _, _ => if ltb b a then b else a
      end
  end.

(** [ToIntegerOrInfinity(n)] as an index into an array of [len] elements,
    where an infinity is as good as [len] or [-len]: the fraction is cut
    off. *)
Definition truncate (f : spec_float) (len : Z) : Z :=
  match f with
  | S754_nan | S754_zero _ => 0
  | S754_infinity s => if s then - len else len
  | S754_finite s m e =>
      cond_Zopp s (if 0 <=? e then Zpos m * 2 ^ e else Z.shiftr (Zpos m) (- e))
  end.

Definition to_index (len : Z) (n : number) : Z :=
  match n with
  | Whole z => if exact z then z else truncate (of_Z z) len
  | Float f => truncate (canonical f) len
  end.

(** Truthiness: every number but zero and [NaN]. *)
Definition truthy (n : number) : bool :=
  match n with
  | Whole z => negb (z =? 0)
  | Float f =>
      match canonical f with
      | S754_nan | S754_zero _ => false
      | _ => true
      end
  end.

(** *** [Number::toString]

    For a positive double [v = m * 2^e]: the least number [k] of digits
    and the integers [s] of [k] digits and [n] with [s * 10^(n-k)] a
    number that rounds to [v], the one nearest to [v] among them. In units
    of a quarter of the last place, [v] is [4 m], and the numbers that
    round to it lie between [4 m - 2] (or [4 m - 1] at the bottom of a
    binade) and [4 m + 2], the ends included when [m] is even. *)
Record Interval : Type := mkInterval {
  unit_num : Z; unit_den : Z;     (* a quarter of the last place *)
  below : Z; value : Z; above : Z;
  inclusive : bool
}.

Definition interval (m : positive) (e : Z) : Interval :=
  let q := e - 2 in
  mkInterval (if 0 <=? q then 2 ^ q else 1) (if 0 <=? q then 1 else 2 ^ (- q))
    (if (Zpos m =? 2 ^ 52) && (-1074 <? e) then 4 * Zpos m - 1 else 4 * Zpos m - 2)
    (4 * Zpos m) (4 * Zpos m + 2) (Z.even (Zpos m)).

(** [s * 10^j] against [b] units: the sign of the difference. *)
Definition against (i : Interval) (s j b : Z) : comparison :=
  let cn := if 0 <=? j then s * 10 ^ j else s in
  let cd := if 0 <=? j then 1 else 10 ^ (- j) in
  (cn * unit_den i ?= b * unit_num i * cd).

Definition rounds_to (i : Interval) (s j : Z) : bool :=
  match against i s j (below i), against i s j (above i) with
  | Gt, Lt => true
  | Eq, Lt | Gt, Eq => inclusive i
  | _, _ => false
  end.

(** The least [n] from [n0] on with [v < 10^n], the magnitude of [v]. *)
Fixpoint magnitude (fuel : nat) (i : Interval) (n0 : Z) : Z :=
  match fuel with
  | O => n0
  | S fuel' =>
      match against i 1 n0 (value i) with
      | Gt => n0
      | _ => magnitude fuel' i (n0 + 1)
      end
  end.

(** A number below the magnitude of [v], by at most four: [v] is at least
    [2^b] for [b] the place of its leading bit, and 30103 / 100000 is
    a little more than the logarithm of 2. *)
Definition estimate (m : positive) (e : Z) : Z :=
  (e + Z.log2 (Zpos m)) * 30103 / 100000 - 1.

(** [floor (v / 10^j)] *)
Definition floor_at (i : Interval) (j : Z) : Z :=
  let num := value i * unit_num i * (if 0 <=? j then 1 else 10 ^ (- j)) in
  let den := unit_den i * (if 0 <=? j then 10 ^ j else 1) in
  num / den.

(** The candidate of [k] digits at the exponent [n], if there is one:
    the nearer of the two neighbours of [v] that rounds to [v]. *)
Definition candidate (i : Interval) (k n : Z) : option (Z * Z) :=
  let j := n - k in
  let lo := floor_at i j in
  let hi := lo + 1 in
  let fits s := (10 ^ (k - 1) <=? s) && (s <? 10 ^ k) && rounds_to i s j in
  (* whether [hi] is nearer than [lo]: [2 v] against [lo + hi] *)
  let nearer_hi :=
    match against i (lo + hi) j (2 * value i) with
    | Lt => true
    | Eq => Z.even hi
    | Gt => false
    end in
  match fits lo, fits hi with
  | true, true => Some (if nearer_hi then hi else lo, n)
  | true, false => Some (lo, n)
  | false, true => Some (hi, n)
  | false, false =>
      (* rounding up may carry into the next power of ten *)
      if (hi =? 10 ^ k) && rounds_to i (10 ^ (k - 1)) (j + 1)
      then Some (10 ^ (k - 1), n + 1) else None
  end.

Fixpoint shortest (fuel : nat) (i : Interval) (k n : Z) : Z * Z :=
  match fuel with
  | O => (value i, n)
  | S fuel' =>
      match candidate i k n with
      | Some sn => sn
      | None => shortest fuel' i (k + 1) n
      end
  end.

Definition zeros (n : Z) : string := String.concat "" (List.repeat "0" (Z.to_nat n)).

Definition front (n : Z) (s : string) : string := substring 0 (Z.to_nat n) s.

Definition back (n : Z) (s : string) : string :=
  substring (Z.to_nat n) (String.length s - Z.to_nat n) s.

Definition exponent_part (n : Z) : string :=
  "e" +:+ (if 0 <=? n - 1 then "+" else "-") +:+ pretty (Z.abs (n - 1)).

Definition positive_toString (m : positive) (e : Z) : string :=
  let i := interval m e in
  let '(s, n) := shortest 17 i 1 (magnitude 8 i (estimate m e)) in
  let digits := pretty s in
  let k := Z.of_nat (String.length digits) in
  if (k <=? n) && (n <=? 21) then digits +:+ zeros (n - k)
  else if (0 <? n) && (n <=? 21) then front n digits +:+ "." +:+ back n digits
  else if (-6 <? n) && (n <=? 0) then "0." +:+ zeros (- n) +:+ digits
  else if k =? 1 then digits +:+ exponent_part n
  else front 1 digits +:+ "." +:+ back 1 digits +:+ exponent_part n.

Definition float_toString (f : spec_float) : string :=
  match canonical f with
  | S754_nan => "NaN"
  | S754_zero _ => "0"
  | S754_infinity s => if s then "-Infinity" else "Infinity"
  | S754_finite s m e => (if s then "-" else "") +:+ positive_toString m e
  end.

(** [String(n)], which a template literal uses as well. *)
Definition toString (n : number) : string :=
  match n with
  | Whole z => if exact z then pretty z else float_toString (of_Z z)
  | Float f => float_toString f
  end.

End Number.

Coercion Whole : Z >-> number.

(** More of the JavaScript library, on lists and on whole strings. *)

Module JSLib.

(** [l.slice(start, end)]: the arguments are turned into integers, a
    negative index counts from the end of the array, and both are clamped
    to the array. *)
Definition slice {A : Type} (l : list A) (start end_ : number) : list A :=
  let len := Z.of_nat (List.length l) in
  let relativeStart := Number.to_index len start in
  let relativeEnd := Number.to_index len end_ in
  let k := if relativeStart <? 0 then Z.max (len + relativeStart) 0
           else Z.min relativeStart len in
  let fin := if relativeEnd <? 0 then Z.max (len + relativeEnd) 0
             else Z.min relativeEnd len in
  firstn (Z.to_nat (fin - k)) (skipn (Z.to_nat k) l).

(** [s.slice(0, n)] on a string, for [0 <= n]. *)
Fixpoint take (n : nat) (s : string) : string :=
  match n, s with
  | O, _ => EmptyString
  | S k, String c s' => String c (take k s')
  | S _, EmptyString => EmptyString
  end.

Definition take_chars (n : Z) (s : string) : string := take (Z.to_nat n) s.

(** White space and line terminators among the 8-bit characters. *)
Definition is_space (c : ascii) : bool :=
  let n := nat_of_ascii c in
  ((9 <=? n) && (n <=? 13))%nat || (n =? 32)%nat || (n =? 160)%nat.

Fixpoint trimStart (s : string) : string :=
  match s with
  | String c s' => if is_space c then trimStart s' else s
  | EmptyString => EmptyString
  end.

Definition trimEnd (s : string) : string :=
  String.rev (trimStart (String.rev s)).

Definition trim (s : string) : string := trimEnd (trimStart s).

(** [s.replace(/pat/g, rep)] for a pattern that is a literal text [pat]
    (the sources use it with a double quote and with two stars and a
    slash) and a replacement without dollar signs. *)
Fixpoint replace_all (pat rep : string) (skip : nat) (s : string) : string :=
  match s with
  | EmptyString => EmptyString
  | String c s' =>
      match skip with
      | S k => replace_all pat rep k s'
      | O => if String.prefix pat s
             then rep +:+ replace_all pat rep (String.length pat - 1) s'
             else String c (replace_all pat rep O s')
      end
  end.

(** Insertion sort with a comparator that returns a number, as
    [Array.prototype.sort] takes it; the sort is stable. *)
Fixpoint insert_by {A : Type} (cmp : A -> A -> Z) (x : A) (l : list A) : list A :=
  match l with
  | [] => [x]
  | y :: t => if 0 <? cmp x y then y :: insert_by cmp x t else x :: l
  end.

Fixpoint sort_by {A : Type} (cmp : A -> A -> Z) (l : list A) : list A :=
  match l with
  | [] => []
  | x :: t => insert_by cmp x (sort_by cmp t)
  end.

(** A double quote, a line feed and a tabulator. *)
Definition dquote : string := String "034" EmptyString.
Definition nl : string := String "010" EmptyString.
Definition tab : string := String "009" EmptyString.

(** [pattern.replace(/"/g, '\\"')]: a backslash before every double quote. *)
Definition escape_quotes (s : string) : string :=
  replace_all dquote ("\" +:+ dquote) 0 s.

(** The comparator of [Array.prototype.sort()] without an argument. *)
Definition code_unit_compare (a b : string) : Z :=
  match String.compare a b with
  | Lt => -1
  | Eq => 0
  | Gt => 1
  end.

End JSLib.

(** ** Exceptions *)

(** A JavaScript computation either returns or throws an [Error], of which
    only the message is ever read ([err.message]). *)
Inductive outcome (A : Type) : Type :=
| Ok (a : A)
| Throw (message : string).
Arguments Ok {A} a.
Arguments Throw {A} message.

(** ** The file system *)

(** Regular files, directories and Unix sockets. A socket stands for the
    nodes that are neither a file nor a directory: it is there, a listing
    shows it, and it cannot be opened. Symbolic links, FIFOs and devices
    are not in the model. *)
Record FS : Type := mkFS {
  files : gmap string string;   (* regular files: absolute path to content *)
  dirs : gset string;           (* directories, by absolute path *)
  sockets : gset string         (* sockets, by absolute path *)
}.

Module Fs.

(** Segments of a normalized absolute path. *)
Definition segments (p : string) : list string :=
  List.filter (fun s => negb (String.eqb s "")) (JS.split_on "/" p).

Definition of_segments (segs : list string) : string :=
  "/" +:+ JS.join "/" segs.

(** [path.dirname(p)], for the normalized absolute paths that
    [path.resolve] returns. *)
Definition dirname (p : string) : string :=
  of_segments (List.removelast (segments p)).

(** The directory [p] and all the directories above it, root first. *)
Fixpoint prefixes (acc segs : list string) : list string :=
  match segs with
  | [] => [of_segments acc]
  | s :: rest => of_segments acc :: prefixes (List.app acc [s]) rest
  end.

Definition ancestors (p : string) : list string := prefixes [] (segments p).

Definition is_file (fs : FS) (p : string) : bool :=
  bool_decide (is_Some (files fs !! p)).

Definition is_dir (fs : FS) (p : string) : bool :=
  bool_decide (p ∈ dirs fs).

Definition is_socket (fs : FS) (p : string) : bool :=
  bool_decide (p ∈ sockets fs).

(** [fs.existsSync(p)] *)
Definition existsSync (fs : FS) (p : string) : bool :=
  is_file fs p || is_dir fs p || is_socket fs p.

(** [fs.readFileSync(p, "utf-8")] and [fs.promises.readFile] *)
Definition readFile (fs : FS) (p : string) : outcome string :=
  match files fs !! p with
  | Some content => Ok content
  | None =>
      if is_dir fs p then Throw "EISDIR: illegal operation on a directory, read"
      else if is_socket fs p
           then Throw ("ENXIO: no such device or address, open '" +:+ p +:+ "'")
           else Throw ("ENOENT: no such file or directory, open '" +:+ p +:+ "'")
  end.

(** [fs.mkdirSync(p, { recursive: true })]: creates [p] and the missing
    directories above it, and fails when one of them is a regular file or
    a socket. *)
Definition mkdir_recursive (fs : FS) (p : string) : outcome FS :=
  if List.existsb (fun q => is_file fs q || is_socket fs q) (ancestors p)
  then Throw ("EEXIST: file already exists, mkdir '" +:+ p +:+ "'")
  else Ok (mkFS (files fs) (dirs fs ∪ list_to_set (ancestors p)) (sockets fs)).

(** [fs.writeFileSync(p, content, "utf-8")]: the directory of [p] has to
    exist and [p] must be neither a directory nor a socket. *)
Definition writeFile (fs : FS) (p content : string) : outcome FS :=
  if is_dir fs p then Throw "EISDIR: illegal operation on a directory, open"
  else if is_socket fs p
       then Throw ("ENXIO: no such device or address, open '" +:+ p +:+ "'")
       else if negb (is_dir fs (dirname p))
            then Throw ("ENOENT: no such file or directory, open '" +:+ p +:+ "'")
            else Ok (mkFS (<[p := content]> (files fs)) (dirs fs) (sockets fs)).

(** The kinds of entry that a [Dirent] tells apart ([uv_dirent_type_t]). *)
Inductive DirentType : Type :=
| UV_DIRENT_UNKNOWN
| UV_DIRENT_FILE
| UV_DIRENT_DIR
| UV_DIRENT_LINK
| UV_DIRENT_FIFO
| UV_DIRENT_SOCKET
| UV_DIRENT_CHAR
| UV_DIRENT_BLOCK.

(** One entry of [fs.readdirSync(p, { withFileTypes: true })]. *)
Record Dirent : Type := mkDirent { name : string; dirent_type : DirentType }.

(** [e.isDirectory()] and [e.isFile()] *)
Definition isDirectory (e : Dirent) : bool :=
  match dirent_type e with
  | UV_DIRENT_DIR => true
  | _ => false
  end.

Definition isFile (e : Dirent) : bool :=
  match dirent_type e with
  | UV_DIRENT_FILE => true
  | _ => false
  end.

Definition last_segment (p : string) : string :=
  List.last (segments p) EmptyString.

Definition child_of (d p : string) : bool :=
  String.eqb (dirname p) d && negb (String.eqb p d).

(** [fs.readdirSync(p, { withFileTypes: true })] *)
Definition readdir (fs : FS) (p : string) : outcome (list Dirent) :=
  if is_dir fs p then
    Ok (List.app
          (List.map (fun q => mkDirent (last_segment q) UV_DIRENT_DIR)
             (List.filter (child_of p) (elements (dirs fs))))
          (List.app
             (List.map (fun q => mkDirent (last_segment q.1) UV_DIRENT_FILE)
                (List.filter (fun q => child_of p q.1) (map_to_list (files fs))))
             (List.map (fun q => mkDirent (last_segment q) UV_DIRENT_SOCKET)
                (List.filter (child_of p) (elements (sockets fs))))))
  else if is_file fs p then Throw ("ENOTDIR: not a directory, scandir '" +:+ p +:+ "'")
  else Throw ("ENOENT: no such file or directory, scandir '" +:+ p +:+ "'").

End Fs.

(** ** Values of tool arguments *)

(** The values that [JSON.parse] puts into an argument object, without
    nested arrays and objects. [JUndefined] is what reading an absent key
    gives. *)
Inductive jsval : Type :=
| JUndefined
| JNull
| JBool (b : bool)
| JNum (n : number)
| JStr (s : string).

Module Js.

(** [args.key] *)
Definition get (args : gmap string jsval) (key : string) : jsval :=
  default JUndefined (args !! key).

(** [String(v)], also what a template literal does to [v]. *)
Definition String_ (v : jsval) : string :=
  match v with
  | JUndefined => "undefined"
  | JNull => "null"
  | JBool true => "true"
  | JBool false => "false"
  | JNum n => Number.toString n
  | JStr s => s
  end.

(** Truthiness, as [v ? a : b] and [if (v)] test it. *)
Definition truthy (v : jsval) : bool :=
  match v with
  | JUndefined | JNull => false
  | JBool b => b
  | JNum n => Number.truthy n
  | JStr s => negb (String.eqb s "")
  end.

(** [v ?? d] *)
Definition nullish_or (v d : jsval) : jsval :=
  match v with
  | JUndefined | JNull => d
  | _ => v
  end.

(** [s ? a : b] and [s || d] on strings. *)
Definition nonempty (s : string) : bool := negb (String.eqb s "").

Definition or_else (s d : string) : string := if nonempty s then s else d.

End Js.

(** ** Results of tools and of shell commands *)

Record ToolResult : Type := mkToolResult {
  content : string;
  isError : bool
}.

Record ExecOptions : Type := mkExecOptions {
  opt_cwd : string;
  opt_timeout : Z;
  opt_maxBuffer : Z
}.

(** What [child_process.exec] passes to its callback; [error] is absent
    when the command exits with status 0. *)
Record ExecError : Type := mkExecError { killed : bool; error_message : string }.

Record ExecOutcome : Type := mkExecOutcome {
  error : option ExecError;
  stdout : string;
  stderr : string
}.

(** ** The host of the tool executors

    The shell and the library functions whose results the sources only pass
    on. [exec] may change the file system, and throws when Node refuses the
    command before it starts. [RegExp_replace_all src s rep] is
    [s.replace(new RegExp(src, "g"), rep)], which throws a [SyntaxError]
    when [src] is not a regular expression. [Number_of_string s] is
    [Number(s)]. *)
Record Host : Type := mkHost {
  cwd : string;
  exec : string -> ExecOptions -> FS -> outcome ExecOutcome * FS;
  RegExp_replace_all : string -> string -> string -> outcome string;
  path_relative : string -> string -> string;
  localeCompare : string -> string -> Z;
  Number_of_string : string -> number
}.

(** ** Computations on the file system that may throw *)

Definition M (A : Type) : Type := FS -> outcome A * FS.

Definition ret {A : Type} (a : A) : M A := fun fs => (Ok a, fs).

Definition throw {A : Type} (message : string) : M A := fun fs => (Throw message, fs).

Definition bind {A B : Type} (c : M A) (k : A -> M B) : M B :=
  fun fs =>
    match c fs with
    | (Ok a, fs') => k a fs'
    | (Throw message, fs') => (Throw message, fs')
    end.

Definition lift {A : Type} (o : outcome A) : M A := fun fs => (o, fs).

(** A read of the file system, and an update of it that may fail without
    having changed anything. *)
Definition reads {A : Type} (f : FS -> outcome A) : M A := fun fs => (f fs, fs).

Definition updates (f : FS -> outcome FS) : M unit :=
  fun fs =>
    match f fs with
    | Ok fs' => (Ok tt, fs')
    | Throw message => (Throw message, fs)
    end.

Declare Scope js_scope.
Delimit Scope js_scope with js.
Notation "'let*' x ':=' c 'in' k" := (bind c (fun x => k))
  (at level 10, x pattern, c at level 100, k at level 200) : js_scope.

(** ** Messages, tool calls and the wire protocol

    The interfaces of [api/client.ts], which the service repeats under the
    names [CopilotChatMessage] and [CopilotToolCall]. The constant field
    [type: "function"] is left out, an optional field is an [option]. *)

Record ToolCall : Type := mkToolCall {
  tc_id : string;          (* id *)
  fn_name : string;        (* function.name *)
  fn_arguments : string    (* function.arguments *)
}.

Inductive Role : Type := system | user | assistant | tool.

Record ChatMessage : Type := mkChatMessage {
  role : Role;
  msg_content : option string;            (* content: string | null *)
  tool_calls : option (list ToolCall);
  tool_call_id : option string
}.

(** One element of [delta.tool_calls]; [tc.function?.name] and
    [tc.function?.arguments] are the two optional fields of the fragment. *)
Record ToolCallDelta : Type := mkToolCallDelta {
  index : Z;
  delta_id : option string;
  delta_name : option string;
  delta_arguments : option string
}.

Record StreamDelta : Type := mkStreamDelta {
  delta_content : option string;
  delta_tool_calls : option (list ToolCallDelta)
}.

Record StreamChoice : Type := mkStreamChoice { delta : StreamDelta }.

Record StreamChunk : Type := mkStreamChunk { choices : list StreamChoice }.

Record CopilotToken : Type := mkCopilotToken {
  token : string;
  expiresAt : Z
}.

(** [isTokenExpired] of [api/auth.ts] and [copilot/auth.ts], on a clock
    reading [now] in milliseconds: [now / 1000 >= expiresAt - bufferSeconds]. *)
Definition isTokenExpired (now expiresAt bufferSeconds : Z) : bool :=
  1000 * (expiresAt - bufferSeconds) <=? now.

(** What a line of the response body is to [streamChat]: a line without
    the prefix [data: ], the sentinel [data: [DONE]], data that
    [JSON.parse] refuses, or data that parses to a chunk. *)
Inductive SseLine : Type :=
| NoData
| DoneSentinel
| Garbled
| Data (chunk : StreamChunk).

(** What the loop asks of the world outside, in the order it asks. *)
Inductive Call : Type :=
| ExpiryCheck (expired : bool)     (* isTokenExpired(...) was evaluated *)
| TokenFetch                       (* fetchCopilotToken(pat) *)
| ChatRequest (token_used : string)  (* streamChat(token, ...) *)
| ChatFallback (token_used : string) (* sendChat(token, ...) *).

(** [s ? ... : ...] on an optional string: absent, [null] and the empty
    string are falsy. *)
Definition truthy_string (o : option string) : option string :=
  match o with
  | Some s => if Js.nonempty s then Some s else None
  | None => None
  end.

(** [s || null] *)
Definition or_null (s : string) : option string :=
  if Js.nonempty s then Some s else None.

(** A JavaScript [Map] with number keys, in insertion order: [set] on a
    key that is present keeps its place. *)
Module JsMap.

Definition t (V : Type) : Type := list (Z * V).

Fixpoint get {V : Type} (m : t V) (k : Z) : option V :=
  match m with
  | [] => None
  | (k', v) :: rest => if k' =? k then Some v else get rest k
  end.

Definition has {V : Type} (m : t V) (k : Z) : bool :=
  match get m k with
  | Some _ => true
  | None => false
  end.

Fixpoint set {V : Type} (m : t V) (k : Z) (v : V) : t V :=
  match m with
  | [] => [(k, v)]
  | (k', v') :: rest => if k' =? k then (k, v) :: rest else (k', v') :: set rest k v
  end.

Definition values {V : Type} (m : t V) : list V := List.map snd m.

Definition entries {V : Type} (m : t V) : list (Z * V) := m.

Definition size {V : Type} (m : t V) : nat := List.length m.

End JsMap.

(** ** The remote side

    The clock, the token endpoint, the chat endpoint and [JSON.parse] of
    tool arguments, for a wire whose steps are of type [Step]. The state of
    a loop counts its dealings with the outside in [tick]; the n-th one
    reads [Date_now n], gets its token from [fetchCopilotToken n], and
    [cancel_at n] tells whether the user cancels while the loop waits for
    it. [updatePat_at n] is the secret that the user puts in meanwhile, if
    any: [updatePat] is public in the service and may be called whenever
    a query waits. [sendChat] is the non-streaming request, which throws
    when the reply has no choice. *)
Record Remote (Step : Type) : Type := mkRemote {
  Date_now : nat -> Z;
  fetchCopilotToken : nat -> string -> outcome CopilotToken;
  requestUrl : string -> list ChatMessage -> string -> outcome (list Step);
  sendChat : string -> list ChatMessage -> string -> outcome ChatMessage;
  JSON_parse : string -> option (gmap string jsval);
  cancel_at : nat -> bool;
  updatePat_at : nat -> option string
}.
Arguments Date_now {Step} _ _.
Arguments fetchCopilotToken {Step} _ _ _.
Arguments requestUrl {Step} _ _ _ _.
Arguments sendChat {Step} _ _ _ _.
Arguments JSON_parse {Step} _ _.
Arguments cancel_at {Step} _ _.
Arguments updatePat_at {Step} _ _.

(** The names of the seven tools. The plug-in's table is in its
    [definitions.ts]; the table of the service, [COPILOT_TOOL_NAMES], is a
    parameter of its executor. *)
Record ToolNames : Type := mkToolNames {
  READ : string;
  WRITE : string;
  EDIT : string;
  BASH : string;
  GREP : string;
  GLOB : string;
  LS : string
}.

Definition TOOL_NAMES : ToolNames :=
  {| READ := "read_file";
     WRITE := "write_file";
     EDIT := "edit_file";
     BASH := "bash";
     GREP := "grep";
     GLOB := "glob";
     LS := "list_directory" |}.

(** ** copilot-plugin/src/core/tools/executor.ts *)

Module Plugin.

Section ToolExecutor.

Context (host : Host) (vaultPath : string).

Local Open Scope js_scope.

Definition resolvePath (relativePath : string) : outcome string :=
  let resolved := JS.path_resolve (cwd host) [vaultPath; relativePath] in
  (* Prevent path traversal *)
  if negb (JS.startsWith resolved vaultPath)
  then Throw "Path traversal not allowed: path must be within the vault"
  else Ok resolved.

(** [typeof v === "number" ? v : d] *)
Definition number_or (v : jsval) (d : number) : number :=
  match v with
  | JNum n => n
  | _ => d
  end.

(** [selected.map((line, i) => `${startIdx + i + 1}\t${line}`)] *)
Definition numbered_from (startIdx : number) (selected : list string) : list string :=
  List.map (fun il =>
              Number.toString (Number.add (Number.add startIdx (Z.of_nat il.1)) 1)
              +:+ JSLib.tab +:+ il.2)
    (List.combine (List.seq 0 (List.length selected)) selected).

Definition readFile (args : gmap string jsval) : M ToolResult :=
  let filePath := Js.String_ (Js.get args "file_path") in
  let* absPath := lift (resolvePath filePath) in
  let offset := number_or (Js.get args "offset") 1 in
  let limit := number_or (Js.get args "limit") 2000 in
  let* content := reads (fun fs => Fs.readFile fs absPath) in
  let lines := JS.split_on "010" content in
  let startIdx := Number.max 0 (Number.sub offset 1) in
  let selected := JSLib.slice lines startIdx (Number.add startIdx limit) in
  let numbered := JS.join JSLib.nl (numbered_from startIdx selected) in
  ret (mkToolResult numbered false).

Definition writeFile (args : gmap string jsval) : M ToolResult :=
  let filePath := Js.String_ (Js.get args "file_path") in
  let content := Js.String_ (Js.get args "content") in
  let* absPath := lift (resolvePath filePath) in
  let dir := Fs.dirname absPath in
  let* exists_ := reads (fun fs => Ok (Fs.existsSync fs dir)) in
  let* _ := (if negb exists_
             then updates (fun fs => Fs.mkdir_recursive fs dir)
             else ret tt) in
  let* _ := updates (fun fs => Fs.writeFile fs absPath content) in
  let lineCount := List.length (JS.split_on "010" content) in
  ret (mkToolResult
         ("Wrote " +:+ pretty lineCount +:+ " lines to " +:+ filePath) false).

Definition editFile (args : gmap string jsval) : M ToolResult :=
  let filePath := Js.String_ (Js.get args "file_path") in
  let oldString := Js.String_ (Js.get args "old_string") in
  let newString := Js.String_ (Js.get args "new_string") in
  let* absPath := lift (resolvePath filePath) in
  let* content := reads (fun fs => Fs.readFile fs absPath) in
  let occurrences := Z.of_nat (JS.split_length content oldString) - 1 in
  if occurrences =? 0 then
    ret (mkToolResult ("old_string not found in " +:+ filePath) true)
  else if 1 <? occurrences then
    ret (mkToolResult
           ("old_string found " +:+ pretty occurrences +:+ " times in " +:+ filePath
            +:+ " — must be unique. Provide more surrounding context.") true)
  else
    let content' := JS.replace content oldString newString in
    let* _ := updates (fun fs => Fs.writeFile fs absPath content') in
    ret (mkToolResult ("Edited " +:+ filePath +:+ " successfully") false).

Definition blocklist : list string :=
  ["rm -rf /"; "rm -rf ~"; "mkfs"; "dd if="; ":(){:|:&};:"].

(** A tool whose promise is settled when its body is through. *)
Definition settled (c : M ToolResult) : M (option ToolResult) :=
  let* r := c in ret (Some r).

(** [exec(cmd, options, callback)] inside [new Promise]: the promise
    rejects when [exec] throws and resolves with what the callback passes
    to [resolve]. When the callback throws, nothing catches the error and
    the promise is never settled: that is [None]. *)
Definition exec_then (cmd : string) (options : ExecOptions)
  (callback : ExecOutcome -> outcome ToolResult) : M (option ToolResult) :=
  let* out := exec host cmd options in
  match callback out with
  | Ok r => ret (Some r)
  | Throw _ => ret None
  end.

Definition bash (args : gmap string jsval) : M (option ToolResult) :=
  let command := Js.String_ (Js.get args "command") in
  (* Block dangerous commands *)
  match List.find (fun blocked => JS.includes command blocked) blocklist with
  | Some blocked =>
      ret (Some (mkToolResult ("Blocked dangerous command: " +:+ blocked) true))
  | None =>
      exec_then command (mkExecOptions vaultPath 30000 (1024 * 1024))
        (fun out =>
           if match error out with Some e => killed e | None => false end
           then Ok (mkToolResult "Command timed out after 30 seconds" true)
           else
             let output :=
               JS.join JSLib.nl
                 (List.filter Js.nonempty
                    [ (if Js.nonempty (stdout out)
                       then JSLib.trimEnd (stdout out) else "");
                      (if Js.nonempty (stderr out)
                       then "STDERR:" +:+ JSLib.nl +:+ JSLib.trimEnd (stderr out)
                       else "") ]) in
             Ok (mkToolResult (Js.or_else output "(no output)")
                   (bool_decide (is_Some (error out)))))
  end.

Definition path_or_dot (args : gmap string jsval) : string :=
  if Js.truthy (Js.get args "path") then Js.String_ (Js.get args "path") else ".".

Definition grep (args : gmap string jsval) : M (option ToolResult) :=
  let pattern := Js.String_ (Js.get args "pattern") in
  let searchPath := path_or_dot args in
  let include := if Js.truthy (Js.get args "include")
                 then Js.String_ (Js.get args "include") else "" in
  let contextLines := number_or (Js.get args "context_lines") 0 in
  let* absPath := lift (resolvePath searchPath) in
  let cmd := "grep -rn --color=never" in
  let cmd := if Js.nonempty include
             then cmd +:+ " --include=" +:+ JSLib.dquote +:+ include +:+ JSLib.dquote
             else cmd in
  let cmd := if Number.ltb 0 contextLines
             then cmd +:+ " -C " +:+ Number.toString contextLines else cmd in
  let cmd := cmd +:+ " -E " +:+ JSLib.dquote +:+ JSLib.escape_quotes pattern
             +:+ JSLib.dquote +:+ " " +:+ JSLib.dquote +:+ absPath +:+ JSLib.dquote in
  exec_then cmd (mkExecOptions vaultPath 15000 (1024 * 512))
    (fun out =>
       if negb (Js.nonempty (JSLib.trim (stdout out)))
       then Ok (mkToolResult "No matches found" false)
       else
         (* Make paths relative *)
         match RegExp_replace_all host (vaultPath +:+ "/") (stdout out) "" with
         | Throw message => Throw message
         | Ok output =>
             let lines := JS.split_on "010" (JSLib.trim output) in
             let truncated :=
               if (200 <? List.length lines)%nat
               then JS.join JSLib.nl (JSLib.slice lines 0 200)
                    +:+ JSLib.nl +:+ "... ("
                    +:+ pretty (Z.of_nat (List.length lines) - 200) +:+ " more lines)"
               else JS.join JSLib.nl lines in
             Ok (mkToolResult truncated false)
         end).

Definition glob (args : gmap string jsval) : M (option ToolResult) :=
  let pattern := Js.String_ (Js.get args "pattern") in
  let searchPath := path_or_dot args in
  let* absPath := lift (resolvePath searchPath) in
  (* Use find + glob pattern matching *)
  let cmd := "find " +:+ JSLib.dquote +:+ absPath +:+ JSLib.dquote
             +:+ " -type f -name " +:+ JSLib.dquote
             +:+ JSLib.replace_all "**/" "" 0 pattern
             +:+ JSLib.dquote +:+ " 2>/dev/null | head -200" in
  exec_then cmd (mkExecOptions vaultPath 10000 (1024 * 256))
    (fun out =>
       if negb (Js.nonempty (JSLib.trim (stdout out)))
       then Ok (mkToolResult "No files matched" false)
       else
         match RegExp_replace_all host (vaultPath +:+ "/") (stdout out) "" with
         | Throw message => Throw message
         | Ok output => Ok (mkToolResult (JSLib.trim output) false)
         end).

Definition ls_compare (a b : Fs.Dirent) : Z :=
  (* Directories first *)
  if Fs.isDirectory a && negb (Fs.isDirectory b) then -1
  else if negb (Fs.isDirectory a) && Fs.isDirectory b then 1
  else localeCompare host (Fs.name a) (Fs.name b).

Definition ls (args : gmap string jsval) : M ToolResult :=
  let dirPath := path_or_dot args in
  let* absPath := lift (resolvePath dirPath) in
  let* entries := reads (fun fs => Fs.readdir fs absPath) in
  let lines :=
    List.map (fun e => (if Fs.isDirectory e then "[dir]  " else "[file] ")
                       +:+ Fs.name e)
      (JSLib.sort_by ls_compare entries) in
  ret (mkToolResult
         (Js.or_else (JS.join JSLib.nl lines) "(empty directory)") false).

(** The [switch] of [execute], before its [try] catches anything. *)
Definition dispatch (toolName : string) (args : gmap string jsval)
  : M (option ToolResult) :=
  if String.eqb toolName (READ TOOL_NAMES) then settled (readFile args)
  else if String.eqb toolName (WRITE TOOL_NAMES) then settled (writeFile args)
  else if String.eqb toolName (EDIT TOOL_NAMES) then settled (editFile args)
  else if String.eqb toolName (BASH TOOL_NAMES) then bash args
  else if String.eqb toolName (GREP TOOL_NAMES) then grep args
  else if String.eqb toolName (GLOB TOOL_NAMES) then glob args
  else if String.eqb toolName (LS TOOL_NAMES) then settled (ls args)
  else ret (Some (mkToolResult ("Unknown tool: " +:+ toolName) true)).

(** [execute]: the result it resolves with, or [None] when the promise it
    awaits is never settled. *)
Definition execute (toolName : string) (args : gmap string jsval) (fs : FS)
  : option ToolResult * FS :=
  match dispatch toolName args fs with
  | (Ok result, fs') => (result, fs')
  | (Throw message, fs') => (Some (mkToolResult ("Error: " +:+ message) true), fs')
  end.

End ToolExecutor.

(** ** copilot-plugin/src/core/agent/AgentLoop.ts *)

Definition SYSTEM_PROMPT : string :=
  "You are Copilot Agent, an AI assistant embedded in Obsidian with full access to the user's vault. You can read, write, and edit files, run bash commands, search for content, and explore the file system.

Key behaviors:
- Read files before modifying them. Understand existing code/content before making changes.
- Use edit_file for targeted changes to existing files. Use write_file only for new files or full rewrites.
- When searching for code, use grep with appropriate patterns. Use glob to discover file structure.
- For bash commands, use appropriate tools (git, npm, etc.) and keep commands focused.
- Be concise in your responses. Show your work through tool use, not lengthy explanations.
- If a task requires multiple steps, execute them sequentially using the tools available.
- Always operate within the vault directory. Never access files outside the vault.".

Definition MAX_TOOL_ROUNDS : nat := 25.

(** The calls of [AgentCallbacks], in the order they are made. *)
Inductive Event : Type :=
| TextDelta (text : string)
| TextDone (fullText : string)
| ToolCallStart (id name : string)
| ToolCallInput (id partialArgs : string)
| ToolCallComplete (id name : string) (input : gmap string jsval) (result : ToolResult)
| Error_ (message : string)
| Done.

(** A step of the response body as [streamChat] walks it: the next line,
    or a call of [cancel()] that a callback makes while the chunk before is
    being handled. *)
Inductive WireStep : Type :=
| WLine (line : SseLine)
| WCancel.

(** The fields of an [AgentLoop], and the world it acts on: the file
    system, the count of dealings with the outside, the callbacks made and
    the calls placed so far. [abortController] is [None] for [null] and
    otherwise holds [signal.aborted]. *)
Record AgentLoop : Type := mkAgentLoop {
  messages : list ChatMessage;
  abortController : option bool;
  pat : string;
  this_token : option CopilotToken;
  model : string;
  fs : FS;
  tick : nat;
  events : list Event;
  calls : list Call
}.

Definition set_messages (m : list ChatMessage) (st : AgentLoop) : AgentLoop :=
  mkAgentLoop m (abortController st) (pat st) (this_token st) (model st)
    (fs st) (tick st) (events st) (calls st).

Definition set_abortController (c : option bool) (st : AgentLoop) : AgentLoop :=
  mkAgentLoop (messages st) c (pat st) (this_token st) (model st)
    (fs st) (tick st) (events st) (calls st).

Definition set_token (t : option CopilotToken) (st : AgentLoop) : AgentLoop :=
  mkAgentLoop (messages st) (abortController st) (pat st) t (model st)
    (fs st) (tick st) (events st) (calls st).

Definition set_fs (f : FS) (st : AgentLoop) : AgentLoop :=
  mkAgentLoop (messages st) (abortController st) (pat st) (this_token st) (model st)
    f (tick st) (events st) (calls st).

Definition set_tick (n : nat) (st : AgentLoop) : AgentLoop :=
  mkAgentLoop (messages st) (abortController st) (pat st) (this_token st) (model st)
    (fs st) n (events st) (calls st).

Definition emit (evs : list Event) (st : AgentLoop) : AgentLoop :=
  mkAgentLoop (messages st) (abortController st) (pat st) (this_token st) (model st)
    (fs st) (tick st) (List.app (events st) evs) (calls st).

Definition place (c : Call) (st : AgentLoop) : AgentLoop :=
  mkAgentLoop (messages st) (abortController st) (pat st) (this_token st) (model st)
    (fs st) (tick st) (events st) (List.app (calls st) [c]).

Definition push (ms : list ChatMessage) (st : AgentLoop) : AgentLoop :=
  set_messages (List.app (messages st) ms) st.

(** [signal.aborted] *)
Definition aborted (st : AgentLoop) : bool := default false (abortController st).

Definition constructor (fs0 : FS) (pat0 model0 : string) : AgentLoop :=
  mkAgentLoop [mkChatMessage system (Some SYSTEM_PROMPT) None None]
    None pat0 None model0 fs0 O [] [].

Definition setModel (model0 : string) (st : AgentLoop) : AgentLoop :=
  mkAgentLoop (messages st) (abortController st) (pat st) (this_token st) model0
    (fs st) (tick st) (events st) (calls st).

Definition getMessages (st : AgentLoop) : list ChatMessage := messages st.

Definition cancel (st : AgentLoop) : AgentLoop :=
  match abortController st with
  | Some _ => set_abortController (Some true) st
  | None => st
  end.

Definition clearHistory (st : AgentLoop) : AgentLoop :=
  set_messages [mkChatMessage system (Some SYSTEM_PROMPT) None None] st.

(** What one round has gathered so far. *)
Record RoundAcc : Type := mkRoundAcc {
  fullText : string;
  toolCalls : JsMap.t ToolCall
}.

(** The body of [for (const tc of delta.tool_calls)] in [processRound]. *)
Definition on_tool_call (tc : ToolCallDelta) (toolCalls : JsMap.t ToolCall)
  : JsMap.t ToolCall * list Event :=
  let toolCalls :=
    if negb (JsMap.has toolCalls (index tc))
    then JsMap.set toolCalls (index tc) (mkToolCall (default "" (delta_id tc)) "" "")
    else toolCalls in
  match JsMap.get toolCalls (index tc) with
  | None => (toolCalls, [])
  | Some existing =>
      let existing :=
        match truthy_string (delta_id tc) with
        | Some i => mkToolCall i (fn_name existing) (fn_arguments existing)
        | None => existing
        end in
      let '(existing, started) :=
        match truthy_string (delta_name tc) with
        | Some n => (mkToolCall (tc_id existing) n (fn_arguments existing),
                     [ToolCallStart (tc_id existing) n])
        | None => (existing, [])
        end in
      let '(existing, input) :=
        match truthy_string (delta_arguments tc) with
        | Some a => (mkToolCall (tc_id existing) (fn_name existing) (fn_arguments existing +:+ a),
                     [ToolCallInput (tc_id existing) (fn_arguments existing +:+ a)])
        | None => (existing, [])
        end in
      (JsMap.set toolCalls (index tc) existing, List.app started input)
  end.

Fixpoint on_tool_calls (tcs : list ToolCallDelta) (toolCalls : JsMap.t ToolCall)
  : JsMap.t ToolCall * list Event :=
  match tcs with
  | [] => (toolCalls, [])
  | tc :: rest =>
      let '(toolCalls, evs) := on_tool_call tc toolCalls in
      let '(toolCalls, evs') := on_tool_calls rest toolCalls in
      (toolCalls, List.app evs evs')
  end.

(** The body of [for (const choice of chunk.choices)]. *)
Definition on_choice (choice : StreamChoice) (acc : RoundAcc) : RoundAcc * list Event :=
  let '(text, evs) :=
    (* Text content *)
    match truthy_string (delta_content (delta choice)) with
    | Some c => (fullText acc +:+ c, [TextDelta c])
    | None => (fullText acc, [])
    end in
  (* Tool calls (streamed incrementally) *)
  match delta_tool_calls (delta choice) with
  | Some tcs =>
      let '(toolCalls, evs') := on_tool_calls tcs (toolCalls acc) in
      (mkRoundAcc text toolCalls, List.app evs evs')
  | None => (mkRoundAcc text (toolCalls acc), evs)
  end.

Fixpoint on_choices (cs : list StreamChoice) (acc : RoundAcc) : RoundAcc * list Event :=
  match cs with
  | [] => (acc, [])
  | c :: rest =>
      let '(acc, evs) := on_choice c acc in
      let '(acc, evs') := on_choices rest acc in
      (acc, List.app evs evs')
  end.

Section AgentLoop.

Context (host : Host) (remote : Remote WireStep) (vaultPath : string).

(** The loop waits for the outside: the user may cancel meanwhile. *)
Definition await (st : AgentLoop) : AgentLoop :=
  set_tick (S (tick st)) (if cancel_at remote (tick st) then cancel st else st).

Definition refreshToken (st : AgentLoop) : outcome string * AgentLoop :=
  let st := place TokenFetch st in
  match fetchCopilotToken remote (tick st) (pat st) with
  | Ok t => (Ok (token t), set_token (Some t) (await st))
  | Throw message => (Throw message, await st)
  end.

Definition ensureToken (st : AgentLoop) : outcome string * AgentLoop :=
  match this_token st with
  | None => refreshToken st
  | Some t =>
      let expired := isTokenExpired (Date_now remote (tick st)) (expiresAt t) 300 in
      let st := place (ExpiryCheck expired) (set_tick (S (tick st)) st) in
      if expired then refreshToken st else (Ok (token t), st)
  end.

(** [streamChat] driven by the [for await] of [processRound], from the
    first line on. The generator tests the signal before it inspects a line
    and ends without a word when it is aborted; the loop body tests it again
    before it handles a chunk. The result is [None] where [processRound]
    returns [null]. *)
Fixpoint stream_lines (wire : list WireStep) (acc : RoundAcc) (st : AgentLoop)
  : option RoundAcc * AgentLoop :=
  match wire with
  | [] => (Some acc, st)
  | WCancel :: rest => stream_lines rest acc (cancel st)
  | WLine line :: rest =>
      if aborted st then (Some acc, st)
      else
        match line with
        | NoData => stream_lines rest acc st
        | DoneSentinel => (Some acc, st)
        | Garbled => stream_lines rest acc st   (* Skip malformed chunks *)
        | Data chunk =>
            if aborted st then (None, st)
            else
              let '(acc, evs) := on_choices (choices chunk) acc in
              stream_lines rest acc (emit evs st)
        end
  end.

(** The [catch] of [processRound]: the non-streaming request. *)
Fixpoint fallback_tool_calls (i : Z) (tcs : list ToolCall) (toolCalls : JsMap.t ToolCall)
  : JsMap.t ToolCall * list Event :=
  match tcs with
  | [] => (toolCalls, [])
  | tc :: rest =>
      let '(toolCalls', evs) :=
        fallback_tool_calls (i + 1) rest
          (JsMap.set toolCalls i (mkToolCall (tc_id tc) (fn_name tc) (fn_arguments tc))) in
      (toolCalls',
       ToolCallStart (tc_id tc) (fn_name tc) :: ToolCallInput (tc_id tc) (fn_arguments tc) :: evs)
  end.

Definition fallback (tok : string) (acc : RoundAcc) (st : AgentLoop)
  : outcome RoundAcc * AgentLoop :=
  let st := place (ChatFallback tok) st in
  match sendChat remote tok (messages st) (model st) with
  | Throw message => (Throw message, await st)
  | Ok response =>
      let st := await st in
      let '(text, evs) :=
        match truthy_string (msg_content response) with
        | Some c => (c, [TextDelta c])
        | None => (fullText acc, [])
        end in
      let '(toolCalls, evs') :=
        match tool_calls response with
        | Some tcs => fallback_tool_calls 0 tcs (toolCalls acc)
        | None => (toolCalls acc, [])
        end in
      (Ok (mkRoundAcc text toolCalls), emit (List.app evs evs') st)
  end.

Definition processRound (tok : string) (st : AgentLoop)
  : outcome (option ChatMessage) * AgentLoop :=
  let acc := mkRoundAcc "" [] in
  let st := place (ChatRequest tok) st in
  let '(streamed, st) :=
    (* Try streaming first *)
    match requestUrl remote tok (messages st) (model st) with
    | Ok wire =>
        let st := await st in
        if aborted st then (Ok (Some acc), st)
        else let '(r, st) := stream_lines wire acc st in (Ok r, st)
    | Throw _ =>
        (* Streaming failed — fallback to non-streaming *)
        let '(r, st) := fallback tok acc (await st) in
        (match r with Ok acc => Ok (Some acc) | Throw message => Throw message end, st)
    end in
  match streamed with
  | Throw message => (Throw message, st)
  | Ok None => (Ok None, st)
  | Ok (Some acc) =>
      let st := if Js.nonempty (fullText acc) then emit [TextDone (fullText acc)] st else st in
      (* Build assistant message for history *)
      let assistantMsg :=
        mkChatMessage assistant (or_null (fullText acc))
          (if (0 <? JsMap.size (toolCalls acc))%nat
           then Some (JsMap.values (toolCalls acc)) else None)
          None in
      (Ok (Some assistantMsg), push [assistantMsg] st)
  end.

(** The result is [None] when [execute] never comes back: the loop stays
    at its [await]. *)
Fixpoint executeToolCalls (tcs : list ToolCall) (results : list ChatMessage)
  (st : AgentLoop) : option (list ChatMessage) * AgentLoop :=
  match tcs with
  | [] => (Some results, st)
  | tc :: rest =>
      if aborted st then (Some results, st)
      else
        let input := default ∅ (JSON_parse remote (fn_arguments tc)) in
        match execute host vaultPath (fn_name tc) input (fs st) with
        | (None, fs') => (None, await (set_fs fs' st))
        | (Some result, fs') =>
            let st := await (set_fs fs' st) in
            let st := emit [ToolCallComplete (tc_id tc) (fn_name tc) input result] st in
            executeToolCalls rest
              (List.app results
                 [mkChatMessage tool (Some (content result)) None (Some (tc_id tc))])
              st
        end
  end.

Definition max_rounds_notice : string :=
  JSLib.nl +:+ JSLib.nl
  +:+ "*Reached maximum tool use rounds. Please continue the conversation to proceed.*".

(** How the [while] loop of [send] ends: it has run out of rounds and
    [send] goes on below it; or [send] has returned from inside it; or
    [send] stays at an [await] that never comes back. *)
Inductive LoopEnd : Type :=
| Exhausted
| Returned
| Stuck.

(** The [while (rounds < MAX_TOOL_ROUNDS)] of [send], with [left] rounds
    to go. *)
Fixpoint rounds_loop (left : nat) (tok : string) (st : AgentLoop)
  : outcome LoopEnd * AgentLoop :=
  match left with
  | O => (Ok Exhausted, st)
  | S left' =>
      if aborted st then (Ok Returned, st)
      else
        match processRound tok st with
        | (Throw message, st) => (Throw message, st)
        | (Ok None, st) => (Ok Returned, st)
        | (Ok (Some assistantMessage), st) =>
            match tool_calls assistantMessage with
            | None | Some [] =>
                (* If no tool calls, we're done *)
                (Ok Returned, emit [Done] st)
            | Some tcs =>
                (* Execute tool calls and continue the loop *)
                match executeToolCalls tcs [] st with
                | (None, st) => (Ok Stuck, st)
                | (Some toolResults, st) =>
                    if aborted st then (Ok Returned, st)
                    else rounds_loop left' tok (push toolResults st)
                end
            end
        end
  end.

Definition send (userMessage : string) (st : AgentLoop) : AgentLoop :=
  let st := set_abortController (Some false) st in
  let st := push [mkChatMessage user (Some userMessage) None None] st in
  let '(r, st) :=
    match ensureToken st with
    | (Ok tok, st) => rounds_loop MAX_TOOL_ROUNDS tok st
    | (Throw message, st) => (Throw message, st)
    end in
  match r with
  | Ok Exhausted =>
      (* Exceeded max rounds *)
      emit [TextDelta max_rounds_notice; Done] st
  | Ok Returned | Ok Stuck => st
  | Throw message => if negb (aborted st) then emit [Error_ message] st else st
  end.

End AgentLoop.

End Plugin.

(** ** src/core/copilot/executor.ts *)

Module Service.

Definition BLOCKED_COMMANDS : list string :=
  ["rm -rf /"; "rm -rf ~"; "mkfs"; "dd if="; ":(){ :|:& };:"].

Definition BASH_TIMEOUT_MS : Z := 30000.
Definition MAX_OUTPUT_BYTES : Z := 1048576. (* 1 MB *)

Section CopilotToolExecutor.

Context (host : Host) (COPILOT_TOOL_NAMES : ToolNames) (vaultPath : string).

Local Open Scope js_scope.

Definition resolvePath (relativePath : string) : outcome string :=
  let resolved := JS.path_resolve (cwd host) [vaultPath; relativePath] in
  if negb (JS.startsWith resolved vaultPath)
  then Throw ("Path traversal detected: " +:+ relativePath)
  else Ok resolved.

(** [String(v ?? '')] *)
Definition string_or_empty (v : jsval) : string :=
  Js.String_ (Js.nullish_or v (JStr "")).

(** [Number(v ?? d)] *)
Definition Number_or (v : jsval) (d : number) : number :=
  match Js.nullish_or v (JNum d) with
  | JNum n => n
  | JBool true => 1
  | JBool false => 0
  | JStr s => Number_of_string host s
  | JNull => 0
  | JUndefined => Number.NaN
  end.

(** [.map((line, i) => `${start + i + 1}\t${line}`)] *)
Definition numbered_from (start : number) (selected : list string) : list string :=
  List.map (fun il =>
              Number.toString (Number.add (Number.add start (Z.of_nat il.1)) 1)
              +:+ JSLib.tab +:+ il.2)
    (List.combine (List.seq 0 (List.length selected)) selected).

Definition readFile (args : gmap string jsval) : M ToolResult :=
  let* filePath := lift (resolvePath (string_or_empty (Js.get args "file_path"))) in
  let offset := Number_or (Js.get args "offset") 1 in
  let limit := Number_or (Js.get args "limit") 2000 in
  let* content := reads (fun fs => Fs.readFile fs filePath) in
  let lines := JS.split_on "010" content in
  let start := Number.max 0 (Number.sub offset 1) in
  let end_ := Number.min (Z.of_nat (List.length lines)) (Number.add start limit) in
  let numbered := JS.join JSLib.nl (numbered_from start (JSLib.slice lines start end_)) in
  ret (mkToolResult numbered false).

Definition writeFile (args : gmap string jsval) : M ToolResult :=
  let* filePath := lift (resolvePath (string_or_empty (Js.get args "file_path"))) in
  let content := string_or_empty (Js.get args "content") in
  let* _ := updates (fun fs => Fs.mkdir_recursive fs (Fs.dirname filePath)) in
  let* _ := updates (fun fs => Fs.writeFile fs filePath content) in
  ret (mkToolResult ("File written: " +:+ Js.String_ (Js.get args "file_path")) false).

Definition editFile (args : gmap string jsval) : M ToolResult :=
  let* filePath := lift (resolvePath (string_or_empty (Js.get args "file_path"))) in
  let oldString := string_or_empty (Js.get args "old_string") in
  let newString := string_or_empty (Js.get args "new_string") in
  let* content := reads (fun fs => Fs.readFile fs filePath) in
  let occurrences := Z.of_nat (JS.split_length content oldString) - 1 in
  if occurrences =? 0 then
    ret (mkToolResult "old_string not found in file" true)
  else if 1 <? occurrences then
    ret (mkToolResult
           ("old_string found " +:+ pretty occurrences +:+ " times (must be unique)")
           true)
  else
    let updated := JS.replace content oldString newString in
    let* _ := updates (fun fs => Fs.writeFile fs filePath updated) in
    ret (mkToolResult ("File edited: " +:+ Js.String_ (Js.get args "file_path")) false).

Definition exec_then (cmd : string) (options : ExecOptions)
  (callback : ExecOutcome -> ToolResult) : M ToolResult :=
  let* out := exec host cmd options in
  ret (callback out).

Definition bash (args : gmap string jsval) : M ToolResult :=
  let command := string_or_empty (Js.get args "command") in
  match List.find (fun blocked => JS.includes command blocked) BLOCKED_COMMANDS with
  | Some blocked => ret (mkToolResult ("Blocked command: " +:+ blocked) true)
  | None =>
      exec_then command (mkExecOptions vaultPath BASH_TIMEOUT_MS MAX_OUTPUT_BYTES)
        (fun out =>
           match error out with
           | Some e =>
               let output :=
                 Js.or_else (stderr out) (Js.or_else (stdout out) (error_message e)) in
               mkToolResult (JSLib.take_chars 10000 output) true
           | None =>
               let output :=
                 stdout out +:+ (if Js.nonempty (stderr out)
                                 then JSLib.nl +:+ stderr out else "") in
               mkToolResult (Js.or_else (JSLib.take_chars 10000 output) "(no output)") false
           end)
  end.

(** [args.path ? this.resolvePath(String(args.path)) : this.vaultPath] *)
Definition path_or_vault (args : gmap string jsval) : outcome string :=
  if Js.truthy (Js.get args "path")
  then resolvePath (Js.String_ (Js.get args "path"))
  else Ok vaultPath.

Definition grep (args : gmap string jsval) : M ToolResult :=
  let pattern := string_or_empty (Js.get args "pattern") in
  let* searchPath := lift (path_or_vault args) in
  let include := if Js.truthy (Js.get args "include")
                 then "--include=" +:+ JSLib.dquote
                      +:+ Js.String_ (Js.get args "include") +:+ JSLib.dquote
                 else "" in
  let contextLines := Number_or (Js.get args "context_lines") 0 in
  let contextFlag := if Number.ltb 0 contextLines
                     then "-C " +:+ Number.toString contextLines else "" in
  let command := "grep -rn " +:+ contextFlag +:+ " " +:+ include +:+ " -E "
                 +:+ JSLib.dquote +:+ JSLib.escape_quotes pattern +:+ JSLib.dquote
                 +:+ " " +:+ JSLib.dquote +:+ searchPath +:+ JSLib.dquote
                 +:+ " 2>/dev/null | head -200" in
  exec_then command (mkExecOptions vaultPath BASH_TIMEOUT_MS MAX_OUTPUT_BYTES)
    (fun out =>
       if bool_decide (is_Some (error out)) && negb (Js.nonempty (stdout out))
       then mkToolResult "No matches found" false
       else mkToolResult
              (Js.or_else (JSLib.take_chars 10000 (stdout out)) "No matches found") false).

Definition glob (args : gmap string jsval) : M ToolResult :=
  let pattern := string_or_empty (Js.get args "pattern") in
  let* searchPath := lift (path_or_vault args) in
  let command := "find " +:+ JSLib.dquote +:+ searchPath +:+ JSLib.dquote
                 +:+ " -path " +:+ JSLib.dquote +:+ "*/" +:+ pattern +:+ JSLib.dquote
                 +:+ " -o -name " +:+ JSLib.dquote +:+ pattern +:+ JSLib.dquote
                 +:+ " 2>/dev/null | head -200" in
  exec_then command (mkExecOptions vaultPath BASH_TIMEOUT_MS MAX_OUTPUT_BYTES)
    (fun out =>
       if bool_decide (is_Some (error out)) && negb (Js.nonempty (stdout out))
       then mkToolResult "No files found" false
       else
         (* Convert absolute paths to relative *)
         let files_ :=
           JS.join JSLib.nl
             (List.map (fun f => path_relative host vaultPath f)
                (List.filter Js.nonempty (JS.split_on "010" (stdout out)))) in
         mkToolResult (Js.or_else files_ "No files found") false).

Definition ls (args : gmap string jsval) : M ToolResult :=
  let* dirPath := lift (path_or_vault args) in
  let* entries := reads (fun fs => Fs.readdir fs dirPath) in
  let dirs_ := List.map (fun e => Fs.name e +:+ "/") (List.filter Fs.isDirectory entries) in
  let files_ := List.map Fs.name (List.filter Fs.isFile entries) in
  ret (mkToolResult
         (Js.or_else
            (JS.join JSLib.nl
               (List.app (JSLib.sort_by JSLib.code_unit_compare dirs_)
                  (JSLib.sort_by JSLib.code_unit_compare files_)))
            "(empty directory)")
         false).

(** The [switch] of [execute], before its [try] catches anything. *)
Definition dispatch (toolName : string) (args : gmap string jsval) : M ToolResult :=
  if String.eqb toolName (READ COPILOT_TOOL_NAMES) then readFile args
  else if String.eqb toolName (WRITE COPILOT_TOOL_NAMES) then writeFile args
  else if String.eqb toolName (EDIT COPILOT_TOOL_NAMES) then editFile args
  else if String.eqb toolName (BASH COPILOT_TOOL_NAMES) then bash args
  else if String.eqb toolName (GREP COPILOT_TOOL_NAMES) then grep args
  else if String.eqb toolName (GLOB COPILOT_TOOL_NAMES) then glob args
  else if String.eqb toolName (LS COPILOT_TOOL_NAMES) then ls args
  else ret (mkToolResult ("Unknown tool: " +:+ toolName) true).

Definition execute (toolName : string) (args : gmap string jsval) (fs : FS)
  : ToolResult * FS :=
  match dispatch toolName args fs with
  | (Ok result, fs') => (result, fs')
  | (Throw message, fs') => (mkToolResult ("Error: " +:+ message) true, fs')
  end.

End CopilotToolExecutor.

(** ** src/core/copilot/CopilotService.ts *)

Definition MAX_TOOL_ROUNDS : nat := 25.

Definition SYSTEM_PROMPT : string :=
  "You are an AI assistant embedded in Obsidian, a knowledge management application.
You have full access to the user's vault (files, folders, notes) and can read, write, edit files,
run bash commands, search for patterns, and list directories.

Key capabilities:
- Read and understand any file in the vault
- Create new files and edit existing ones
- Run bash/shell commands for development tasks
- Search across files using grep and glob patterns
- List directory contents

Guidelines:
- Always read files before editing them to understand context
- Use relative paths from the vault root
- Be concise but thorough in responses
- When editing files, prefer targeted edits over full rewrites
- For code changes, explain what you're doing and why".

(** The chunks that [query] yields to the user interface. *)
Inductive UiChunk : Type :=
| UiError (content : string)
| UiDone
| UiText (content : string)
| UiToolUse (id name : string) (input : gmap string jsval)
| UiToolResult (id content : string) (isError : bool).

(** A message of the conversation as the user interface keeps it. *)
Record UiToolCall : Type := mkUiToolCall {
  ui_id : string;
  ui_name : string;
  ui_input : gmap string jsval;
  ui_result : option string
}.

Record UiMessage : Type := mkUiMessage {
  ui_role : Role;
  ui_content : string;
  isInterrupt : bool;
  isRebuiltContext : bool;
  ui_toolCalls : option (list UiToolCall)
}.

(** A step of the response as [streamChat] reads it: the next line, a call
    of [cancel()] or of [updatePat(pat)] by the consumer of [query], or a
    read that fails. *)
Inductive WireStep : Type :=
| SLine (line : SseLine)
| SCancel
| SUpdatePat (pat : string)
| SFail (message : string).

(** The fields of a [CopilotService] that [query] uses, and the world it
    acts on. [abortController] is [None] for [null] and otherwise holds
    [signal.aborted]; [events] are the chunks yielded so far. *)
Record CopilotService : Type := mkCopilotService {
  pat : string;
  copilotToken : option CopilotToken;
  selectedModel : string;
  abortController : option bool;
  customSystemPrompt : string;
  fs : FS;
  tick : nat;
  events : list UiChunk;
  calls : list Call
}.

Definition set_copilotToken (t : option CopilotToken) (st : CopilotService)
  : CopilotService :=
  mkCopilotService (pat st) t (selectedModel st) (abortController st)
    (customSystemPrompt st) (fs st) (tick st) (events st) (calls st).

Definition set_abortController (c : option bool) (st : CopilotService) : CopilotService :=
  mkCopilotService (pat st) (copilotToken st) (selectedModel st) c
    (customSystemPrompt st) (fs st) (tick st) (events st) (calls st).

Definition set_fs (f : FS) (st : CopilotService) : CopilotService :=
  mkCopilotService (pat st) (copilotToken st) (selectedModel st) (abortController st)
    (customSystemPrompt st) f (tick st) (events st) (calls st).

Definition set_tick (n : nat) (st : CopilotService) : CopilotService :=
  mkCopilotService (pat st) (copilotToken st) (selectedModel st) (abortController st)
    (customSystemPrompt st) (fs st) n (events st) (calls st).

Definition yield (cs : list UiChunk) (st : CopilotService) : CopilotService :=
  mkCopilotService (pat st) (copilotToken st) (selectedModel st) (abortController st)
    (customSystemPrompt st) (fs st) (tick st) (List.app (events st) cs) (calls st).

Definition place (c : Call) (st : CopilotService) : CopilotService :=
  mkCopilotService (pat st) (copilotToken st) (selectedModel st) (abortController st)
    (customSystemPrompt st) (fs st) (tick st) (events st) (List.app (calls st) [c]).

(** [this.abortController?.signal.aborted] as a condition. *)
Definition aborted (st : CopilotService) : bool := default false (abortController st).

Definition constructor (fs0 : FS) (pat0 model0 : string) : CopilotService :=
  mkCopilotService pat0 None model0 None "" fs0 O [] [].

Definition cancel (st : CopilotService) : CopilotService :=
  set_abortController None st.

Definition setModel (model0 : string) (st : CopilotService) : CopilotService :=
  mkCopilotService (pat st) (copilotToken st) model0 (abortController st)
    (customSystemPrompt st) (fs st) (tick st) (events st) (calls st).

Definition setCustomSystemPrompt (prompt : string) (st : CopilotService) : CopilotService :=
  mkCopilotService (pat st) (copilotToken st) (selectedModel st) (abortController st)
    prompt (fs st) (tick st) (events st) (calls st).

Definition updatePat (pat0 : string) (st : CopilotService) : CopilotService :=
  mkCopilotService pat0 None (selectedModel st) (abortController st)
    (customSystemPrompt st) (fs st) (tick st) (events st) (calls st).

(** What [streamOneRound] returns. *)
Record RoundResult : Type := mkRoundResult {
  textContent : string;
  toolCalls : list ToolCall;
  round_error : option string;
  round_aborted : bool
}.

Section CopilotService.

Context (host : Host) (remote : Remote WireStep) (COPILOT_TOOL_NAMES : ToolNames)
  (JSON_stringify : gmap string jsval -> string) (vaultPath : string).

(** The loop waits for the outside: meanwhile the consumer may cancel, and
    the user may put in another secret. *)
Definition meanwhile (st : CopilotService) : CopilotService :=
  let st := match updatePat_at remote (tick st) with
            | Some pat0 => updatePat pat0 st
            | None => st
            end in
  if cancel_at remote (tick st) then cancel st else st.

Definition await (st : CopilotService) : CopilotService :=
  set_tick (S (tick st)) (meanwhile st).

Definition fetchToken (st : CopilotService) : outcome string * CopilotService :=
  let st := place TokenFetch st in
  match fetchCopilotToken remote (tick st) (pat st) with
  | Ok t => (Ok (token t), set_copilotToken (Some t) (await st))
  | Throw message => (Throw message, await st)
  end.

Definition ensureCopilotToken (st : CopilotService) : outcome string * CopilotService :=
  match copilotToken st with
  | Some t =>
      let expired := isTokenExpired (Date_now remote (tick st)) (expiresAt t) 300 in
      let st := place (ExpiryCheck expired) (set_tick (S (tick st)) st) in
      if negb expired then (Ok (token t), st) else fetchToken st
  | None => fetchToken st
  end.

(** The body of [for (const tc of delta.tool_calls)] in [streamOneRound];
    [n] is the count of dealings with the outside, which a reading of the
    clock advances. *)
Definition on_tool_call (tc : ToolCallDelta) (m : JsMap.t ToolCall * nat)
  : JsMap.t ToolCall * nat :=
  let '(toolCallsMap, n) := m in
  match JsMap.get toolCallsMap (index tc) with
  | None =>
      let '(id, n) :=
        match delta_id tc with
        | Some i => (i, n)
        | None => ("tc_" +:+ pretty (index tc) +:+ "_" +:+ pretty (Date_now remote n), S n)
        end in
      (JsMap.set toolCallsMap (index tc)
         (mkToolCall id (default "" (delta_name tc)) (default "" (delta_arguments tc))),
       n)
  | Some existing =>
      let existing :=
        match truthy_string (delta_arguments tc) with
        | Some a => mkToolCall (tc_id existing) (fn_name existing)
                      (fn_arguments existing +:+ a)
        | None => existing
        end in
      let existing :=
        match truthy_string (delta_name tc) with
        | Some name => mkToolCall (tc_id existing) name (fn_arguments existing)
        | None => existing
        end in
      (JsMap.set toolCallsMap (index tc) existing, n)
  end.

(** The body of the [for await] of [streamOneRound] for one chunk. *)
Definition on_chunk (sseChunk : StreamChunk) (textContent : string)
  (m : JsMap.t ToolCall * nat) : string * (JsMap.t ToolCall * nat) * list UiChunk :=
  match choices sseChunk with
  | [] => (textContent, m, [])
  | choice :: _ =>
      let '(textContent, out) :=
        (* Stream text content to UI in real-time *)
        match truthy_string (delta_content (delta choice)) with
        | Some c => (textContent +:+ c, [UiText c])
        | None => (textContent, [])
        end in
      (* Accumulate tool calls (built incrementally via index) *)
      match delta_tool_calls (delta choice) with
      | Some tcs => (textContent, List.fold_left (fun m tc => on_tool_call tc m) tcs m, out)
      | None => (textContent, m, out)
      end
  end.

(** [streamChat] driven by the [for await] of [streamOneRound]: the lines
    that carry no chunk are passed over, a failing read throws. *)
Fixpoint stream_steps (wire : list WireStep) (textContent : string)
  (toolCallsMap : JsMap.t ToolCall) (st : CopilotService)
  : outcome (JsMap.t ToolCall) * string * CopilotService :=
  match wire with
  | [] => (Ok toolCallsMap, textContent, st)
  | SCancel :: rest => stream_steps rest textContent toolCallsMap (cancel st)
  | SUpdatePat pat0 :: rest => stream_steps rest textContent toolCallsMap (updatePat pat0 st)
  | SFail message :: _ => (Throw message, textContent, st)
  | SLine line :: rest =>
      match line with
      | NoData | DoneSentinel | Garbled => stream_steps rest textContent toolCallsMap st
      | Data sseChunk =>
          let '(textContent, (toolCallsMap, n), out) :=
            on_chunk sseChunk textContent (toolCallsMap, tick st) in
          stream_steps rest textContent toolCallsMap (yield out (set_tick n st))
      end
  end.

Definition streamOneRound (tok : string) (messages : list ChatMessage)
  (st : CopilotService) : RoundResult * CopilotService :=
  let st := place (ChatRequest tok) st in
  let '(r, textContent, st) :=
    match requestUrl remote tok messages (selectedModel st) with
    | Ok wire => stream_steps wire "" [] (await st)
    | Throw message => (Throw message, "", await st)
    end in
  match r with
  | Throw message =>
      if aborted st then (mkRoundResult textContent [] None true, st)
      else (mkRoundResult textContent [] (Some message) false, st)
  | Ok toolCallsMap =>
      let toolCalls :=
        List.map snd (JSLib.sort_by (fun a b => a.1 - b.1) (JsMap.entries toolCallsMap)) in
      (mkRoundResult textContent toolCalls None false, st)
  end.

(** [for (const tc of roundResult.toolCalls)] in [query]. *)
Fixpoint execute_tool_calls (tcs : list ToolCall) (messages : list ChatMessage)
  (st : CopilotService) : list ChatMessage * CopilotService :=
  match tcs with
  | [] => (messages, st)
  | tc :: rest =>
      let args := default ∅ (JSON_parse remote (fn_arguments tc)) in
      (* Yield tool_use to show in UI *)
      let st := yield [UiToolUse (tc_id tc) (fn_name tc) args] st in
      (* Execute tool *)
      let '(result, fs') :=
        execute host COPILOT_TOOL_NAMES vaultPath (fn_name tc) args (fs st) in
      let st := await (set_fs fs' st) in
      (* Yield tool_result for UI *)
      let st := yield [UiToolResult (tc_id tc) (content result) (isError result)] st in
      (* Add tool result to conversation for next round *)
      execute_tool_calls rest
        (List.app messages
           [mkChatMessage tool (Some (content result)) None (Some (tc_id tc))])
        st
  end.

(** The [for (let round = 0; round < MAX_TOOL_ROUNDS; round++)] of [query],
    with [left] rounds to go. The result tells whether the loop ran out of
    rounds, in which case [query] goes on below it, or returned from
    inside; the message list of the query comes back with it. *)
Fixpoint rounds_loop (left : nat) (tok : string) (messages : list ChatMessage)
  (st : CopilotService) : outcome bool * list ChatMessage * CopilotService :=
  match left with
  | O => (Ok true, messages, st)
  | S left' =>
      let '(roundResult, st) := streamOneRound tok messages st in
      if round_aborted roundResult then (Ok false, messages, st)
      else
        match round_error roundResult with
        | Some e => (Ok false, messages, yield [UiError e] st)
        | None =>
            match toolCalls roundResult with
            | [] =>
                (* No tool calls → response is complete *)
                (Ok false, messages, yield [UiDone] st)
            | _ :: _ =>
                (* Add assistant message with tool calls to conversation *)
                let messages :=
                  List.app messages
                    [mkChatMessage assistant (or_null (textContent roundResult))
                       (Some (toolCalls roundResult)) None] in
                (* Execute each tool call *)
                let '(messages, st) :=
                  execute_tool_calls (toolCalls roundResult) messages st in
                (* Refresh token if needed before next round *)
                match copilotToken st with
                | Some t =>
                    let expired :=
                      isTokenExpired (Date_now remote (tick st)) (expiresAt t) 300 in
                    let st := place (ExpiryCheck expired) (set_tick (S (tick st)) st) in
                    if expired then
                      match ensureCopilotToken st with
                      | (Ok tok', st) => rounds_loop left' tok' messages st
                      | (Throw message, st) => (Throw message, messages, st)
                      end
                    else rounds_loop left' tok messages st
                | None => rounds_loop left' tok messages st
                end
            end
        end
  end.

Definition history_message (msg : UiMessage) : list ChatMessage :=
  if isInterrupt msg || isRebuiltContext msg then []
  else
    match ui_role msg with
    | user => [mkChatMessage user (Some (ui_content msg)) None None]
    | assistant =>
        match ui_toolCalls msg with
        | Some (tc :: tcs) =>
            let toolCallObjs :=
              List.map (fun tc => mkToolCall (ui_id tc) (ui_name tc)
                                    (JSON_stringify (ui_input tc))) (tc :: tcs) in
            mkChatMessage assistant (or_null (ui_content msg)) (Some toolCallObjs) None
            :: List.flat_map
                 (fun tc =>
                    match ui_result tc with
                    | Some r => [mkChatMessage tool (Some r) None (Some (ui_id tc))]
                    | None => []
                    end)
                 (tc :: tcs)
        | _ => [mkChatMessage assistant (Some (ui_content msg)) None None]
        end
    | _ => []
    end.

Definition buildMessages (prompt : string) (images : nat)
  (conversationHistory : option (list UiMessage)) (st : CopilotService)
  : list ChatMessage :=
  (* System prompt *)
  let systemContent :=
    if Js.nonempty (customSystemPrompt st)
    then SYSTEM_PROMPT +:+ JSLib.nl +:+ JSLib.nl +:+ customSystemPrompt st
    else SYSTEM_PROMPT in
  (* Current user message *)
  let userContent :=
    if (0 <? images)%nat
    then prompt +:+ JSLib.nl +:+ JSLib.nl
         +:+ "[Note: Image attachments are present but not supported in Copilot mode]"
    else prompt in
  List.app
    (mkChatMessage system (Some systemContent) None None
     :: List.flat_map history_message (default [] conversationHistory))
    [mkChatMessage user (Some userContent) None None].

(** [query], with the number of image attachments for [images]. It
    returns the message list it has built, for the properties to speak of. *)
Definition query (prompt : string) (images : nat)
  (conversationHistory : option (list UiMessage)) (st : CopilotService)
  : list ChatMessage * CopilotService :=
  if negb (Js.nonempty (pat st)) then
    ([], yield [UiError "Not authenticated with GitHub Copilot. Please sign in via Settings."] st)
  else
    match ensureCopilotToken st with
    | (Throw message, st) => ([], yield [UiError ("Copilot auth failed: " +:+ message)] st)
    | (Ok tok, st) =>
        (* Build initial messages *)
        let messages := buildMessages prompt images conversationHistory st in
        let st := set_abortController (Some false) st in
        let '(r, messages, st) :=
          (* Agent loop: stream → tool calls → execute → stream again *)
          rounds_loop MAX_TOOL_ROUNDS tok messages st in
        let st :=
          match r with
          | Ok true =>
              yield [UiError ("Max tool rounds (" +:+ pretty MAX_TOOL_ROUNDS +:+ ") exceeded")] st
          | Ok false => st
          | Throw message => if negb (aborted st) then yield [UiError message] st else st
          end in
        (messages, set_abortController None st)
    end.

End CopilotService.

End Service.

(** ** src/core/copilot/client.ts *)

Module ServiceClient.

(** The body of [while (true)] in [streamChat] for one read that is not
    the last: the text read is put after the buffer, the lines that are
    complete are handed to the [for] loop and the rest is the new buffer
    ([lines.pop()]). *)
Definition take_lines (buffer value : string) : list string * string :=
  let buffer := buffer +:+ value in
  let lines := JS.split_on "010" buffer in
  (List.removelast lines, List.last lines "").

(** The lines that the [for] loop sees, read after read; when the reader
    is done the loop breaks and what is in the buffer is dropped. *)
Fixpoint read_loop (reads : list string) (buffer : string) : list string :=
  match reads with
  | [] => []
  | value :: rest =>
      let '(lines, buffer) := take_lines buffer value in
      List.app lines (read_loop rest buffer)
  end.

(** What a line is to the [for] loop. [parse] is [JSON.parse] of the data,
    [None] when it throws. *)
Definition on_line (parse : string -> option StreamChunk) (line : string) : SseLine :=
  let trimmed := JSLib.trim line in
  if negb (Js.nonempty trimmed) then NoData
  else if String.eqb trimmed "data: [DONE]" then DoneSentinel
  else if negb (JS.startsWith trimmed "data: ") then NoData
  else match parse (JS.drop 6 trimmed) with
       | Some chunk => Data chunk
       | None => Garbled   (* Skip malformed JSON lines *)
       end.

Definition streamChat (parse : string -> option StreamChunk) (reads : list string)
  : list Service.WireStep :=
  List.map (fun line => Service.SLine (on_line parse line)) (read_loop reads "").

End ServiceClient.

(** ** The device code flow: api/auth.ts and copilot/auth.ts *)

Module Auth.

(** The token endpoint and the timers, as the polling loop meets them: the
    n-th [sleep(ms)] lasts [ms + sleep_lag n], the n-th request lasts
    [post_latency n] and is answered with [post_reply n], the parsed body,
    or throws (the request, or the parsing of its answer). *)
Record Endpoint : Type := mkEndpoint {
  sleep_lag : nat -> Z;
  post_latency : nat -> Z;
  post_reply : nat -> outcome (gmap string jsval)
}.

(** The clock in milliseconds, the number of requests placed and the
    sleeps asked for so far. *)
Record Polling : Type := mkPolling {
  now : Z;
  polls : nat;
  slept : list Z
}.

(** [await sleep(ms)]: a timer never fires early, and fires at once when
    [ms] is negative. *)
Definition sleep (endpoint : Endpoint) (ms : Z) (w : Polling) : Polling :=
  mkPolling (now w + Z.max 0 ms + sleep_lag endpoint (List.length (slept w))) (polls w)
    (List.app (slept w) [ms]).

Definition post (endpoint : Endpoint) (w : Polling)
  : outcome (gmap string jsval) * Polling :=
  (post_reply endpoint (polls w),
   mkPolling (now w + post_latency endpoint (polls w)) (S (polls w)) (slept w)).

(** [v === s] for a string [s]. *)
Definition is_string (v : jsval) (s : string) : bool :=
  match v with
  | JStr t => String.eqb t s
  | _ => false
  end.

End Auth.

Module PluginAuth.

(** The [while (Date.now() < deadline)] of [pollForAccessToken], with
    [fuel] turns to go; [None] when it is still polling after them. The
    device code goes into the body of the request and nowhere else. *)
Fixpoint poll (endpoint : Auth.Endpoint) (fuel : nat) (interval deadline : Z)
  (w : Auth.Polling) : option (outcome jsval) * Auth.Polling :=
  match fuel with
  | O => (None, w)
  | S fuel' =>
      if Auth.now w <? deadline then
        let w := Auth.sleep endpoint (interval * 1000) w in
        let '(reply, w) := Auth.post endpoint w in
        match reply with
        | Throw message => (Some (Throw message), w)
        | Ok data =>
            if Js.truthy (Js.get data "access_token")
            then (Some (Ok (Js.get data "access_token")), w)
            else if Auth.is_string (Js.get data "error") "expired_token"
            then (Some (Throw "Device code expired"), w)
            else if Js.truthy (Js.get data "error")
                    && negb (Auth.is_string (Js.get data "error") "authorization_pending")
                    && negb (Auth.is_string (Js.get data "error") "slow_down")
            then (Some (Throw ("Auth error: " +:+ Js.String_ (Js.get data "error"))), w)
            else poll endpoint fuel' interval deadline w
        end
      else (Some (Throw "Polling timed out"), w)
  end.

Definition pollForAccessToken (endpoint : Auth.Endpoint) (fuel : nat)
  (interval expiresIn : Z) (w : Auth.Polling) : option (outcome jsval) * Auth.Polling :=
  let deadline := Auth.now w + expiresIn * 1000 in
  poll endpoint fuel interval deadline w.

End PluginAuth.

Module ServiceAuth.

(** The loop of the service: [slow_down] makes the interval longer. *)
Fixpoint poll (endpoint : Auth.Endpoint) (fuel : nat) (pollInterval deadline : Z)
  (w : Auth.Polling) : option (outcome jsval) * Auth.Polling :=
  match fuel with
  | O => (None, w)
  | S fuel' =>
      if Auth.now w <? deadline then
        let w := Auth.sleep endpoint pollInterval w in
        let '(reply, w) := Auth.post endpoint w in
        match reply with
        | Throw message => (Some (Throw message), w)
        | Ok data =>
            if Js.truthy (Js.get data "access_token")
            then (Some (Ok (Js.get data "access_token")), w)
            else if Auth.is_string (Js.get data "error") "slow_down"
            then poll endpoint fuel' (pollInterval + 5000) deadline w
            else if Auth.is_string (Js.get data "error") "authorization_pending"
            then poll endpoint fuel' pollInterval deadline w
            else if Auth.is_string (Js.get data "error") "expired_token"
            then (Some (Throw "Device code expired. Please try again."), w)
            else if Js.truthy (Js.get data "error")
            then (Some (Throw ("OAuth error: "
                               +:+ Js.String_
                                     (if Js.truthy (Js.get data "error_description")
                                      then Js.get data "error_description"
                                      else Js.get data "error"))), w)
            else poll endpoint fuel' pollInterval deadline w
        end
      else (Some (Throw "Device code flow timed out."), w)
  end.

Definition pollForAccessToken (endpoint : Auth.Endpoint) (fuel : nat)
  (interval expiresIn : Z) (w : Auth.Polling) : option (outcome jsval) * Auth.Polling :=
  let deadline := Auth.now w + expiresIn * 1000 in
  let pollInterval := interval * 1000 in
  poll endpoint fuel pollInterval deadline w.

End ServiceAuth.

(** ** copilot-plugin/src/features/chat: ChatState.ts, StreamController.ts *)

Module Chat.

Inductive Status : Type := running | completed | error_.

Record StoredToolCall : Type := mkStoredToolCall {
  stc_id : string;
  stc_name : string;
  stc_input : gmap string jsval;
  stc_result : option ToolResult;
  stc_status : Status
}.

Record StoredMessage : Type := mkStoredMessage {
  sm_id : string;
  sm_role : Role;                       (* "user" | "assistant" *)
  sm_content : string;
  timestamp : Z;
  toolCalls : option (list StoredToolCall)
}.

(** What the controller does to the page, in the order it does it. An
    element is known by the number under which it was made. *)
Inductive Dom : Type :=
| AssistantMessage (wrapper contentEl : nat)  (* createStreamingAssistantMessage *)
| StreamingOver (wrapper : nat)               (* wrapper.removeClass("ca-streaming") *)
| TextBlock (contentEl el : nat)              (* createStreamingTextEl *)
| Markdown (el : nat) (markdown : string)     (* renderMarkdown *)
| ToolCallBlock (wrapper el : nat) (id name : string)   (* renderStreamingToolCall *)
| ToolCallFinal (el : nat) (id name : string) (input : gmap string jsval)
    (result : ToolResult)                     (* finalizeStreamingToolCall *)
| ErrorShown (wrapper : nat) (message : string)
| Scrolled.                                   (* scrollParent.scrollTop = scrollHeight *)

(** Which of the optional callbacks of [ChatStateCallbacks] are set, and
    the calls that are made to them. *)
Record Callbacks : Type := mkCallbacks {
  onStreamingChanged : bool;
  onMessageAdded : bool
}.

Inductive Told : Type :=
| StreamingChanged (streaming : bool)
| MessageAdded (message : StoredMessage).

(** A [ChatState] with the [StreamController] that drives it, and what
    lies outside them: the counter [nextId] of the module, the number of
    readings of the clock, the elements made, the page, and the calls of
    the callbacks. [currentAssistantEl] holds the wrapper and the
    element kept in its [__contentEl]. An array of tool calls belongs to
    its message and a message to the state: no caller in the repository
    shares one. *)
Record Controller : Type := mkController {
  messages : list StoredMessage;
  isStreaming : bool;
  currentAssistantEl : option (nat * nat);
  currentTextEl : option nat;
  toolCallElements : list (string * nat);
  autoScroll : bool;
  fullText : string;
  nextId : Z;
  readings : nat;
  elements : nat;
  page : list Dom;
  callbacks : Callbacks;
  told : list Told
}.

Definition set_messages (ms : list StoredMessage) (c : Controller) : Controller :=
  mkController ms (isStreaming c) (currentAssistantEl c) (currentTextEl c)
    (toolCallElements c) (autoScroll c) (fullText c) (nextId c) (readings c) (elements c)
    (page c) (callbacks c) (told c).

Definition set_currentAssistantEl (e : option (nat * nat)) (c : Controller) : Controller :=
  mkController (messages c) (isStreaming c) e (currentTextEl c)
    (toolCallElements c) (autoScroll c) (fullText c) (nextId c) (readings c) (elements c)
    (page c) (callbacks c) (told c).

Definition set_currentTextEl (e : option nat) (c : Controller) : Controller :=
  mkController (messages c) (isStreaming c) (currentAssistantEl c) e
    (toolCallElements c) (autoScroll c) (fullText c) (nextId c) (readings c) (elements c)
    (page c) (callbacks c) (told c).

Definition set_toolCallElements (m : list (string * nat)) (c : Controller) : Controller :=
  mkController (messages c) (isStreaming c) (currentAssistantEl c) (currentTextEl c)
    m (autoScroll c) (fullText c) (nextId c) (readings c) (elements c)
    (page c) (callbacks c) (told c).

Definition setAutoScroll (enabled : bool) (c : Controller) : Controller :=
  mkController (messages c) (isStreaming c) (currentAssistantEl c) (currentTextEl c)
    (toolCallElements c) enabled (fullText c) (nextId c) (readings c) (elements c)
    (page c) (callbacks c) (told c).

Definition set_fullText (s : string) (c : Controller) : Controller :=
  mkController (messages c) (isStreaming c) (currentAssistantEl c) (currentTextEl c)
    (toolCallElements c) (autoScroll c) s (nextId c) (readings c) (elements c)
    (page c) (callbacks c) (told c).

Definition draw (ds : list Dom) (c : Controller) : Controller :=
  mkController (messages c) (isStreaming c) (currentAssistantEl c) (currentTextEl c)
    (toolCallElements c) (autoScroll c) (fullText c) (nextId c) (readings c) (elements c)
    (List.app (page c) ds) (callbacks c) (told c).

(** A new element, under the next number. *)
Definition create (c : Controller) : nat * Controller :=
  (elements c,
   mkController (messages c) (isStreaming c) (currentAssistantEl c) (currentTextEl c)
     (toolCallElements c) (autoScroll c) (fullText c) (nextId c) (readings c)
     (S (elements c)) (page c) (callbacks c) (told c)).

Section ChatState.

Context (Date_now : nat -> Z).

(** [Date.now()] *)
Definition read_clock (c : Controller) : Z * Controller :=
  (Date_now (readings c),
   mkController (messages c) (isStreaming c) (currentAssistantEl c) (currentTextEl c)
     (toolCallElements c) (autoScroll c) (fullText c) (nextId c) (S (readings c))
     (elements c) (page c) (callbacks c) (told c)).

Definition genId (c : Controller) : string * Controller :=
  let '(t, c) := read_clock c in
  let n := nextId c + 1 in
  ("msg_" +:+ pretty t +:+ "_" +:+ pretty n,
   mkController (messages c) (isStreaming c) (currentAssistantEl c) (currentTextEl c)
     (toolCallElements c) (autoScroll c) (fullText c) n (readings c)
     (elements c) (page c) (callbacks c) (told c)).

Definition setStreaming (streaming : bool) (c : Controller) : Controller :=
  mkController (messages c) streaming (currentAssistantEl c) (currentTextEl c)
    (toolCallElements c) (autoScroll c) (fullText c) (nextId c) (readings c) (elements c)
    (page c) (callbacks c)
    (if onStreamingChanged (callbacks c)
     then List.app (told c) [StreamingChanged streaming] else told c).

Definition setCallbacks (cbs : Callbacks) (c : Controller) : Controller :=
  mkController (messages c) (isStreaming c) (currentAssistantEl c) (currentTextEl c)
    (toolCallElements c) (autoScroll c) (fullText c) (nextId c) (readings c) (elements c)
    (page c) cbs (told c).

(** [this.messages.push(msg); this._callbacks.onMessageAdded?.(msg)] *)
Definition push (msg : StoredMessage) (c : Controller) : Controller :=
  mkController (List.app (messages c) [msg]) (isStreaming c) (currentAssistantEl c)
    (currentTextEl c) (toolCallElements c) (autoScroll c) (fullText c) (nextId c)
    (readings c) (elements c) (page c) (callbacks c)
    (if onMessageAdded (callbacks c)
     then List.app (told c) [MessageAdded msg] else told c).

Definition addUserMessage (content : string) (c : Controller) : StoredMessage * Controller :=
  let '(id, c) := genId c in
  let '(t, c) := read_clock c in
  let msg := mkStoredMessage id user content t None in
  (msg, push msg c).

Definition addAssistantMessage (content : string) (tcs : option (list StoredToolCall))
  (c : Controller) : StoredMessage * Controller :=
  let '(id, c) := genId c in
  let '(t, c) := read_clock c in
  let msg := mkStoredMessage id assistant content t tcs in
  (msg, push msg c).

Definition is_assistant (m : StoredMessage) : bool :=
  match sm_role m with
  | assistant => true
  | _ => false
  end.

(** [const last = this.messages[this.messages.length - 1];
    if (last && last.role === "assistant") ...] *)
Definition update_last (f : StoredMessage -> StoredMessage) (ms : list StoredMessage)
  : list StoredMessage :=
  match List.rev ms with
  | last :: before =>
      if is_assistant last then List.rev (f last :: before) else ms
  | [] => ms
  end.

Definition updateLastAssistantContent (content : string) (c : Controller) : Controller :=
  set_messages
    (update_last (fun last => mkStoredMessage (sm_id last) (sm_role last) content
                                (timestamp last) (toolCalls last))
       (messages c)) c.

Definition addToolCallToLast (toolCall : StoredToolCall) (c : Controller) : Controller :=
  set_messages
    (update_last (fun last => mkStoredMessage (sm_id last) (sm_role last) (sm_content last)
                                (timestamp last)
                                (Some (List.app (default [] (toolCalls last)) [toolCall])))
       (messages c)) c.

(** [msg.toolCalls.find((t) => t.id === toolCallId)], and what is done to
    the tool call found. *)
Fixpoint update_found (toolCallId : string) (status : Status) (result : option ToolResult)
  (tcs : list StoredToolCall) : option (list StoredToolCall) :=
  match tcs with
  | [] => None
  | tc :: rest =>
      if String.eqb (stc_id tc) toolCallId
      then Some (mkStoredToolCall (stc_id tc) (stc_name tc) (stc_input tc)
                   (match result with Some r => Some r | None => stc_result tc end)
                   status :: rest)
      else match update_found toolCallId status result rest with
           | Some rest' => Some (tc :: rest')
           | None => None
           end
  end.

(** The [for] loop of [updateToolCallStatus], on the messages last one
    first. *)
Fixpoint update_latest (toolCallId : string) (status : Status) (result : option ToolResult)
  (rev_ms : list StoredMessage) : list StoredMessage :=
  match rev_ms with
  | [] => []
  | msg :: earlier =>
      match toolCalls msg with
      | None => msg :: update_latest toolCallId status result earlier
      | Some tcs =>
          match update_found toolCallId status result tcs with
          | Some tcs' =>
              mkStoredMessage (sm_id msg) (sm_role msg) (sm_content msg) (timestamp msg)
                (Some tcs') :: earlier
          | None => msg :: update_latest toolCallId status result earlier
          end
      end
  end.

Definition updateToolCallStatus (toolCallId : string) (status : Status)
  (result : option ToolResult) (c : Controller) : Controller :=
  set_messages (List.rev (update_latest toolCallId status result (List.rev (messages c)))) c.

Definition clear (c : Controller) : Controller :=
  mkController [] false None None [] (autoScroll c) (fullText c) (nextId c) (readings c)
    (elements c) (page c) (callbacks c) (told c).

(** *** StreamController *)

Definition scrollToBottom (c : Controller) : Controller := draw [Scrolled] c.

Definition scroll_if_auto (c : Controller) : Controller :=
  if autoScroll c then scrollToBottom c else c.

Definition beginResponse (c : Controller) : Controller :=
  let c := set_fullText "" c in
  let c := setStreaming true c in
  let c := setAutoScroll true c in
  let '(wrapper, c) := create c in
  let '(contentEl, c) := create c in
  let c := draw [AssistantMessage wrapper contentEl] c in
  let c := set_currentAssistantEl (Some (wrapper, contentEl)) c in
  let c := set_currentTextEl None c in
  scrollToBottom c.

Definition endResponse (c : Controller) : Controller :=
  let c := match currentAssistantEl c with
           | Some (wrapper, _) => draw [StreamingOver wrapper] c
           | None => c
           end in
  let c := setStreaming false c in
  let c := set_currentAssistantEl None c in
  let c := set_currentTextEl None c in
  set_toolCallElements [] c.

Definition handleTextDelta (text : string) (c : Controller) : Controller :=
  match currentAssistantEl c with
  | None => c
  | Some (wrapper, contentEl) =>
      (* Create text element on first text chunk *)
      let c := match currentTextEl c with
               | None =>
                   let '(el, c) := create c in
                   set_currentTextEl (Some el) (draw [TextBlock contentEl el] c)
               | Some _ => c
               end in
      let c := set_fullText (fullText c +:+ text) c in
      (* Render markdown incrementally (re-render full text) *)
      let c := match currentTextEl c with
               | Some el => draw [Markdown el (fullText c)] c
               | None => c
               end in
      scroll_if_auto c
  end.

Definition handleTextDone (_fullText : string) (c : Controller) : Controller :=
  (addAssistantMessage (fullText c) None c).2.

(** [Map.prototype.set] on string keys: a key that is present keeps its
    place. *)
Fixpoint map_set (m : list (string * nat)) (k : string) (v : nat) : list (string * nat) :=
  match m with
  | [] => [(k, v)]
  | (k', v') :: rest =>
      if String.eqb k' k then (k, v) :: rest else (k', v') :: map_set rest k v
  end.

Fixpoint map_get (m : list (string * nat)) (k : string) : option nat :=
  match m with
  | [] => None
  | (k', v) :: rest => if String.eqb k' k then Some v else map_get rest k
  end.

Definition handleToolCallStart (id name : string) (c : Controller) : Controller :=
  match currentAssistantEl c with
  | None => c
  | Some (wrapper, _) =>
      let c := set_currentTextEl None c in
      let '(el, c) := create c in
      let c := draw [ToolCallBlock wrapper el id name] c in
      let c := set_toolCallElements (map_set (toolCallElements c) id el) c in
      let c := addToolCallToLast (mkStoredToolCall id name ∅ None running) c in
      scroll_if_auto c
  end.

Definition handleToolCallInput (_id _partialArgs : string) (c : Controller) : Controller :=
  scroll_if_auto c.

Definition handleToolCallComplete (id name : string) (input : gmap string jsval)
  (result : ToolResult) (c : Controller) : Controller :=
  let c := match map_get (toolCallElements c) id with
           | Some el => draw [ToolCallFinal el id name input result] c
           | None => c
           end in
  let c := updateToolCallStatus id (if isError result then error_ else completed)
             (Some result) c in
  scroll_if_auto c.

Definition handleError (message : string) (c : Controller) : Controller :=
  let c := match currentAssistantEl c with
           | Some (wrapper, _) => draw [ErrorShown wrapper ("Error: " +:+ message)] c
           | None => c
           end in
  endResponse c.

Definition handleDone (c : Controller) : Controller :=
  endResponse (set_fullText "" c).

(** The callbacks of [createCallbacks], by the call that is made. *)
Definition handle (c : Controller) (e : Plugin.Event) : Controller :=
  match e with
  | Plugin.TextDelta text => handleTextDelta text c
  | Plugin.TextDone fullText => handleTextDone fullText c
  | Plugin.ToolCallStart id name => handleToolCallStart id name c
  | Plugin.ToolCallInput id partialArgs => handleToolCallInput id partialArgs c
  | Plugin.ToolCallComplete id name input result =>
      handleToolCallComplete id name input result c
  | Plugin.Error_ message => handleError message c
  | Plugin.Done => handleDone c
  end.

End ChatState.

End Chat.


(** ** copilot-plugin/src/features/chat/rendering/ToolCallRenderer.ts *)

Module ToolCallRenderer.

(** The horizontal ellipsis U+2026 is one code unit; the character 133
    stands for it. *)
Definition ellipsis : string := String "133" EmptyString.

(** [s.slice(0, end)] on a string: a negative [end] counts from the end of
    the string. *)
Definition slice_to (s : string) (end_ : Z) : string :=
  let len := Z.of_nat (String.length s) in
  let fin := if end_ <? 0 then Z.max (len + end_) 0 else Z.min end_ len in
  JSLib.take (Z.to_nat fin) s.

Definition truncate (s : string) (max : Z) : string :=
  if max <? Z.of_nat (String.length s) then slice_to s (max - 1) +:+ ellipsis else s.

(** [String(v ?? d)] *)
Definition text_or (v : jsval) (d : string) : string :=
  Js.String_ (Js.nullish_or v (JStr d)).

Definition getSummary (name : string) (input : gmap string jsval) : string :=
  if String.eqb name (READ TOOL_NAMES) || String.eqb name (WRITE TOOL_NAMES)
     || String.eqb name (EDIT TOOL_NAMES)
  then truncate (text_or (Js.get input "file_path") "") 60
  else if String.eqb name (BASH TOOL_NAMES)
  then truncate (text_or (Js.get input "command") "") 60
  else if String.eqb name (GREP TOOL_NAMES)
  then truncate (text_or (Js.get input "pattern") "") 40
  else if String.eqb name (GLOB TOOL_NAMES)
  then truncate (text_or (Js.get input "pattern") "") 40
  else if String.eqb name (LS TOOL_NAMES)
  then truncate (text_or (Js.get input "path") ".") 40
  else "".

End ToolCallRenderer.

(** * Scenarios

    A host whose shell prints nothing, a vault with one note, and the
    remote sides that the scenarios below talk to. No string that the
    scenarios hand to [Number] is a numeral, so the hosts answer [NaN]. *)

Definition quiet_host : Host :=
  {| cwd := "/";
     exec := fun _ _ fs => (Ok (mkExecOutcome None "" ""), fs);
     RegExp_replace_all := fun _ s _ => Ok s;
     path_relative := fun _ f => f;
     localeCompare := JSLib.code_unit_compare;
     Number_of_string := fun _ => Number.NaN |}.

(** A host with a vault that is named [c++], for which [RegExp] throws
    (two quantifiers in a row: nothing to repeat), and a shell whose
    search finds one line. *)
Definition fussy_host : Host :=
  {| cwd := "/";
     exec := fun _ _ fs => (Ok (mkExecOutcome None "/notes/c++/a.md:1:todo" ""), fs);
     RegExp_replace_all := fun src s _ =>
       if JS.includes src "++"
       then Throw ("Invalid regular expression: /" +:+ src +:+ "/: Nothing to repeat")
       else Ok s;
     path_relative := fun _ f => f;
     localeCompare := JSLib.code_unit_compare;
     Number_of_string := fun _ => Number.NaN |}.

Definition notes_fs : FS :=
  mkFS {[ "/notes/c++/a.md" := "todo" ]} {[ "/"; "/notes"; "/notes/c++" ]} ∅.

Definition vault_fs : FS :=
  mkFS {[ "/vault/a.md" := "hello" ]} {[ "/"; "/vault" ]} ∅.

(** A vault with a note of four lines, and the number 1.5. *)
Definition journal_fs : FS :=
  mkFS {[ "/vault/notes.md" := "one" +:+ JSLib.nl +:+ "two" +:+ JSLib.nl +:+ "three"
                                 +:+ JSLib.nl +:+ "four" ]}
    {[ "/"; "/vault" ]} ∅.

Definition three_halves : number := Float (S754_finite false 3 (-1)).

(** Follows the spec's words: a resolved path stays within the root when it
    is the root or lies below it. *)
Definition stays_within (root resolved : string) : bool :=
  String.eqb resolved root || String.prefix (root +:+ "/") resolved.

(** Follows the spec's words: the number of places at which [old] occurs
    in [content]. *)
Fixpoint occurrence_count (content old : string) {struct content} : nat :=
  ((if String.prefix old content then 1 else 0)
   + match content with
     | EmptyString => 0
     | String _ rest => occurrence_count rest old
     end)%nat.

(** Follows the spec's words: [content] with the first occurrence of [old]
    replaced by [new], and no other change. *)
Definition replaced_once (content old new : string) : string :=
  match JS.first_match old content with
  | Some (before, after) => before +:+ new +:+ after
  | None => content
  end.

Definition known_tool (names : ToolNames) (toolName : string) : bool :=
  List.existsb (String.eqb toolName)
    [READ names; WRITE names; EDIT names; BASH names; GREP names; GLOB names; LS names].

Definition escape_args : gmap string jsval :=
  {[ "file_path" := JStr "../vault-backup/x.md"; "content" := JStr "pwned" ]}.

Definition dollar_args : gmap string jsval :=
  {[ "file_path" := JStr "a.md";
     "old_string" := JStr "hello";
     "new_string" := JStr "cost: $$5" ]}.

Definition overlap_fs : FS :=
  mkFS {[ "/vault/a.md" := "aaa" ]} {[ "/"; "/vault" ]} ∅.

Definition overlap_args : gmap string jsval :=
  {[ "file_path" := JStr "a.md"; "old_string" := JStr "aa"; "new_string" := JStr "b" ]}.

Definition short_fs : FS :=
  mkFS {[ "/vault/a.md" := "ab" ]} {[ "/"; "/vault" ]} ∅.

Definition no_old_string_args : gmap string jsval :=
  {[ "file_path" := JStr "a.md"; "new_string" := JStr "X" ]}.

(** Chunks that carry tool-call fragments only, and chunks of text. *)
Definition chunk_of (fragments : list ToolCallDelta) : StreamChunk :=
  mkStreamChunk [mkStreamChoice (mkStreamDelta None (Some fragments))].

Definition text_chunk (text : string) : StreamChunk :=
  mkStreamChunk [mkStreamChoice (mkStreamDelta (Some text) None)].

(** A remote side that answers the first request of a conversation (the
    system prompt and the user message) with [first] and every later one
    with the text [ok]. The clock stands still, the token is good for long
    and nobody cancels. *)
Definition scripted_remote {Step : Type} (line : SseLine -> Step) (first : list Step)
  : Remote Step :=
  {| Date_now := fun _ => 1700000000000;
     fetchCopilotToken := fun _ _ => Ok (mkCopilotToken "t0" 1800000000);
     requestUrl := fun _ messages _ =>
       if (List.length messages <=? 2)%nat then Ok first
       else Ok [line (Data (text_chunk "ok"))];
     sendChat := fun _ _ _ => Throw "offline";
     JSON_parse := fun _ => Some ∅;
     cancel_at := fun _ => false;
     updatePat_at := fun _ => None |}.

Definition plugin_0 : Plugin.AgentLoop := Plugin.constructor vault_fs "pat" "gpt-4o".

Definition service_0 : Service.CopilotService := Service.constructor vault_fs "pat" "gpt-4o".

Definition opening : list ChatMessage :=
  [mkChatMessage system (Some Service.SYSTEM_PROMPT) None None;
   mkChatMessage user (Some "hi") None None].

(** The model reveals the call at position 1 before the call at position 0. *)
Definition out_of_order : list StreamChunk :=
  [chunk_of [mkToolCallDelta 1 (Some "call_b") (Some "grep") (Some "{}")];
   chunk_of [mkToolCallDelta 0 (Some "call_a") (Some "glob") (Some "{}")]].

(** The id of a call comes one fragment after its name. *)
Definition late_id : list StreamChunk :=
  [chunk_of [mkToolCallDelta 0 None (Some "bash") None];
   chunk_of [mkToolCallDelta 0 (Some "call_1") None (Some "{}")]].

(** Two calls whose ids never come. *)
Definition no_ids : list StreamChunk :=
  [chunk_of [mkToolCallDelta 0 None (Some "glob") (Some "{}")];
   chunk_of [mkToolCallDelta 1 None (Some "grep") (Some "{}")]].

Definition plugin_wire (chunks : list StreamChunk) : list Plugin.WireStep :=
  List.map (fun c => Plugin.WLine (Data c)) chunks.

Definition service_wire (chunks : list StreamChunk) : list Service.WireStep :=
  List.map (fun c => Service.SLine (Data c)) chunks.

(** The user cancels after the first piece of text has arrived. *)
Definition cancelled_mid_stream : Remote Plugin.WireStep :=
  scripted_remote Plugin.WLine
    [Plugin.WLine (Data (text_chunk "Hel")); Plugin.WCancel;
     Plugin.WLine (Data (text_chunk "lo"))].

(** The user cancels while the request of the first round is under way:
    the token is fetched at tick 0 and the request waits at tick 1. *)
Definition cancelled_during_request : Remote Plugin.WireStep :=
  {| Date_now := fun _ => 1700000000000;
     fetchCopilotToken := fun _ _ => Ok (mkCopilotToken "t0" 1800000000);
     requestUrl := fun _ _ _ => Ok [Plugin.WLine (Data (text_chunk "Hello"))];
     sendChat := fun _ _ _ => Throw "offline";
     JSON_parse := fun _ => Some ∅;
     cancel_at := fun n => (n =? 1)%nat;
     updatePat_at := fun _ => None |}.

(** A model that asks for the listing of the vault in every round. *)
Definition list_vault : StreamChunk :=
  chunk_of [mkToolCallDelta 0 (Some "call_0") (Some "list_directory") (Some "{}")].

Definition always_asking {Step : Type} (line : SseLine -> Step) : Remote Step :=
  {| Date_now := fun _ => 1700000000000;
     fetchCopilotToken := fun _ _ => Ok (mkCopilotToken "t0" 1800000000);
     requestUrl := fun _ _ _ => Ok [line (Data list_vault)];
     sendChat := fun _ _ _ => Throw "offline";
     JSON_parse := fun _ => Some ∅;
     cancel_at := fun _ => false;
     updatePat_at := fun _ => None |}.

(** A token that is fresh when it is fetched and stale at every later
    reading of the clock: the first token expires at second 1800, and from
    the first tick on the clock reads second 10000000. The model asks for
    one tool call and then answers. *)
Definition short_lived {Step : Type} (line : SseLine -> Step) : Remote Step :=
  {| Date_now := fun n => match n with O => 0 | S _ => 10000000000 end;
     fetchCopilotToken := fun n _ =>
       match n with
       | O => Ok (mkCopilotToken "t0" 1800)
       | S _ => Ok (mkCopilotToken "t1" 1800000000)
       end;
     requestUrl := fun _ messages _ =>
       if (List.length messages <=? 2)%nat then Ok [line (Data list_vault)]
       else Ok [line (Data (text_chunk "ok"))];
     sendChat := fun _ _ _ => Throw "offline";
     JSON_parse := fun _ => Some ∅;
     cancel_at := fun _ => false;
     updatePat_at := fun _ => None |}.

(** The same, and the user puts in another secret while the tool of the
    first round runs. *)
Definition reauthenticating : Remote Service.WireStep :=
  {| Date_now := Date_now (short_lived Service.SLine);
     fetchCopilotToken := fetchCopilotToken (short_lived Service.SLine);
     requestUrl := requestUrl (short_lived Service.SLine);
     sendChat := sendChat (short_lived Service.SLine);
     JSON_parse := JSON_parse (short_lived Service.SLine);
     cancel_at := fun _ => false;
     updatePat_at := fun n => if (n =? 2)%nat then Some "pat2" else None |}.

Definition is_request (c : Call) : bool :=
  match c with
  | ChatRequest _ => true
  | _ => false
  end.

(** The rounds of a send: the requests it has placed. *)
Definition rounds_of (calls : list Call) : nat :=
  List.length (List.filter is_request calls).


Definition told_in_slices : list StreamChunk :=
  [chunk_of [mkToolCallDelta 0 (Some "call_0") (Some "edit_file") (Some "{a:")];
   chunk_of [mkToolCallDelta 0 None None (Some "1,b");
             mkToolCallDelta 1 (Some "call_1") (Some "bash") None];
   chunk_of [mkToolCallDelta 1 None None (Some "{c:3}");
             mkToolCallDelta 0 None None (Some ":2}")]].

(** A host whose shell prints 12000 characters, whatever the command. *)
Definition long_output : string := String.concat "" (List.repeat "0123456789" 1200).

Definition chatty_host : Host :=
  {| cwd := "/";
     exec := fun _ _ fs => (Ok (mkExecOutcome None long_output ""), fs);
     RegExp_replace_all := fun _ s _ => Ok s;
     path_relative := fun _ f => f;
     localeCompare := JSLib.code_unit_compare;
     Number_of_string := fun _ => Number.NaN |}.

(** A vault with two notes, a folder and a socket. *)
Definition listing_fs : FS :=
  mkFS {[ "/vault/b.md" := "b"; "/vault/a.md" := "a"; "/vault/notes/c.md" := "c" ]}
    {[ "/"; "/vault"; "/vault/notes" ]} {[ "/vault/.obsidian.sock" ]}.

(** A token endpoint whose user has not yet authorized: every request is
    answered with [authorization_pending]. Timers and requests take no
    time of their own. *)
Definition patient_endpoint : Auth.Endpoint :=
  {| Auth.sleep_lag := fun _ => 0;
     Auth.post_latency := fun _ => 0;
     Auth.post_reply := fun _ => Ok {[ "error" := JStr "authorization_pending" ]} |}.

(** The chat view as it is made: no message, nothing on the page. *)
Definition chat_0 : Chat.Controller :=
  Chat.mkController [] false None None [] true "" 0 0 0 [] (Chat.mkCallbacks false false) [].

(** * Vocabulary of the properties *)

(** The path argument of a tool of the plug-in. *)
Definition plugin_path_argument (toolName : string) (args : gmap string jsval) : string :=
  if List.existsb (String.eqb toolName) ["read_file"; "write_file"; "edit_file"]
  then Js.String_ (Js.get args "file_path")
  else Plugin.path_or_dot args.

(** The text of the vault path, with a slash after it, is a regular
    expression. *)
Definition vault_compiles (host : Host) (vaultPath : string) : Prop :=
  forall s rep, exists s', RegExp_replace_all host (vaultPath +:+ "/") s rep = Ok s'.

(** A computation that never leaves its promise unsettled. *)
Definition settles (c : M (option ToolResult)) : Prop :=
  forall fs, (exists r fs', c fs = (Ok (Some r), fs')) \/ (exists m fs', c fs = (Throw m, fs')).

Fixpoint has_dollar (s : string) : bool :=
  match s with
  | EmptyString => false
  | String c rest => Ascii.eqb c "$" || has_dollar rest
  end.

Definition system_message : ChatMessage :=
  mkChatMessage system (Some Plugin.SYSTEM_PROMPT) None None.

(** The operations that the owner of an [AgentLoop] can invoke; each send
    meets a remote side of its own. *)
Inductive Operation : Type :=
| DoSend (remote : Remote Plugin.WireStep) (userMessage : string)
| DoCancel
| DoSetModel (model : string)
| DoClearHistory.

Definition run (host : Host) (vaultPath : string) (st : Plugin.AgentLoop) (op : Operation)
  : Plugin.AgentLoop :=
  match op with
  | DoSend remote userMessage => Plugin.send host remote vaultPath userMessage st
  | DoCancel => Plugin.cancel st
  | DoSetModel model => Plugin.setModel model st
  | DoClearHistory => Plugin.clearHistory st
  end.

Definition run_all (host : Host) (vaultPath : string) (ops : list Operation)
  (st : Plugin.AgentLoop) : Plugin.AgentLoop :=
  List.fold_left (run host vaultPath) ops st.

Definition starts_with_system_prompt (st : Plugin.AgentLoop) : Prop :=
  exists rest, Plugin.messages st = system_message :: rest.

(** [st'] has the messages of [st] and maybe more after them. *)
Definition appends (st st' : Plugin.AgentLoop) : Prop :=
  exists suffix, Plugin.messages st' = List.app (Plugin.messages st) suffix.

(** Reduces the projections of a state through the setters, and leaves
    [await] and [cancel] folded. *)
Ltac fields :=
  cbn [fst snd Plugin.messages Plugin.abortController Plugin.tick Plugin.events
       Plugin.calls Plugin.fs Plugin.this_token Plugin.pat Plugin.model
       Plugin.emit Plugin.place Plugin.set_token Plugin.set_fs Plugin.set_tick
       Plugin.set_abortController Plugin.push Plugin.set_messages Plugin.aborted].

(** The fragments of a round as the plug-in reads them, chunk by chunk and
    choice by choice, and as the service reads them, from the first choice
    of each chunk. *)
Definition plugin_fragments (chunks : list StreamChunk) : list ToolCallDelta :=
  List.flat_map
    (fun c => List.flat_map (fun ch => default [] (delta_tool_calls (delta ch))) (choices c))
    chunks.

Definition service_fragments (chunks : list StreamChunk) : list ToolCallDelta :=
  List.flat_map
    (fun c => match choices c with
              | [] => []
              | ch :: _ => default [] (delta_tool_calls (delta ch))
              end)
    chunks.

(** What [processRound] has gathered after the chunks of a round. *)
Definition plugin_accumulate (chunks : list StreamChunk) (acc : Plugin.RoundAcc)
  : Plugin.RoundAcc :=
  List.fold_left (fun acc c => (Plugin.on_choices (choices c) acc).1) chunks acc.

(** What [streamOneRound] has gathered after the chunks of a round: the
    text, the map, and the count of dealings with the outside. *)
Definition service_accumulate (remote : Remote Service.WireStep) (chunks : list StreamChunk)
  (s : string * (JsMap.t ToolCall * nat)) : string * (JsMap.t ToolCall * nat) :=
  List.fold_left (fun s c => (Service.on_chunk remote c s.1 s.2).1) chunks s.

(** The list that [streamOneRound] returns for a map. *)
Definition by_index {V : Type} (m : JsMap.t V) : list (Z * V) :=
  JSLib.sort_by (fun a b => a.1 - b.1) (JsMap.entries m).

(** The name and the arguments of each descriptor, with its position. *)
Definition descriptors (m : list (Z * ToolCall)) : list (Z * (string * string)) :=
  List.map (fun e => (e.1, (fn_name e.2, fn_arguments e.2))) m.

(** Follows the spec's words: what the fragments of a round say, whatever
    the chunks they came in. The positions are taken in the order in which
    they first appear; a position has the name that was revealed last for
    it, and for arguments all its slices, one after the other. *)
Definition positions (fragments : list ToolCallDelta) : list Z :=
  List.fold_left
    (fun seen f => if List.existsb (Z.eqb (index f)) seen then seen
                   else List.app seen [index f])
    fragments [].

Definition at_position (i : Z) (fragments : list ToolCallDelta) : list ToolCallDelta :=
  List.filter (fun f => index f =? i) fragments.

Definition revealed_names (fragments : list ToolCallDelta) : list string :=
  List.flat_map (fun f => match truthy_string (delta_name f) with
                          | Some n => [n]
                          | None => []
                          end) fragments.

Definition slices (fragments : list ToolCallDelta) : list string :=
  List.map (fun f => default "" (delta_arguments f)) fragments.

Definition concat_all (l : list string) : string :=
  List.fold_right String.append "" l.

Definition said_at (i : Z) (fragments : list ToolCallDelta) : string * string :=
  (List.last (revealed_names (at_position i fragments)) "",
   concat_all (slices (at_position i fragments))).

Definition reassembled (fragments : list ToolCallDelta) : list (Z * (string * string)) :=
  List.map (fun i => (i, said_at i fragments)) (positions fragments).

(** How a fragment changes what is known of its position. *)
Definition merge (tc : ToolCallDelta) (d : string * string) : string * string :=
  (default d.1 (truthy_string (delta_name tc)),
   d.2 +:+ default "" (truthy_string (delta_arguments tc))).

(** [m.set(k, f(m.has(k) ? m.get(k) : d))] *)
Definition upsert {V : Type} (m : JsMap.t V) (k : Z) (f : V -> V) (d : V) : JsMap.t V :=
  match JsMap.get m k with
  | Some v => JsMap.set m k (f v)
  | None => JsMap.set m k (f d)
  end.

Definition note (m : JsMap.t (string * string)) (tc : ToolCallDelta)
  : JsMap.t (string * string) :=
  upsert m (index tc) (merge tc) ("", "").

(** The chunks that [streamChat] of the plug-in yields for a response: the
    data lines up to the sentinel. *)
Fixpoint plugin_chunks (wire : list Plugin.WireStep) : list StreamChunk :=
  match wire with
  | [] => []
  | Plugin.WCancel :: rest => plugin_chunks rest
  | Plugin.WLine (Data c) :: rest => c :: plugin_chunks rest
  | Plugin.WLine DoneSentinel :: _ => []
  | Plugin.WLine _ :: rest => plugin_chunks rest
  end.

Definition plugin_uncancelled (wire : list Plugin.WireStep) : bool :=
  List.forallb (fun s => match s with Plugin.WCancel => false | _ => true end) wire.

Definition nonempty_list {A : Type} (l : list A) : bool :=
  match l with
  | [] => false
  | _ :: _ => true
  end.

(** A response in which the model asks for at least one tool call, and
    during which nobody cancels. *)
Definition plugin_asks_for_tool (wire : list Plugin.WireStep) : bool :=
  plugin_uncancelled wire && nonempty_list (plugin_fragments (plugin_chunks wire)).

(** The chunks that [streamChat] of the service yields for a response. *)
Fixpoint service_chunks (wire : list Service.WireStep) : list StreamChunk :=
  match wire with
  | [] => []
  | Service.SLine (Data c) :: rest => c :: service_chunks rest
  | _ :: rest => service_chunks rest
  end.

Definition service_undisturbed (wire : list Service.WireStep) : bool :=
  List.forallb (fun s => match s with Service.SLine _ => true | _ => false end) wire.

Definition service_asks_for_tool (wire : list Service.WireStep) : bool :=
  service_undisturbed wire && nonempty_list (service_fragments (service_chunks wire)).

(** A remote side on which nobody cancels, the token endpoint answers, and
    the model asks for a tool in every round. *)
Definition always_asks {Step : Type} (asks : list Step -> bool) (remote : Remote Step)
  : Prop :=
  (forall n, cancel_at remote n = false)
  /\ (forall n p, exists t, fetchCopilotToken remote n p = Ok t)
  /\ (forall tok messages model,
         exists wire, requestUrl remote tok messages model = Ok wire /\ asks wire = true).

(** The same of the service, where in addition nobody puts in another
    secret while the query waits. *)
Definition service_always_asks (remote : Remote Service.WireStep) : Prop :=
  always_asks service_asks_for_tool remote
  /\ (forall n, updatePat_at remote n = None).

(** The callbacks and chunks that end a send. *)
Definition plugin_final (e : Plugin.Event) : bool :=
  match e with
  | Plugin.Done | Plugin.Error_ _ => true
  | _ => false
  end.

Definition service_final (c : Service.UiChunk) : bool :=
  match c with
  | Service.UiDone | Service.UiError _ => true
  | _ => false
  end.

Definition none_of {A : Type} (p : A -> bool) (l : list A) : bool :=
  List.forallb (fun x => negb (p x)) l.

(** [st'] is [st] after callbacks that end nothing, with the signal still
    not aborted. *)
Definition plugin_goes_on (st st' : Plugin.AgentLoop) : Prop :=
  Plugin.aborted st' = false
  /\ exists evs, Plugin.events st' = List.app (Plugin.events st) evs
                 /\ none_of plugin_final evs = true.

Ltac service_fields :=
  cbn [fst snd Service.pat Service.copilotToken Service.selectedModel
       Service.abortController Service.customSystemPrompt Service.fs Service.tick
       Service.events Service.calls Service.set_copilotToken Service.set_abortController
       Service.set_fs Service.set_tick Service.yield Service.place Service.aborted].

(** [st'] is [st] after chunks that end nothing. *)
Definition service_goes_on (st st' : Service.CopilotService) : Prop :=
  exists out, Service.events st' = List.app (Service.events st) out
              /\ none_of service_final out = true.

(** A chat request, streamed or not, placed with the token [tok]. *)
Definition is_chat_with (tok : string) (c : Call) : bool :=
  match c with
  | ChatRequest t | ChatFallback t => String.eqb t tok
  | _ => false
  end.

(** From [st] to [st'] the plug-in has dealt with the remote side only in
    chat requests that carry [tok]: it has neither looked at the expiry of
    its token nor fetched another. *)
Definition places_chats_with (tok : string) (st st' : Plugin.AgentLoop) : Prop :=
  exists cs, Plugin.calls st' = List.app (Plugin.calls st) cs
             /\ List.forallb (is_chat_with tok) cs = true.

(** Follows the spec's words: the expiry of the credential is looked at,
    or a credential is fetched, before every chat request. [fresh] tells
    whether that has been done since the last request. *)
Definition is_check (c : Call) : bool :=
  match c with
  | ExpiryCheck _ | TokenFetch => true
  | ChatRequest _ | ChatFallback _ => false
  end.

Fixpoint rechecked (fresh : bool) (cs : list Call) : bool :=
  match cs with
  | [] => true
  | ChatRequest _ :: rest => fresh && rechecked false rest
  | c :: rest => rechecked (is_check c) rest
  end.

(** Whether the credential has been looked at since the last request,
    after the calls [cs]. *)
Definition fresh_after (fresh : bool) (cs : list Call) : bool :=
  List.fold_left (fun _ c => is_check c) cs fresh.

(** Nobody puts in another secret while a query of the service runs:
    [updatePat] is called neither while the query waits nor while it
    reads a response. *)
Definition no_updatePat (wire : list Service.WireStep) : bool :=
  List.forallb (fun s => match s with Service.SUpdatePat _ => false | _ => true end) wire.

Definition pat_stays (remote : Remote Service.WireStep) : Prop :=
  (forall n, updatePat_at remote n = None)
  /\ (forall tok messages model wire,
         requestUrl remote tok messages model = Ok wire -> no_updatePat wire = true).

(** [st'] is [st] with the same calls and the same credential. *)
Definition service_quiet (st st' : Service.CopilotService) : Prop :=
  Service.calls st' = Service.calls st
  /\ Service.copilotToken st' = Service.copilotToken st.

(** ** The tools *)

(** The lines of the window of a read, [count] of them from the
    [first]-th on, each with its number in the file. *)
Definition numbered_window (lines : list string) (first count : nat) : list string :=
  List.map (fun i => pretty (Z.of_nat i + 1) +:+ JSLib.tab +:+ List.nth i lines "")
    (List.seq first count).

Definition capped (r : ToolResult) : Prop :=
  Z.of_nat (String.length (content r)) <= 10000.

Definition code_unit_le (a b : string) : Prop := JSLib.code_unit_compare a b <= 0.



(** ** The rounds *)

Definition name_and_arguments (tc : ToolCall) : string * string :=
  (fn_name tc, fn_arguments tc).

(** The query has not been cancelled. *)
Definition never_aborted (st : Service.CopilotService) : Prop :=
  Service.abortController st <> Some true.

Definition service_carries_on (st st' : Service.CopilotService) : Prop :=
  never_aborted st' /\ service_goes_on st st'.

(** From [st] to [st'] the service has yielded chunks that are not final
    and then one that is. *)
Definition ends_with_one_final (st st' : Service.CopilotService) : Prop :=
  exists out final,
    Service.events st' = List.app (Service.events st) (List.app out [final])
    /\ none_of service_final out = true
    /\ service_final final = true.

(** ** The protocol of tool calls

    The chat API wants the tool calls of an assistant message answered by
    the tool messages right after it, one for each call, in order, each
    with the id of its call. [pending_after pending ms] reads [ms] with the
    calls [pending] still to be answered: [None] when [ms] breaks the
    protocol, otherwise the calls that are still to be answered at its
    end. *)
Definition answers (tc : ToolCall) (m : ChatMessage) : bool :=
  match role m, tool_call_id m with
  | tool, Some i => String.eqb i (tc_id tc)
  | _, _ => false
  end.

Fixpoint pending_after (pending : list ToolCall) (ms : list ChatMessage)
  : option (list ToolCall) :=
  match ms with
  | [] => Some pending
  | m :: rest =>
      match pending with
      | tc :: pending' => if answers tc m then pending_after pending' rest else None
      | [] =>
          match role m with
          | tool => None
          | _ => pending_after (default [] (tool_calls m)) rest
          end
      end
  end.

(** [tail] keeps the protocol, and the calls that are not answered, if
    any, are those of its last message. *)
Definition at_most_last_unanswered (tail : list ChatMessage) : Prop :=
  exists p, pending_after [] tail = Some p
            /\ (p = [] \/ exists front m, tail = List.app front [m] /\ tool_calls m = Some p).

(** ** The lines of a stream *)

(** The lines of [text] that end in a line feed, and what comes after the
    last line feed. *)
Definition complete_lines (text : string) : list string :=
  List.removelast (JS.split_on "010" text).

Definition unfinished_line (text : string) : string :=
  List.last (JS.split_on "010" text) "".

(** ** The device code flow *)

(** No timer fires early and no request is answered before it is sent. *)
Definition punctual (endpoint : Auth.Endpoint) : Prop :=
  (forall n, 0 <= Auth.sleep_lag endpoint n) /\ (forall n, 0 <= Auth.post_latency endpoint n).

(** The polls from [w] to [w'] kept the pace: there were [n] of them,
    they took at least [pace] milliseconds each, and all of them but the
    last fit before the deadline, which bounds their number. *)
Definition paced (pace deadline : Z) (w w' : Auth.Polling) : Prop :=
  exists n : nat,
    Auth.polls w' = (Auth.polls w + n)%nat
    /\ Auth.now w + Z.of_nat n * pace <= Auth.now w'
    /\ (n = O \/ Auth.now w + (Z.of_nat n - 1) * pace < deadline).

(** The token endpoint asks for more time between the polls. *)
Definition backs_off (reply : outcome (gmap string jsval)) : bool :=
  match reply with
  | Ok data =>
      negb (Js.truthy (Js.get data "access_token"))
      && Auth.is_string (Js.get data "error") "slow_down"
  | Throw _ => false
  end.

(** How often it has asked so among [count] replies from the [from]-th on. *)
Fixpoint slow_downs (endpoint : Auth.Endpoint) (from count : nat) : Z :=
  match count with
  | O => 0
  | S count' =>
      (if backs_off (Auth.post_reply endpoint from) then 1 else 0)
      + slow_downs endpoint (S from) count'
  end.

(** ** The chat view *)

(** The callbacks of a send, one after the other. *)
Definition drive (Date_now : nat -> Z) (evs : list Plugin.Event) (c : Chat.Controller)
  : Chat.Controller :=
  List.fold_left (Chat.handle Date_now) evs c.

Definition contents (c : Chat.Controller) : list string :=
  List.map Chat.sm_content (Chat.messages c).

(** The text of the deltas among [evs], one after the other. *)
Definition said (evs : list Plugin.Event) : string :=
  concat_all (List.flat_map (fun e => match e with
                                      | Plugin.TextDelta text => [text]
                                      | _ => []
                                      end) evs).

(** For every [onTextDone] among [evs], the text of the deltas before it,
    [before] included. *)
Fixpoint persisted (before evs : list Plugin.Event) : list string :=
  match evs with
  | [] => []
  | e :: rest =>
      List.app (match e with
                | Plugin.TextDone _ => [said before]
                | _ => []
                end)
        (persisted (List.app before [e]) rest)
  end.

Definition is_text_done (e : Plugin.Event) : bool :=
  match e with
  | Plugin.TextDone _ => true
  | _ => false
  end.

Ltac chat_fields :=
  cbn [fst snd Chat.messages Chat.isStreaming Chat.currentAssistantEl Chat.currentTextEl
       Chat.toolCallElements Chat.autoScroll Chat.fullText Chat.nextId Chat.readings
       Chat.elements Chat.page Chat.callbacks Chat.told
       Chat.set_messages Chat.set_currentAssistantEl Chat.set_currentTextEl
       Chat.set_toolCallElements Chat.setAutoScroll Chat.set_fullText Chat.draw Chat.create
       Chat.read_clock Chat.genId Chat.setStreaming Chat.push Chat.scrollToBottom].

(** A response is on the page: the wrapper of the assistant message is
    there. *)
Definition shown (c : Chat.Controller) : bool :=
  match Chat.currentAssistantEl c with
  | Some _ => true
  | None => false
  end.

Definition names_call (id : string) (tc : Chat.StoredToolCall) : bool :=
  String.eqb (Chat.stc_id tc) id.

Definition has_call (id : string) (m : Chat.StoredMessage) : bool :=
  List.existsb (names_call id) (default [] (Chat.toolCalls m)).

(** * Properties *)

(** ** The library functions, on examples *)

Example split_length_overlap : JS.split_length "aaa" "aa" = 2%nat.
Proof. reflexivity. Qed.

Example split_length_empty : JS.split_length "" "" = 0%nat.
Proof. reflexivity. Qed.

Example replace_dollar : JS.replace "a b c" "b" "$$[$&]" = "a $[b] c".
Proof. reflexivity. Qed.

Example resolve_inside : JS.path_resolve "/" ["/vault"; "notes/../a.md"] = "/vault/a.md".
Proof. reflexivity. Qed.

Example resolve_sibling : JS.path_resolve "/" ["/vault"; "../vault-old/a.md"] = "/vault-old/a.md".
Proof. reflexivity. Qed.

Example resolve_absolute : JS.path_resolve "/" ["/vault"; "/etc/passwd"] = "/etc/passwd".
Proof. reflexivity. Qed.

Example slice_negative_end : JSLib.slice [1; 2; 3; 4] 1 (-1) = [2; 3].
Proof. reflexivity. Qed.

Example slice_at_fractions :
  JSLib.slice [1; 2; 3; 4] three_halves (Number.add three_halves 2) = [2; 3]
  /\ JSLib.slice [1; 2; 3; 4] Number.NaN (Float (S754_infinity false)) = [1; 2; 3; 4].
Proof. split; reflexivity. Qed.

(** Numbers as [String] prints them: the shortest digits that read back
    as the same double, and an exponent from 10^21 on and below 10^-6. *)
Example number_toString :
  Number.toString 42 = "42"
  /\ Number.toString (-7) = "-7"
  /\ Number.toString (10 ^ 21) = "1e+21"
  /\ Number.toString (10 ^ 21 - 1) = "1e+21"
  /\ Number.toString (2 ^ 53 + 1) = "9007199254740992"
  /\ Number.toString (Number.add (2 ^ 53) 1) = "9007199254740992"
  /\ Number.toString three_halves = "1.5"
  /\ Number.toString (Number.sub three_halves 2) = "-0.5"
  /\ Number.toString (Float (SFdiv Number.prec Number.emax (Number.of_Z 1) (Number.of_Z 10)))
     = "0.1"
  /\ Number.toString
       (Number.add
          (Float (SFdiv Number.prec Number.emax (Number.of_Z 1) (Number.of_Z 10)))
          (Float (SFdiv Number.prec Number.emax (Number.of_Z 2) (Number.of_Z 10))))
     = "0.30000000000000004"
  /\ Number.toString
       (Float (SFdiv Number.prec Number.emax (Number.of_Z 1) (Number.of_Z (10 ^ 7))))
     = "1e-7"
  /\ Number.toString (Float (S754_finite false 1 (-1074))) = "5e-324"
  /\ Number.toString (Float (SFmax_float Number.prec Number.emax))
     = "1.7976931348623157e+308"
  /\ Number.toString (Float (S754_zero true)) = "0"
  /\ Number.toString (Float (S754_infinity true)) = "-Infinity"
  /\ Number.toString Number.NaN = "NaN".
Proof. repeat split; vm_compute; reflexivity. Qed.

Example sort_by_stable :
  JSLib.sort_by (fun a b => fst a - fst b) [(2, "x"); (1, "y"); (2, "z"); (0, "w")]
  = [(0, "w"); (1, "y"); (2, "x"); (2, "z")].
Proof. reflexivity. Qed.

Example replace_all_stars : JSLib.replace_all "**/" "" 0 "src/**/*.ts" = "src/*.ts".
Proof. reflexivity. Qed.

Example dirname_nested : Fs.dirname "/vault/notes/a.md" = "/vault/notes".
Proof. reflexivity. Qed.

Example ancestors_nested : Fs.ancestors "/vault/notes" = ["/"; "/vault"; "/vault/notes"].
Proof. reflexivity. Qed.

(** ** The tool executors *)

(** C1, at the input that breaks it. The vault is [/vault] and the path
    argument [../vault-backup/x.md] resolves to [/vault-backup/x.md], which
    is outside the vault. [resolvePath] compares texts, finds that the
    resolved path starts with [/vault], and lets it pass: in both executors
    the write tool reports success and creates the file outside the root. *)
Theorem path_confinement_sibling_directory :
  JS.path_resolve "/" ["/vault"; "../vault-backup/x.md"] = "/vault-backup/x.md"
  /\ stays_within "/vault" "/vault-backup/x.md" = false
  /\ Plugin.resolvePath quiet_host "/vault" "../vault-backup/x.md" = Ok "/vault-backup/x.md"
  /\ files vault_fs !! "/vault-backup/x.md" = None
  /\ (Plugin.execute quiet_host "/vault" "write_file" escape_args vault_fs).1
     = Some (mkToolResult "Wrote 1 lines to ../vault-backup/x.md" false)
  /\ files (Plugin.execute quiet_host "/vault" "write_file" escape_args vault_fs).2
       !! "/vault-backup/x.md" = Some "pwned"
  /\ (Service.execute quiet_host TOOL_NAMES "/vault" "write_file" escape_args vault_fs).1
     = mkToolResult "File written: ../vault-backup/x.md" false
  /\ files (Service.execute quiet_host TOOL_NAMES "/vault" "write_file" escape_args vault_fs).2
       !! "/vault-backup/x.md" = Some "pwned".
Proof. repeat split; vm_compute; reflexivity. Qed.

(** C6, at the inputs that break it. The note holds [hello], which occurs
    once; the edit asks for [cost: $$5] in its place. [String.replace]
    reads [$$] in the replacement as one dollar sign, so both executors
    report success and write [cost: $5]. With [aaa] in the note and [aa]
    to replace, the text occurs at two places, yet [split] counts one and
    the first is replaced. With [ab] in the note and no [old_string], the
    service counts one occurrence of the empty text and puts the new text
    in front. *)
Theorem edit_divergences :
  (occurrence_count "hello" "hello" = 1%nat
   /\ replaced_once "hello" "hello" "cost: $$5" = "cost: $$5"
   /\ Plugin.execute quiet_host "/vault" "edit_file" dollar_args vault_fs
      = (Some (mkToolResult "Edited a.md successfully" false),
         mkFS {[ "/vault/a.md" := "cost: $5" ]} {[ "/"; "/vault" ]} ∅)
   /\ Service.execute quiet_host TOOL_NAMES "/vault" "edit_file" dollar_args vault_fs
      = (mkToolResult "File edited: a.md" false,
         mkFS {[ "/vault/a.md" := "cost: $5" ]} {[ "/"; "/vault" ]} ∅))
  /\ (occurrence_count "aaa" "aa" = 2%nat
      /\ Plugin.execute quiet_host "/vault" "edit_file" overlap_args overlap_fs
         = (Some (mkToolResult "Edited a.md successfully" false),
            mkFS {[ "/vault/a.md" := "ba" ]} {[ "/"; "/vault" ]} ∅)
      /\ Service.execute quiet_host TOOL_NAMES "/vault" "edit_file" overlap_args overlap_fs
         = (mkToolResult "File edited: a.md" false,
            mkFS {[ "/vault/a.md" := "ba" ]} {[ "/"; "/vault" ]} ∅))
  /\ (occurrence_count "ab" "" = 3%nat
      /\ Service.execute quiet_host TOOL_NAMES "/vault" "edit_file" no_old_string_args short_fs
         = (mkToolResult "File edited: a.md" false,
            mkFS {[ "/vault/a.md" := "Xab" ]} {[ "/"; "/vault" ]} ∅)).
Proof. repeat split; vm_compute; reflexivity. Qed.

(** What the path test does reject: when the resolved path does not start
    with the text of the vault path, every tool that takes a path throws
    before it touches the file system. *)
Lemma plugin_resolvePath_rejects host vaultPath relativePath :
  JS.startsWith (JS.path_resolve (cwd host) [vaultPath; relativePath]) vaultPath = false ->
  Plugin.resolvePath host vaultPath relativePath
  = Throw "Path traversal not allowed: path must be within the vault".
Proof. intros H. unfold Plugin.resolvePath. rewrite H. reflexivity. Qed.

Lemma service_resolvePath_rejects host vaultPath relativePath :
  JS.startsWith (JS.path_resolve (cwd host) [vaultPath; relativePath]) vaultPath = false ->
  Service.resolvePath host vaultPath relativePath
  = Throw ("Path traversal detected: " +:+ relativePath).
Proof. intros H. unfold Service.resolvePath. rewrite H. reflexivity. Qed.

Lemma bind_lift_throw {A B : Type} (o : outcome A) (k : A -> M B) message fs :
  o = Throw message -> bind (lift o) k fs = (Throw message, fs).
Proof. intros ->. reflexivity. Qed.

Lemma settled_bind_lift_throw {A : Type} (o : outcome A) (k : A -> M ToolResult) message fs :
  o = Throw message -> Plugin.settled (bind (lift o) k) fs = (Throw message, fs).
Proof. intros ->. reflexivity. Qed.

Lemma plugin_rejected_path_has_no_effect host vaultPath toolName args fs :
  In toolName ["read_file"; "write_file"; "edit_file"; "grep"; "glob"; "list_directory"] ->
  JS.startsWith
    (JS.path_resolve (cwd host) [vaultPath; plugin_path_argument toolName args])
    vaultPath = false ->
  Plugin.execute host vaultPath toolName args fs
  = (Some (mkToolResult "Error: Path traversal not allowed: path must be within the vault"
             true), fs).
Proof.
  intros Hin Hrej.
  apply plugin_resolvePath_rejects in Hrej.
  unfold Plugin.execute.
  simpl in Hin.
  destruct Hin as [<- | [<- | [<- | [<- | [<- | [<- | []]]]]]];
    match goal with
    | |- context [Plugin.dispatch _ _ ?name _ _] =>
        change (Plugin.dispatch host vaultPath name args fs)
          with (match name with
                | "read_file" => Plugin.settled (Plugin.readFile host vaultPath args) fs
                | "write_file" => Plugin.settled (Plugin.writeFile host vaultPath args) fs
                | "edit_file" => Plugin.settled (Plugin.editFile host vaultPath args) fs
                | "grep" => Plugin.grep host vaultPath args fs
                | "glob" => Plugin.glob host vaultPath args fs
                | _ => Plugin.settled (Plugin.ls host vaultPath args) fs
                end)
    end;
    cbv beta iota;
    unfold Plugin.readFile, Plugin.writeFile, Plugin.editFile, Plugin.grep,
      Plugin.glob, Plugin.ls;
    (first [erewrite settled_bind_lift_throw | erewrite bind_lift_throw];
     [reflexivity | exact Hrej]).
Qed.

(** In the service the search tools resolve [args.path] only when it is
    given; without it they work on the vault itself. *)
Lemma service_rejected_path_has_no_effect host vaultPath args fs :
  (JS.startsWith
     (JS.path_resolve (cwd host)
        [vaultPath; Service.string_or_empty (Js.get args "file_path")])
     vaultPath = false ->
   let thrown :=
     (Throw ("Path traversal detected: "
             +:+ Service.string_or_empty (Js.get args "file_path")), fs) in
   Service.readFile host vaultPath args fs = thrown
   /\ Service.writeFile host vaultPath args fs = thrown
   /\ Service.editFile host vaultPath args fs = thrown)
  /\ (Js.truthy (Js.get args "path") = true ->
      JS.startsWith
        (JS.path_resolve (cwd host) [vaultPath; Js.String_ (Js.get args "path")])
        vaultPath = false ->
      let thrown :=
        (Throw ("Path traversal detected: " +:+ Js.String_ (Js.get args "path")), fs) in
      Service.grep host vaultPath args fs = thrown
      /\ Service.glob host vaultPath args fs = thrown
      /\ Service.ls host vaultPath args fs = thrown).
Proof.
  split.
  - intros Hrej. apply service_resolvePath_rejects in Hrej.
    unfold Service.readFile, Service.writeFile, Service.editFile.
    repeat split; (erewrite bind_lift_throw; [reflexivity | exact Hrej]).
  - intros Hpath Hrej. apply service_resolvePath_rejects in Hrej.
    unfold Service.grep, Service.glob, Service.ls, Service.path_or_vault.
    rewrite Hpath.
    repeat split; (erewrite bind_lift_throw; [reflexivity | exact Hrej]).
Qed.

Lemma known_tool_false names toolName :
  known_tool names toolName = false ->
  String.eqb toolName (READ names) = false
  /\ String.eqb toolName (WRITE names) = false
  /\ String.eqb toolName (EDIT names) = false
  /\ String.eqb toolName (BASH names) = false
  /\ String.eqb toolName (GREP names) = false
  /\ String.eqb toolName (GLOB names) = false
  /\ String.eqb toolName (LS names) = false.
Proof.
  unfold known_tool. simpl. rewrite !orb_false_iff. tauto.
Qed.

Lemma plugin_dispatch_unknown host vaultPath toolName args fs :
  known_tool TOOL_NAMES toolName = false ->
  Plugin.dispatch host vaultPath toolName args fs
  = (Ok (Some (mkToolResult ("Unknown tool: " +:+ toolName) true)), fs).
Proof.
  intros Hk. apply known_tool_false in Hk.
  destruct Hk as (H1 & H2 & H3 & H4 & H5 & H6 & H7).
  unfold Plugin.dispatch. rewrite H1, H2, H3, H4, H5, H6, H7. reflexivity.
Qed.

Lemma service_dispatch_unknown host names vaultPath toolName args fs :
  known_tool names toolName = false ->
  Service.dispatch host names vaultPath toolName args fs
  = (Ok (mkToolResult ("Unknown tool: " +:+ toolName) true), fs).
Proof.
  intros Hk. apply known_tool_false in Hk.
  destruct Hk as (H1 & H2 & H3 & H4 & H5 & H6 & H7).
  unfold Service.dispatch. rewrite H1, H2, H3, H4, H5, H6, H7. reflexivity.
Qed.

(** What holds of C2 in the service: [execute] returns a result for every
    tool name and every argument object. It is the result of the tool
    when the tool returns; a result with [isError] set and the message of
    the error when anything in the tool throws; and a result with
    [isError] set that names the tool, with the file system as it was,
    when the name is none of the seven. *)
Lemma service_execute_total host names vaultPath toolName args fs :
  exists result fs',
    Service.execute host names vaultPath toolName args fs = (result, fs')
    /\ (forall message fs1,
           Service.dispatch host names vaultPath toolName args fs = (Throw message, fs1) ->
           result = mkToolResult ("Error: " +:+ message) true /\ fs' = fs1)
    /\ (forall r fs1,
           Service.dispatch host names vaultPath toolName args fs = (Ok r, fs1) ->
           result = r /\ fs' = fs1)
    /\ (known_tool names toolName = false ->
        result = mkToolResult ("Unknown tool: " +:+ toolName) true /\ fs' = fs).
Proof.
  unfold Service.execute.
  pose proof (service_dispatch_unknown host names vaultPath toolName args fs) as Hu.
  destruct (Service.dispatch host names vaultPath toolName args fs) as [[r | m] fs1].
  - exists r, fs1.
    split; [reflexivity |].
    split; [intros message fs2 H; discriminate H |].
    split; [intros r2 fs2 H; injection H as <- <-; auto |].
    intros Hk. specialize (Hu Hk). injection Hu as <- <-. auto.
  - exists (mkToolResult ("Error: " +:+ m) true), fs1.
    split; [reflexivity |].
    split; [intros message fs2 H; injection H as <- <-; auto |].
    split; [intros r2 fs2 H; discriminate H |].
    intros Hk. specialize (Hu Hk). discriminate Hu.
Qed.

Lemma settled_settles (c : M ToolResult) : settles (Plugin.settled c).
Proof.
  intros fs. unfold Plugin.settled, bind, ret.
  destruct (c fs) as [[r | m] fs']; [left | right]; eexists _, _; reflexivity.
Qed.

Lemma exec_then_settles host cmd options callback :
  (forall out, exists r, callback out = Ok r) ->
  settles (Plugin.exec_then host cmd options callback).
Proof.
  intros Hcb fs. unfold Plugin.exec_then, bind, ret.
  destruct (exec host cmd options fs) as [[out | m] fs']; [| right; eexists _, _; reflexivity].
  destruct (Hcb out) as [r Hr]. rewrite Hr. left. eexists _, _. reflexivity.
Qed.

Lemma bind_lift_settles {A : Type} (o : outcome A) (k : A -> M (option ToolResult)) :
  (forall a, settles (k a)) -> settles (bind (lift o) k).
Proof.
  intros Hk fs. unfold bind, lift.
  destruct o as [a | m]; [apply Hk | right; eexists _, _; reflexivity].
Qed.

(** What holds of C2 in the plug-in: when the vault path is a regular
    expression, [execute] resolves for every tool name and every argument
    object. *)
Lemma plugin_execute_settles host vaultPath toolName args fs :
  vault_compiles host vaultPath ->
  exists result fs', Plugin.execute host vaultPath toolName args fs = (Some result, fs').
Proof.
  intros Hc.
  assert (Hs : settles (Plugin.dispatch host vaultPath toolName args)).
  { unfold Plugin.dispatch.
    repeat match goal with
           | |- settles (if ?b then _ else _) => destruct b
           end;
      try apply settled_settles.
    - unfold Plugin.bash.
      destruct (List.find _ Plugin.blocklist).
      + intros fs0. left. eexists _, _. reflexivity.
      + apply exec_then_settles. intros out.
        destruct (match error out with Some e => killed e | None => false end);
          eexists; reflexivity.
    - unfold Plugin.grep. apply bind_lift_settles. intros absPath.
      apply exec_then_settles. intros out.
      destruct (negb (Js.nonempty (JSLib.trim (stdout out)))); [eexists; reflexivity |].
      destruct (Hc (stdout out) "") as [s' Hs']. rewrite Hs'. eexists. reflexivity.
    - unfold Plugin.glob. apply bind_lift_settles. intros absPath.
      apply exec_then_settles. intros out.
      destruct (negb (Js.nonempty (JSLib.trim (stdout out)))); [eexists; reflexivity |].
      destruct (Hc (stdout out) "") as [s' Hs']. rewrite Hs'. eexists. reflexivity.
    - intros fs0. left. eexists _, _. reflexivity. }
  unfold Plugin.execute.
  destruct (Hs fs) as [[r [fs' H]] | [m [fs' H]]]; rewrite H; eexists _, _; reflexivity.
Qed.

(** C2, at the input that breaks it. The vault is [/notes/c++] and the
    search finds a line. The callback that [grep] of the plug-in hands to
    [exec] builds [new RegExp("/notes/c++/", "g")], which is no regular
    expression: the [SyntaxError] is thrown inside the callback, where the
    [try] of [execute] does not reach, and the promise that [execute]
    awaits is never settled. [execute] of the service, whose callback
    builds no regular expression, returns for the same call. *)
Theorem plugin_grep_never_settles :
  Plugin.execute fussy_host "/notes/c++" "grep" {[ "pattern" := JStr "todo" ]} notes_fs
  = (None, notes_fs)
  /\ Service.execute fussy_host TOOL_NAMES "/notes/c++" "grep"
       {[ "pattern" := JStr "todo" ]} notes_fs
     = (mkToolResult "/notes/c++/a.md:1:todo" false, notes_fs).
Proof. split; vm_compute; reflexivity. Qed.

(** Failures of the file system come back as results, too. *)
Example read_of_missing_file_is_an_error_result :
  Plugin.execute quiet_host "/vault" "read_file" {[ "file_path" := JStr "b.md" ]} vault_fs
  = (Some (mkToolResult "Error: ENOENT: no such file or directory, open '/vault/b.md'" true),
     vault_fs).
Proof. vm_compute. reflexivity. Qed.

(** *** What [editFile] does get right *)

Lemma get_substitution_plain matched before after repl :
  has_dollar repl = false -> JS.get_substitution matched before after repl = repl.
Proof.
  induction repl as [| c r IH]; simpl; [reflexivity |].
  intros H. apply orb_false_iff in H. destruct H as [Hc Hr].
  rewrite Hc. f_equal. exact (IH Hr).
Qed.

Lemma replace_plain content old new :
  has_dollar new = false -> JS.replace content old new = replaced_once content old new.
Proof.
  intros H. unfold JS.replace, replaced_once.
  destruct (JS.first_match old content) as [[b a] |]; [| reflexivity].
  rewrite get_substitution_plain by exact H. reflexivity.
Qed.

Lemma prefix_of_empty sep : sep <> EmptyString -> String.prefix sep EmptyString = false.
Proof. destruct sep; [congruence | reflexivity]. Qed.

(** For a separator that is not empty, [split] makes no cut exactly when
    the text does not contain the separator. *)
Lemma split_cuts_zero_iff sep s :
  sep <> EmptyString ->
  JS.split_cuts sep 0 s = 0%nat <-> JS.includes s sep = false.
Proof.
  intros Hsep. induction s as [| c s IH].
  - destruct sep; [congruence |]. simpl. tauto.
  - change (JS.split_cuts sep 0 (String c s))
      with (if String.prefix sep (String c s)
            then S (JS.split_cuts sep (String.length sep - 1) s)
            else JS.split_cuts sep 0 s).
    change (JS.includes (String c s) sep)
      with (if String.prefix sep (String c s) then true else JS.includes s sep).
    destruct (String.prefix sep (String c s)); [split; discriminate | exact IH].
Qed.

(** The three ways of [editFile], by the count that the code takes. *)
Lemma plugin_editFile_cases host vaultPath args fs absPath content :
  let filePath := Js.String_ (Js.get args "file_path") in
  let oldString := Js.String_ (Js.get args "old_string") in
  let newString := Js.String_ (Js.get args "new_string") in
  let occurrences := Z.of_nat (JS.split_length content oldString) - 1 in
  Plugin.resolvePath host vaultPath filePath = Ok absPath ->
  files fs !! absPath = Some content ->
  (occurrences = 0 ->
   Plugin.editFile host vaultPath args fs
   = (Ok (mkToolResult ("old_string not found in " +:+ filePath) true), fs))
  /\ (1 < occurrences ->
      Plugin.editFile host vaultPath args fs
      = (Ok (mkToolResult
               ("old_string found " +:+ pretty occurrences +:+ " times in " +:+ filePath
                +:+ " — must be unique. Provide more surrounding context.") true), fs))
  /\ (occurrences <> 0 -> occurrences <= 1 ->
      forall fs', Fs.writeFile fs absPath (JS.replace content oldString newString) = Ok fs' ->
      Plugin.editFile host vaultPath args fs
      = (Ok (mkToolResult ("Edited " +:+ filePath +:+ " successfully") false), fs')).
Proof.
  intros filePath oldString newString occurrences Hres Hfile.
  unfold Plugin.editFile, bind, lift, reads, ret, Fs.readFile.
  fold filePath oldString newString.
  rewrite Hres, Hfile. fold occurrences.
  split; [| split].
  - intros H0. rewrite H0. reflexivity.
  - intros H1.
    destruct (occurrences =? 0) eqn:E0; [apply Z.eqb_eq in E0; lia |].
    destruct (1 <? occurrences) eqn:E1; [reflexivity | apply Z.ltb_ge in E1; lia].
  - intros Hne Hle fs' Hw.
    destruct (occurrences =? 0) eqn:E0; [apply Z.eqb_eq in E0; lia |].
    destruct (1 <? occurrences) eqn:E1; [apply Z.ltb_lt in E1; lia |].
    unfold updates. rewrite Hw. reflexivity.
Qed.

Lemma service_editFile_cases host vaultPath args fs absPath content :
  let oldString := Service.string_or_empty (Js.get args "old_string") in
  let newString := Service.string_or_empty (Js.get args "new_string") in
  let occurrences := Z.of_nat (JS.split_length content oldString) - 1 in
  Service.resolvePath host vaultPath (Service.string_or_empty (Js.get args "file_path"))
  = Ok absPath ->
  files fs !! absPath = Some content ->
  (occurrences = 0 ->
   Service.editFile host vaultPath args fs
   = (Ok (mkToolResult "old_string not found in file" true), fs))
  /\ (1 < occurrences ->
      Service.editFile host vaultPath args fs
      = (Ok (mkToolResult
               ("old_string found " +:+ pretty occurrences +:+ " times (must be unique)")
               true), fs))
  /\ (occurrences <> 0 -> occurrences <= 1 ->
      forall fs', Fs.writeFile fs absPath (JS.replace content oldString newString) = Ok fs' ->
      Service.editFile host vaultPath args fs
      = (Ok (mkToolResult ("File edited: " +:+ Js.String_ (Js.get args "file_path")) false),
         fs')).
Proof.
  intros oldString newString occurrences Hres Hfile.
  unfold Service.editFile, bind, lift, reads, ret, Fs.readFile.
  fold oldString newString.
  rewrite Hres, Hfile. fold occurrences.
  split; [| split].
  - intros H0. rewrite H0. reflexivity.
  - intros H1.
    destruct (occurrences =? 0) eqn:E0; [apply Z.eqb_eq in E0; lia |].
    destruct (1 <? occurrences) eqn:E1; [reflexivity | apply Z.ltb_ge in E1; lia].
  - intros Hne Hle fs' Hw.
    destruct (occurrences =? 0) eqn:E0; [apply Z.eqb_eq in E0; lia |].
    destruct (1 <? occurrences) eqn:E1; [apply Z.ltb_lt in E1; lia |].
    unfold updates. rewrite Hw. reflexivity.
Qed.

(** ** The round accumulators, at the inputs that tell them apart *)

(** C4, at the input that breaks it. When the fragment for position 1
    arrives before the fragment for position 0, [processRound] of the
    plug-in lists the calls as they were discovered, position 1 first: it
    takes the values of its [Map] in insertion order. [streamOneRound] of
    the service sorts the entries and lists position 0 first. *)
Theorem plugin_tool_calls_in_discovery_order :
  (Plugin.processRound (scripted_remote Plugin.WLine (plugin_wire out_of_order))
     "t0" (Plugin.push [mkChatMessage user (Some "hi") None None] plugin_0)).1
  = Ok (Some (mkChatMessage assistant None
                (Some [mkToolCall "call_b" "grep" "{}"; mkToolCall "call_a" "glob" "{}"])
                None))
  /\ Service.toolCalls
       (Service.streamOneRound (scripted_remote Service.SLine (service_wire out_of_order))
          "t0" opening service_0).1
     = [mkToolCall "call_a" "glob" "{}"; mkToolCall "call_b" "grep" "{}"].
Proof. split; vm_compute; reflexivity. Qed.

(** C8, at the inputs that break it. An id that comes one fragment after
    the name is kept by the plug-in and lost by the service, which has
    made up an id when it first saw the position and never looks at
    [tc.id] again. Ids that never come are made up by the service from the
    position and the clock, and are left empty by the plug-in, so that two
    such calls of a round share the id. *)
Theorem tool_call_ids_diverge :
  (Plugin.processRound (scripted_remote Plugin.WLine (plugin_wire late_id))
     "t0" (Plugin.push [mkChatMessage user (Some "hi") None None] plugin_0)).1
  = Ok (Some (mkChatMessage assistant None (Some [mkToolCall "call_1" "bash" "{}"]) None))
  /\ Service.toolCalls
       (Service.streamOneRound (scripted_remote Service.SLine (service_wire late_id))
          "t0" opening service_0).1
     = [mkToolCall "tc_0_1700000000000" "bash" "{}"]
  /\ (Plugin.processRound (scripted_remote Plugin.WLine (plugin_wire no_ids))
        "t0" (Plugin.push [mkChatMessage user (Some "hi") None None] plugin_0)).1
     = Ok (Some (mkChatMessage assistant None
                   (Some [mkToolCall "" "glob" "{}"; mkToolCall "" "grep" "{}"]) None))
  /\ Service.toolCalls
       (Service.streamOneRound (scripted_remote Service.SLine (service_wire no_ids))
          "t0" opening service_0).1
     = [mkToolCall "tc_0_1700000000000" "glob" "{}";
        mkToolCall "tc_1_1700000000000" "grep" "{}"].
Proof. repeat split; vm_compute; reflexivity. Qed.

(** ** The loops, at the inputs that tell them apart *)

(** C5, at the inputs that break it. The user cancels after the text
    [Hel] has arrived. The generator [streamChat] sees the aborted signal
    and ends as if the response were complete, so [processRound] goes on:
    it pushes the assistant message of the round that was cancelled, and
    [send], finding no tool call in it, calls [onDone]. The same happens
    when the user cancels while the request is under way: an assistant
    message without content is pushed and [onDone] is called. *)
Theorem plugin_cancel_mid_stream_completes_the_round :
  let before := Plugin.push [mkChatMessage user (Some "hi") None None] plugin_0 in
  let after := Plugin.send quiet_host cancelled_mid_stream "/vault" "hi" plugin_0 in
  let after' := Plugin.send quiet_host cancelled_during_request "/vault" "hi" plugin_0 in
  Plugin.aborted after = true
  /\ Plugin.events after = [Plugin.TextDelta "Hel"; Plugin.TextDone "Hel"; Plugin.Done]
  /\ Plugin.messages after
     = List.app (Plugin.messages before) [mkChatMessage assistant (Some "Hel") None None]
  /\ Plugin.aborted after' = true
  /\ Plugin.events after' = [Plugin.Done]
  /\ Plugin.messages after'
     = List.app (Plugin.messages before) [mkChatMessage assistant None None None].
Proof. repeat split; vm_compute; reflexivity. Qed.

(** C9, at the input that breaks it. The token is stale at every reading
    of the clock after the first tick. [send] of the plug-in asks
    [ensureToken] once, before its loop, and places the request of the
    second round with the token of the first, without another look at the
    clock. [query] of the service looks at the clock after the tools of
    the first round, fetches a token and uses it. *)
Theorem plugin_token_checked_once_per_send :
  Plugin.calls (Plugin.send quiet_host (short_lived Plugin.WLine) "/vault" "hi" plugin_0)
  = [TokenFetch; ChatRequest "t0"; ChatRequest "t0"]
  /\ rechecked true
       (Plugin.calls (Plugin.send quiet_host (short_lived Plugin.WLine) "/vault" "hi" plugin_0))
     = false
  /\ (forall n, isTokenExpired (Date_now (short_lived Plugin.WLine) (S n)) 1800 300 = true)
  /\ Service.calls
       (Service.query quiet_host (short_lived Service.SLine) TOOL_NAMES (fun _ => "{}")
          "/vault" "hi" 0 None service_0).2
     = [TokenFetch; ChatRequest "t0"; ExpiryCheck true; ExpiryCheck true; TokenFetch;
        ChatRequest "t1"].
Proof. repeat split; vm_compute; reflexivity. Qed.

(** C3, at the input that breaks it. The model asks for the listing of
    the vault in every round. Both loops place 25 requests and no more.
    [send] of the plug-in then emits the max-rounds notice as text and calls
    [onDone], without an error. [query] of the service ends the same loop
    with an error chunk, [Max tool rounds (25) exceeded], and yields no
    [done] chunk. *)
Theorem service_round_cap_is_an_error :
  let st := (Service.query quiet_host (always_asking Service.SLine) TOOL_NAMES
               (fun _ => "{}") "/vault" "hi" 0 None service_0).2 in
  let pst := Plugin.send quiet_host (always_asking Plugin.WLine) "/vault" "hi" plugin_0 in
  (rounds_of (Service.calls st) = 25%nat
   /\ List.last (Service.events st) Service.UiDone
      = Service.UiError "Max tool rounds (25) exceeded"
   /\ List.existsb
        (fun c => match c with Service.UiDone => true | _ => false end)
        (Service.events st) = false)
  /\ (rounds_of (Plugin.calls pst) = 25%nat
      /\ List.skipn (List.length (Plugin.events pst) - 2) (Plugin.events pst)
         = [Plugin.TextDelta Plugin.max_rounds_notice; Plugin.Done]
      /\ List.existsb
           (fun e => match e with Plugin.Error_ _ => true | _ => false end)
           (Plugin.events pst) = false).
Proof. repeat split; vm_compute; reflexivity. Qed.

(** ** The history of the plug-in's loop *)

Lemma appends_refl st : appends st st.
Proof. exists []. symmetry. apply List.app_nil_r. Qed.

Lemma appends_same st st' : Plugin.messages st' = Plugin.messages st -> appends st st'.
Proof. intros H. exists []. rewrite H. symmetry. apply List.app_nil_r. Qed.

Lemma appends_trans st1 st2 st3 : appends st1 st2 -> appends st2 st3 -> appends st1 st3.
Proof.
  intros [s1 H1] [s2 H2]. exists (List.app s1 s2).
  rewrite H2, H1. symmetry. apply List.app_assoc.
Qed.

Lemma appends_push ms st : appends st (Plugin.push ms st).
Proof. exists ms. reflexivity. Qed.

Lemma messages_cancel st : Plugin.messages (Plugin.cancel st) = Plugin.messages st.
Proof. unfold Plugin.cancel. destruct (Plugin.abortController st); reflexivity. Qed.

Lemma messages_await remote st :
  Plugin.messages (Plugin.await remote st) = Plugin.messages st.
Proof.
  unfold Plugin.await. destruct (cancel_at remote (Plugin.tick st)); fields;
    [apply messages_cancel | reflexivity].
Qed.

Lemma messages_refreshToken remote st :
  Plugin.messages (Plugin.refreshToken remote st).2 = Plugin.messages st.
Proof.
  unfold Plugin.refreshToken.
  destruct (fetchCopilotToken remote _ _); fields; rewrite messages_await; reflexivity.
Qed.

Lemma messages_ensureToken remote st :
  Plugin.messages (Plugin.ensureToken remote st).2 = Plugin.messages st.
Proof.
  unfold Plugin.ensureToken.
  destruct (Plugin.this_token st) as [t |]; [| apply messages_refreshToken].
  destruct (isTokenExpired _ _ _); [| reflexivity].
  rewrite messages_refreshToken. reflexivity.
Qed.

Lemma messages_stream_lines wire acc st :
  Plugin.messages (Plugin.stream_lines wire acc st).2 = Plugin.messages st.
Proof.
  revert acc st. induction wire as [| step wire IH]; intros acc st; [reflexivity |].
  cbn [Plugin.stream_lines].
  destruct step as [line |].
  - destruct (Plugin.aborted st); [reflexivity |].
    destruct line as [| | | chunk]; try apply IH; try reflexivity.
    destruct (Plugin.on_choices (choices chunk) acc) as [acc' evs].
    rewrite IH. reflexivity.
  - rewrite IH. apply messages_cancel.
Qed.

Lemma messages_fallback remote tok acc st :
  Plugin.messages (Plugin.fallback remote tok acc st).2 = Plugin.messages st.
Proof.
  unfold Plugin.fallback.
  destruct (sendChat remote tok _ _) as [response | message].
  - destruct (truthy_string (msg_content response)); destruct (tool_calls response);
      try destruct (Plugin.fallback_tool_calls _ _ _); fields;
      rewrite messages_await; reflexivity.
  - fields. rewrite messages_await. reflexivity.
Qed.

Lemma processRound_appends remote tok st :
  appends st (Plugin.processRound remote tok st).2.
Proof.
  unfold Plugin.processRound.
  destruct (requestUrl remote tok _ _) as [wire | message].
  - destruct (Plugin.aborted (Plugin.await remote (Plugin.place (ChatRequest tok) st))) eqn:Ea.
    + eexists. fields. cbn [Plugin.fullText Js.nonempty String.eqb negb].
      rewrite messages_await. reflexivity.
    + destruct (Plugin.stream_lines wire _ _) as [r st1] eqn:Es.
      assert (Hm : Plugin.messages st1 = Plugin.messages st).
      { change st1 with ((r, st1).2). rewrite <- Es, messages_stream_lines, messages_await.
        reflexivity. }
      destruct r as [acc |].
      * destruct (Js.nonempty (Plugin.fullText acc)); eexists; fields;
          rewrite Hm; reflexivity.
      * apply appends_same. exact Hm.
  - destruct (Plugin.fallback remote tok _ _) as [r st1] eqn:Ef.
    assert (Hm : Plugin.messages st1 = Plugin.messages st).
    { change st1 with ((r, st1).2). rewrite <- Ef, messages_fallback, messages_await.
      reflexivity. }
    destruct r as [acc | message'].
    + destruct (Js.nonempty (Plugin.fullText acc)); eexists; fields;
        rewrite Hm; reflexivity.
    + apply appends_same. exact Hm.
Qed.

Lemma messages_executeToolCalls host remote vaultPath tcs results st :
  Plugin.messages (Plugin.executeToolCalls host remote vaultPath tcs results st).2
  = Plugin.messages st.
Proof.
  revert results st. induction tcs as [| tc tcs IH]; intros results st; [reflexivity |].
  cbn [Plugin.executeToolCalls].
  destruct (Plugin.aborted st); [reflexivity |].
  destruct (Plugin.execute host vaultPath _ _ _) as [[result |] fs'].
  - rewrite IH. fields. rewrite messages_await. reflexivity.
  - fields. rewrite messages_await. reflexivity.
Qed.

Lemma rounds_loop_appends host remote vaultPath left tok st :
  appends st (Plugin.rounds_loop host remote vaultPath left tok st).2.
Proof.
  revert st. induction left as [| left IH]; intros st; [apply appends_refl |].
  cbn [Plugin.rounds_loop].
  destruct (Plugin.aborted st); [apply appends_refl |].
  pose proof (processRound_appends remote tok st) as Hp.
  destruct (Plugin.processRound remote tok st) as [[[assistantMessage |] | message] st1];
    cbn [snd] in Hp |- *; try exact Hp.
  destruct (tool_calls assistantMessage) as [[| tc tcs] |]; try exact Hp.
  pose proof (messages_executeToolCalls host remote vaultPath (tc :: tcs) [] st1) as He.
  destruct (Plugin.executeToolCalls host remote vaultPath (tc :: tcs) [] st1)
    as [[toolResults |] st2].
  - cbn [snd] in He.
    assert (H12 : appends st st2).
    { apply (appends_trans _ st1); [exact Hp | apply appends_same; exact He]. }
    destruct (Plugin.aborted st2); [exact H12 |].
    eapply appends_trans; [| apply IH].
    eapply appends_trans; [exact H12 | apply appends_push].
  - cbn [snd] in He |- *.
    apply (appends_trans _ st1); [exact Hp | apply appends_same; exact He].
Qed.

Lemma send_appends host remote vaultPath userMessage st :
  exists suffix,
    Plugin.messages (Plugin.send host remote vaultPath userMessage st)
    = List.app (Plugin.messages st)
        (mkChatMessage user (Some userMessage) None None :: suffix).
Proof.
  unfold Plugin.send.
  set (st0 := Plugin.push _ (Plugin.set_abortController (Some false) st)).
  assert (H0 : Plugin.messages st0
               = List.app (Plugin.messages st)
                   [mkChatMessage user (Some userMessage) None None]) by reflexivity.
  assert (Hgoal : forall st', appends st0 st' ->
            exists suffix, Plugin.messages st'
              = List.app (Plugin.messages st)
                  (mkChatMessage user (Some userMessage) None None :: suffix)).
  { intros st' [s Hs]. exists s. rewrite Hs, H0, <- List.app_assoc. reflexivity. }
  pose proof (messages_ensureToken remote st0) as He.
  destruct (Plugin.ensureToken remote st0) as [[tok | message] st1]; cbn [snd] in He.
  - pose proof (rounds_loop_appends host remote vaultPath Plugin.MAX_TOOL_ROUNDS tok st1) as Hl.
    destruct (Plugin.rounds_loop host remote vaultPath Plugin.MAX_TOOL_ROUNDS tok st1)
      as [r st2].
    cbn [snd] in Hl.
    assert (H02 : appends st0 st2).
    { eapply appends_trans; [apply appends_same; exact He | exact Hl]. }
    destruct r as [[| |] | message]; try (apply Hgoal; exact H02).
    destruct (negb (Plugin.aborted st2)); apply Hgoal; exact H02.
  - destruct (negb (Plugin.aborted st1)); apply Hgoal; apply appends_same; exact He.
Qed.

(** C10. The message list of an [AgentLoop] starts with the system
    prompt: the constructor makes it that one message, [send] and
    [processRound] only add messages at the end (and [send] adds the user
    message first), [clearHistory] makes it that one message again, and
    so it starts with the system prompt after every sequence of
    operations. *)
Theorem history_starts_with_system_prompt host vaultPath :
  (forall fs pat model, Plugin.messages (Plugin.constructor fs pat model) = [system_message])
  /\ (forall remote userMessage st,
         exists suffix,
           Plugin.messages (Plugin.send host remote vaultPath userMessage st)
           = List.app (Plugin.messages st)
               (mkChatMessage user (Some userMessage) None None :: suffix))
  /\ (forall remote tok st,
         exists suffix,
           Plugin.messages (Plugin.processRound remote tok st).2
           = List.app (Plugin.messages st) suffix)
  /\ (forall st, Plugin.messages (Plugin.clearHistory st) = [system_message])
  /\ (forall ops fs pat model,
         starts_with_system_prompt
           (run_all host vaultPath ops (Plugin.constructor fs pat model))).
Proof.
  split; [reflexivity |].
  split; [intros; apply send_appends |].
  split; [intros; apply processRound_appends |].
  split; [reflexivity |].
  intros ops fs pat model.
  assert (Hinv : forall st, starts_with_system_prompt st ->
                   starts_with_system_prompt (run_all host vaultPath ops st)).
  { induction ops as [| op ops IH]; intros st Hst; [exact Hst |].
    simpl. apply IH.
    destruct op as [remote userMessage | | model' |]; simpl.
    - destruct Hst as [rest Hrest].
      destruct (send_appends host remote vaultPath userMessage st) as [suffix Hs].
      eexists. rewrite Hs, Hrest. reflexivity.
    - destruct Hst as [rest Hrest]. exists rest. rewrite messages_cancel. exact Hrest.
    - exact Hst.
    - exists []. reflexivity. }
  apply Hinv. exists []. reflexivity.
Qed.

(** ** The token of a send in the plug-in *)

Lemma places_chats_with_refl tok st : places_chats_with tok st st.
Proof. exists []. rewrite List.app_nil_r. split; reflexivity. Qed.

Lemma places_chats_with_same tok st st' :
  Plugin.calls st' = Plugin.calls st -> places_chats_with tok st st'.
Proof. intros H. exists []. rewrite List.app_nil_r. split; [exact H | reflexivity]. Qed.

Lemma places_chats_with_trans tok st1 st2 st3 :
  places_chats_with tok st1 st2 -> places_chats_with tok st2 st3 ->
  places_chats_with tok st1 st3.
Proof.
  intros [cs [H1 F1]] [cs' [H2 F2]]. exists (List.app cs cs').
  rewrite H2, H1, <- List.app_assoc, List.forallb_app, F1, F2. split; reflexivity.
Qed.

Lemma calls_cancel st : Plugin.calls (Plugin.cancel st) = Plugin.calls st.
Proof. unfold Plugin.cancel. destruct (Plugin.abortController st); reflexivity. Qed.

Lemma calls_await remote st : Plugin.calls (Plugin.await remote st) = Plugin.calls st.
Proof.
  unfold Plugin.await. destruct (cancel_at remote (Plugin.tick st)); fields;
    [apply calls_cancel | reflexivity].
Qed.

Lemma calls_stream_lines wire acc st :
  Plugin.calls (Plugin.stream_lines wire acc st).2 = Plugin.calls st.
Proof.
  revert acc st. induction wire as [| step wire IH]; intros acc st; [reflexivity |].
  cbn [Plugin.stream_lines].
  destruct step as [line |].
  - destruct (Plugin.aborted st); [reflexivity |].
    destruct line as [| | | chunk]; try apply IH; try reflexivity.
    destruct (Plugin.on_choices (choices chunk) acc) as [acc' evs].
    rewrite IH. reflexivity.
  - rewrite IH. apply calls_cancel.
Qed.

Lemma calls_fallback remote tok acc st :
  Plugin.calls (Plugin.fallback remote tok acc st).2
  = List.app (Plugin.calls st) [ChatFallback tok].
Proof.
  unfold Plugin.fallback.
  destruct (sendChat remote tok _ _) as [response | message].
  - destruct (truthy_string (msg_content response)); destruct (tool_calls response);
      try destruct (Plugin.fallback_tool_calls _ _ _); fields;
      rewrite calls_await; reflexivity.
  - fields. rewrite calls_await. reflexivity.
Qed.

Lemma is_chat_with_request tok : is_chat_with tok (ChatRequest tok) = true.
Proof. apply String.eqb_refl. Qed.

Lemma is_chat_with_fallback tok : is_chat_with tok (ChatFallback tok) = true.
Proof. apply String.eqb_refl. Qed.

Lemma processRound_places_chats remote tok st :
  places_chats_with tok st (Plugin.processRound remote tok st).2.
Proof.
  unfold Plugin.processRound.
  destruct (requestUrl remote tok _ _) as [wire | message].
  - exists [ChatRequest tok].
    split; [| cbn [List.forallb]; rewrite is_chat_with_request; reflexivity].
    destruct (Plugin.aborted (Plugin.await remote (Plugin.place (ChatRequest tok) st))) eqn:Ea.
    + fields. cbn [Plugin.fullText Js.nonempty String.eqb negb].
      rewrite calls_await. reflexivity.
    + destruct (Plugin.stream_lines wire _ _) as [r st1] eqn:Es.
      assert (Hc : Plugin.calls st1 = List.app (Plugin.calls st) [ChatRequest tok]).
      { change st1 with ((r, st1).2). rewrite <- Es, calls_stream_lines, calls_await.
        reflexivity. }
      destruct r as [acc |]; [| exact Hc].
      destruct (Js.nonempty (Plugin.fullText acc)); fields; exact Hc.
  - exists [ChatRequest tok; ChatFallback tok].
    split; [| cbn [List.forallb];
              rewrite is_chat_with_request, is_chat_with_fallback; reflexivity].
    destruct (Plugin.fallback remote tok _ _) as [r st1] eqn:Ef.
    assert (Hc : Plugin.calls st1
                 = List.app (Plugin.calls st) [ChatRequest tok; ChatFallback tok]).
    { change st1 with ((r, st1).2). rewrite <- Ef, calls_fallback, calls_await.
      fields. rewrite <- List.app_assoc. reflexivity. }
    destruct r as [acc | message']; [| exact Hc].
    destruct (Js.nonempty (Plugin.fullText acc)); fields; exact Hc.
Qed.

Lemma calls_executeToolCalls host remote vaultPath tcs results st :
  Plugin.calls (Plugin.executeToolCalls host remote vaultPath tcs results st).2
  = Plugin.calls st.
Proof.
  revert results st. induction tcs as [| tc tcs IH]; intros results st; [reflexivity |].
  cbn [Plugin.executeToolCalls].
  destruct (Plugin.aborted st); [reflexivity |].
  destruct (Plugin.execute host vaultPath _ _ _) as [[result |] fs'].
  - rewrite IH. fields. rewrite calls_await. reflexivity.
  - fields. rewrite calls_await. reflexivity.
Qed.

(** What C9 asks for is missing in every send of the plug-in, not only in
    the one above: whatever the remote side does and however long the
    tools take, the loop of [send] places nothing but chat requests, all
    with the token that it was given before its first round. *)
Lemma plugin_rounds_loop_keeps_its_token host remote vaultPath left tok st :
  places_chats_with tok st (Plugin.rounds_loop host remote vaultPath left tok st).2.
Proof.
  revert st. induction left as [| left IH]; intros st; [apply places_chats_with_refl |].
  cbn [Plugin.rounds_loop].
  destruct (Plugin.aborted st); [apply places_chats_with_refl |].
  pose proof (processRound_places_chats remote tok st) as Hp.
  destruct (Plugin.processRound remote tok st) as [[[assistantMessage |] | message] st1];
    cbn [snd] in Hp |- *; try exact Hp.
  destruct (tool_calls assistantMessage) as [[| tc tcs] |]; try exact Hp.
  pose proof (calls_executeToolCalls host remote vaultPath (tc :: tcs) [] st1) as He.
  destruct (Plugin.executeToolCalls host remote vaultPath (tc :: tcs) [] st1)
    as [[toolResults |] st2]; cbn [snd] in He |- *.
  - assert (H12 : places_chats_with tok st st2).
    { apply (places_chats_with_trans _ _ st1);
        [exact Hp | apply places_chats_with_same; exact He]. }
    destruct (Plugin.aborted st2); [exact H12 |].
    eapply places_chats_with_trans; [| apply IH].
    eapply places_chats_with_trans; [exact H12 | apply places_chats_with_same; reflexivity].
  - apply (places_chats_with_trans _ _ st1);
      [exact Hp | apply places_chats_with_same; exact He].
Qed.

Lemma plugin_send_keeps_its_token host remote vaultPath userMessage st :
  match Plugin.ensureToken remote
          (Plugin.push [mkChatMessage user (Some userMessage) None None]
             (Plugin.set_abortController (Some false) st)) with
  | (Ok tok, st1) =>
      places_chats_with tok st1 (Plugin.send host remote vaultPath userMessage st)
  | (Throw _, st1) =>
      Plugin.calls (Plugin.send host remote vaultPath userMessage st) = Plugin.calls st1
  end.
Proof.
  unfold Plugin.send.
  destruct (Plugin.ensureToken remote _) as [[tok | message] st1].
  - pose proof (plugin_rounds_loop_keeps_its_token host remote vaultPath
                  Plugin.MAX_TOOL_ROUNDS tok st1) as Hl.
    destruct (Plugin.rounds_loop host remote vaultPath Plugin.MAX_TOOL_ROUNDS tok st1)
      as [r st2].
    cbn [snd] in Hl.
    destruct r as [[| |] | message]; try exact Hl.
    destruct (negb (Plugin.aborted st2)); exact Hl.
  - destruct (negb (Plugin.aborted st1)); reflexivity.
Qed.

(** ** The token of a query in the service *)

Lemma rechecked_app fresh cs1 cs2 :
  rechecked fresh (List.app cs1 cs2)
  = rechecked fresh cs1 && rechecked (fresh_after fresh cs1) cs2.
Proof.
  revert fresh. induction cs1 as [| c cs1 IH]; intros fresh; [reflexivity |].
  destruct c; cbn [List.app rechecked fresh_after List.fold_left is_check];
    fold (fresh_after true cs1); fold (fresh_after false cs1);
    rewrite IH; try reflexivity.
  rewrite andb_assoc. reflexivity.
Qed.

Lemma service_quiet_refl st : service_quiet st st.
Proof. split; reflexivity. Qed.

Lemma service_quiet_trans st1 st2 st3 :
  service_quiet st1 st2 -> service_quiet st2 st3 -> service_quiet st1 st3.
Proof. intros [C1 T1] [C2 T2]. split; congruence. Qed.

Lemma service_quiet_await remote st :
  (forall n, updatePat_at remote n = None) ->
  service_quiet st (Service.await remote st).
Proof.
  intros Hpat. unfold Service.await, Service.meanwhile, Service.cancel.
  rewrite Hpat.
  destruct (cancel_at remote (Service.tick st)); split; reflexivity.
Qed.

Lemma calls_service_await remote st :
  Service.calls (Service.await remote st) = Service.calls st.
Proof.
  unfold Service.await, Service.meanwhile, Service.cancel, Service.updatePat.
  destruct (updatePat_at remote (Service.tick st)); service_fields;
    match goal with
    | |- context [if ?b then _ else _] => destruct b
    end; reflexivity.
Qed.

Lemma service_quiet_stream_steps remote wire text m st :
  no_updatePat wire = true ->
  service_quiet st (Service.stream_steps remote wire text m st).2.
Proof.
  revert text m st. induction wire as [| step wire IH]; intros text m st Hw;
    [apply service_quiet_refl |].
  cbn [no_updatePat List.forallb] in Hw. apply andb_prop in Hw. destruct Hw as [Hs Hw].
  cbn [Service.stream_steps].
  destruct step as [line | | pat0 | message]; [| | discriminate |].
  - destruct line as [| | | chunk]; try (apply IH; exact Hw).
    destruct (Service.on_chunk remote chunk text (m, Service.tick st))
      as [[text' [m' n]] out].
    eapply service_quiet_trans; [| apply IH; exact Hw]. split; reflexivity.
  - eapply service_quiet_trans; [| apply IH; exact Hw]. split; reflexivity.
  - apply service_quiet_refl.
Qed.

Lemma service_streamOneRound_places remote tok messages st :
  pat_stays remote ->
  Service.calls (Service.streamOneRound remote tok messages st).2
  = List.app (Service.calls st) [ChatRequest tok]
  /\ Service.copilotToken (Service.streamOneRound remote tok messages st).2
     = Service.copilotToken st.
Proof.
  intros [Hpat Hwire].
  unfold Service.streamOneRound.
  set (st0 := Service.place (ChatRequest tok) st).
  assert (H : forall x : outcome (JsMap.t ToolCall) * string * Service.CopilotService,
             service_quiet st0 x.2 ->
             Service.calls
               (let '(r, textContent, st1) := x in
                match r with
                | Throw message =>
                    if Service.aborted st1
                    then (Service.mkRoundResult textContent [] None true, st1)
                    else (Service.mkRoundResult textContent [] (Some message) false, st1)
                | Ok toolCallsMap =>
                    (Service.mkRoundResult textContent
                       (List.map snd
                          (JSLib.sort_by (fun a b => a.1 - b.1) (JsMap.entries toolCallsMap)))
                       None false, st1)
                end).2
             = List.app (Service.calls st) [ChatRequest tok]
             /\ Service.copilotToken
                  (let '(r, textContent, st1) := x in
                   match r with
                   | Throw message =>
                       if Service.aborted st1
                       then (Service.mkRoundResult textContent [] None true, st1)
                       else (Service.mkRoundResult textContent [] (Some message) false, st1)
                   | Ok toolCallsMap =>
                       (Service.mkRoundResult textContent
                          (List.map snd
                             (JSLib.sort_by (fun a b => a.1 - b.1)
                                (JsMap.entries toolCallsMap)))
                          None false, st1)
                   end).2
                = Service.copilotToken st).
  { intros [[r text] st1] [Hc Ht]. cbn [snd] in Hc, Ht.
    destruct r as [m | message]; [| destruct (Service.aborted st1)];
      cbn [snd]; rewrite Hc, Ht; split; reflexivity. }
  apply H.
  destruct (requestUrl remote tok messages _) as [wire | message] eqn:Hreq.
  - eapply service_quiet_trans; [apply (service_quiet_await remote _ Hpat) |].
    apply service_quiet_stream_steps. exact (Hwire _ _ _ _ Hreq).
  - apply (service_quiet_await remote _ Hpat).
Qed.

Lemma service_quiet_execute_tool_calls host remote names vaultPath tcs messages st :
  (forall n, updatePat_at remote n = None) ->
  service_quiet st (Service.execute_tool_calls host remote names vaultPath tcs messages st).2.
Proof.
  intros Hpat.
  revert messages st. induction tcs as [| tc tcs IH]; intros messages st;
    [apply service_quiet_refl |].
  cbn [Service.execute_tool_calls].
  destruct (Service.execute host names vaultPath _ _ _) as [result fs'].
  eapply service_quiet_trans; [| apply IH].
  eapply service_quiet_trans;
    [| split; [apply (proj1 (service_quiet_await remote _ Hpat))
              | apply (proj2 (service_quiet_await remote _ Hpat))]].
  split; reflexivity.
Qed.

Lemma service_fetchToken_places remote st :
  Service.calls (Service.fetchToken remote st).2 = List.app (Service.calls st) [TokenFetch]
  /\ (forall tok, (Service.fetchToken remote st).1 = Ok tok ->
                  Service.copilotToken (Service.fetchToken remote st).2 <> None).
Proof.
  unfold Service.fetchToken.
  destruct (fetchCopilotToken remote _ _) as [t | message]; cbn [fst snd].
  - split; [| intros tok _; service_fields; discriminate].
    service_fields. rewrite calls_service_await. reflexivity.
  - split; [| intros tok H; discriminate].
    rewrite calls_service_await. reflexivity.
Qed.

(** [ensureCopilotToken] looks at the credential or fetches one, and when
    it returns the service holds a credential. *)
Lemma service_ensureCopilotToken_checks remote st :
  exists cs,
    Service.calls (Service.ensureCopilotToken remote st).2 = List.app (Service.calls st) cs
    /\ rechecked true cs = true
    /\ (forall fresh, fresh_after fresh cs = true)
    /\ (forall tok, (Service.ensureCopilotToken remote st).1 = Ok tok ->
                    Service.copilotToken (Service.ensureCopilotToken remote st).2 <> None).
Proof.
  unfold Service.ensureCopilotToken.
  destruct (Service.copilotToken st) as [t |] eqn:Et.
  - destruct (isTokenExpired _ _ _) eqn:Ex; cbn [negb].
    + match goal with
      | |- context [Service.fetchToken remote ?s] =>
          destruct (service_fetchToken_places remote s) as [Hc Ht]
      end.
      exists [ExpiryCheck true; TokenFetch].
      split; [rewrite Hc; service_fields; rewrite <- List.app_assoc; reflexivity |].
      split; [reflexivity |]. split; [reflexivity | exact Ht].
    + exists [ExpiryCheck false].
      split; [reflexivity |]. split; [reflexivity |]. split; [reflexivity |].
      intros tok _. service_fields. rewrite Et. discriminate.
  - destruct (service_fetchToken_places remote st) as [Hc Ht].
    exists [TokenFetch]. split; [exact Hc |]. split; [reflexivity |].
    split; [reflexivity | exact Ht].
Qed.

(** What C9 asks for holds in the queries of the service during which
    nobody puts in another secret: while it holds a credential, the loop
    looks at its expiry between the tools of a round and the request of the
    next. *)
Lemma service_rounds_loop_rechecks host remote names vaultPath left tok messages st :
  pat_stays remote ->
  Service.copilotToken st <> None ->
  exists cs,
    Service.calls (Service.rounds_loop host remote names vaultPath left tok messages st).2
    = List.app (Service.calls st) cs
    /\ rechecked true cs = true.
Proof.
  intros Hstays.
  revert tok messages st. induction left as [| left IH]; intros tok messages st Hsome.
  - exists []. rewrite List.app_nil_r. split; reflexivity.
  - cbn [Service.rounds_loop].
    destruct (service_streamOneRound_places remote tok messages st Hstays) as [Hc1 Ht1].
    destruct (Service.streamOneRound remote tok messages st) as [roundResult st1].
    cbn [snd] in Hc1, Ht1.
    assert (Hone : exists cs, Service.calls st1 = List.app (Service.calls st) cs
                              /\ rechecked true cs = true).
    { exists [ChatRequest tok]. split; [exact Hc1 | reflexivity]. }
    destruct (Service.round_aborted roundResult); [exact Hone |].
    destruct (Service.round_error roundResult); [exact Hone |].
    destruct (Service.toolCalls roundResult) as [| tc tcs]; [exact Hone |].
    match goal with
    | |- context [Service.execute_tool_calls host remote names vaultPath ?l ?ms st1] =>
        pose proof (service_quiet_execute_tool_calls host remote names vaultPath l ms st1
                      (proj1 Hstays))
          as [Hc2 Ht2];
        destruct (Service.execute_tool_calls host remote names vaultPath l ms st1)
          as [messages2 st2]
    end.
    cbn [snd] in Hc2, Ht2.
    destruct (Service.copilotToken st2) as [t |] eqn:Et2; [| congruence].
    destruct (isTokenExpired _ _ _) eqn:Ex.
    + match goal with
      | |- context [Service.ensureCopilotToken remote ?s] =>
          destruct (service_ensureCopilotToken_checks remote s) as (cs & Hc3 & Hr3 & Hf3 & Ht3);
          destruct (Service.ensureCopilotToken remote s) as [[tok' | message] st3]
      end; cbn [fst snd] in Hc3, Ht3 |- *.
      * destruct (IH tok' messages2 st3 (Ht3 tok' eq_refl)) as (cs' & Hc4 & Hr4).
        exists (List.app (ChatRequest tok :: ExpiryCheck true :: cs) cs').
        split.
        -- rewrite Hc4, Hc3. service_fields. rewrite Hc2, Hc1.
           rewrite <- !List.app_assoc. reflexivity.
        -- rewrite rechecked_app.
           cbn [rechecked is_check andb fresh_after List.fold_left].
           fold (fresh_after true cs). rewrite Hr3, Hf3, Hr4. reflexivity.
      * exists (ChatRequest tok :: ExpiryCheck true :: cs).
        split.
        -- rewrite Hc3. service_fields. rewrite Hc2, Hc1.
           rewrite <- !List.app_assoc. reflexivity.
        -- cbn [rechecked is_check andb]. exact Hr3.
    + match goal with
      | |- context [Service.rounds_loop host remote names vaultPath left tok messages2 ?s] =>
          destruct (IH tok messages2 s) as (cs' & Hc4 & Hr4)
      end.
      { service_fields. rewrite Et2. discriminate. }
      exists (List.app [ChatRequest tok; ExpiryCheck false] cs').
      split.
      * rewrite Hc4. service_fields. rewrite Hc2, Hc1.
        rewrite <- !List.app_assoc. reflexivity.
      * rewrite rechecked_app. cbn. exact Hr4.
Qed.

Lemma service_query_rechecks host remote names stringify vaultPath prompt images history st :
  pat_stays remote ->
  exists cs,
    Service.calls
      (Service.query host remote names stringify vaultPath prompt images history st).2
    = List.app (Service.calls st) cs
    /\ rechecked true cs = true.
Proof.
  intros Hstays.
  unfold Service.query.
  destruct (negb (Js.nonempty (Service.pat st))).
  { exists []. rewrite List.app_nil_r. split; reflexivity. }
  destruct (service_ensureCopilotToken_checks remote st) as (cs & Hc & Hr & Hf & Ht).
  destruct (Service.ensureCopilotToken remote st) as [[tok | message] st1];
    cbn [fst snd] in Hc, Ht |- *.
  - match goal with
    | |- context [Service.rounds_loop host remote names vaultPath ?n tok ?ms ?s] =>
        destruct (service_rounds_loop_rechecks host remote names vaultPath n tok ms s Hstays)
          as (cs' & Hc' & Hr');
        [service_fields; apply (Ht tok eq_refl) |];
        destruct (Service.rounds_loop host remote names vaultPath n tok ms s)
          as [[r messages2] st2]
    end.
    cbn [snd] in Hc'.
    exists (List.app cs cs'). split.
    + assert (E : Service.calls st2 = List.app (Service.calls st) (List.app cs cs')).
      { rewrite Hc'. service_fields. rewrite Hc, <- List.app_assoc. reflexivity. }
      destruct r as [[|] | message]; try destruct (negb (Service.aborted st2));
        cbn [snd]; service_fields; exact E.
    + rewrite rechecked_app, Hr, Hf, Hr'. reflexivity.
  - exists cs. split; [exact Hc | exact Hr].
Qed.

(** ** The round accumulators in general *)

(** *** Maps in insertion order *)

Lemma get_map_values {V W : Type} (g : V -> W) (m : JsMap.t V) k :
  JsMap.get (List.map (fun e => (e.1, g e.2)) m) k = option_map g (JsMap.get m k).
Proof.
  induction m as [| [k' v] m IH]; [reflexivity |].
  simpl. destruct (k' =? k); [reflexivity | exact IH].
Qed.

Lemma set_map_values {V W : Type} (g : V -> W) (m : JsMap.t V) k v :
  List.map (fun e => (e.1, g e.2)) (JsMap.set m k v)
  = JsMap.set (List.map (fun e => (e.1, g e.2)) m) k (g v).
Proof.
  induction m as [| [k' v'] m IH]; [reflexivity |].
  simpl. destruct (k' =? k); simpl; [reflexivity | rewrite IH; reflexivity].
Qed.

Lemma get_tabulated {V : Type} (h : Z -> V) (l : list Z) k :
  JsMap.get (List.map (fun i => (i, h i)) l) k
  = if List.existsb (Z.eqb k) l then Some (h k) else None.
Proof.
  induction l as [| i l IH]; [reflexivity |].
  simpl. rewrite (Z.eqb_sym k i).
  destruct (i =? k) eqn:E; simpl; [| exact IH].
  apply Z.eqb_eq in E. subst. reflexivity.
Qed.

Lemma existsb_eqb_In k (l : list Z) : List.existsb (Z.eqb k) l = true <-> In k l.
Proof.
  rewrite List.existsb_exists. split.
  - intros [x [Hx E]]. apply Z.eqb_eq in E. subst. exact Hx.
  - intros H. exists k. split; [exact H | apply Z.eqb_refl].
Qed.

Lemma existsb_eqb_not_In k (l : list Z) : List.existsb (Z.eqb k) l = false <-> ~ In k l.
Proof.
  split.
  - intros H Hin. apply existsb_eqb_In in Hin. congruence.
  - intros H. destruct (List.existsb (Z.eqb k) l) eqn:E; [| reflexivity].
    apply existsb_eqb_In in E. contradiction.
Qed.

Lemma set_tabulated_absent {V : Type} (h : Z -> V) (l : list Z) k v :
  ~ In k l ->
  JsMap.set (List.map (fun i => (i, h i)) l) k v
  = List.app (List.map (fun i => (i, h i)) l) [(k, v)].
Proof.
  induction l as [| i l IH]; intros Hk; [reflexivity |].
  simpl. destruct (i =? k) eqn:E.
  - apply Z.eqb_eq in E. subst. exfalso. apply Hk. left. reflexivity.
  - rewrite IH; [reflexivity |]. intros Hin. apply Hk. right. exact Hin.
Qed.

Lemma map_tabulated_ext {V : Type} (h h' : Z -> V) (l : list Z) :
  (forall i, In i l -> h i = h' i) ->
  List.map (fun i => (i, h i)) l = List.map (fun i => (i, h' i)) l.
Proof.
  intros H. apply List.map_ext_in. intros i Hi. rewrite (H i Hi). reflexivity.
Qed.

Lemma set_tabulated_present {V : Type} (h : Z -> V) (l : list Z) k v :
  List.NoDup l -> In k l ->
  JsMap.set (List.map (fun i => (i, h i)) l) k v
  = List.map (fun i => (i, if i =? k then v else h i)) l.
Proof.
  induction l as [| i l IH]; intros Hnd Hk; [destruct Hk |].
  inversion Hnd as [| ? ? Hi Hnd']; subst.
  simpl. destruct (i =? k) eqn:E.
  - apply Z.eqb_eq in E. subst. f_equal.
    apply map_tabulated_ext. intros j Hj.
    destruct (j =? k) eqn:Ej; [| reflexivity].
    apply Z.eqb_eq in Ej. subst. contradiction.
  - f_equal. apply IH; [exact Hnd' |].
    destruct Hk as [-> | Hk]; [rewrite Z.eqb_refl in E; discriminate | exact Hk].
Qed.

(** *** Texts *)

Lemma append_nil_r (s : string) : s +:+ "" = s.
Proof.
  induction s as [| c s IH]; [reflexivity |].
  change (String c (s +:+ "") = String c s). f_equal. exact IH.
Qed.

Lemma append_assoc (a b c : string) : (a +:+ b) +:+ c = a +:+ (b +:+ c).
Proof.
  induction a as [| x a IH]; [reflexivity |].
  change (String x ((a +:+ b) +:+ c) = String x (a +:+ (b +:+ c))). f_equal. exact IH.
Qed.

Lemma concat_all_app (l1 l2 : list string) :
  concat_all (List.app l1 l2) = concat_all l1 +:+ concat_all l2.
Proof.
  induction l1 as [| s l1 IH]; simpl; [reflexivity |].
  change (concat_all (s :: List.app l1 l2)) with (s +:+ concat_all (List.app l1 l2)).
  rewrite IH. symmetry. apply append_assoc.
Qed.

Lemma default_truthy_string (o : option string) :
  default "" (truthy_string o) = default "" o.
Proof.
  destruct o as [s |]; [| reflexivity].
  unfold truthy_string, Js.nonempty.
  destruct (String.eqb_spec s ""); simpl; [subst; reflexivity | reflexivity].
Qed.

(** *** The positions of a round *)

Lemma positions_snoc fragments f :
  positions (List.app fragments [f])
  = if List.existsb (Z.eqb (index f)) (positions fragments) then positions fragments
    else List.app (positions fragments) [index f].
Proof. unfold positions. rewrite List.fold_left_app. reflexivity. Qed.

Lemma positions_NoDup fragments : List.NoDup (positions fragments).
Proof.
  induction fragments as [| f fragments IH] using List.rev_ind; [constructor |].
  rewrite positions_snoc.
  destruct (List.existsb (Z.eqb (index f)) (positions fragments)) eqn:E; [exact IH |].
  apply existsb_eqb_not_In in E.
  apply List.NoDup_rev in IH. rewrite <- (List.rev_involutive (List.app _ _)).
  apply List.NoDup_rev. rewrite List.rev_app_distr. simpl.
  constructor; [| exact IH].
  intros Hin. apply E. apply List.in_rev. exact Hin.
Qed.

Lemma at_position_snoc i fragments f :
  at_position i (List.app fragments [f])
  = List.app (at_position i fragments) (if index f =? i then [f] else []).
Proof. unfold at_position. rewrite List.filter_app. reflexivity. Qed.

Lemma at_position_unseen i fragments :
  ~ In i (positions fragments) -> at_position i fragments = [].
Proof.
  induction fragments as [| f fragments IH] using List.rev_ind; [reflexivity |].
  rewrite positions_snoc, at_position_snoc.
  destruct (List.existsb (Z.eqb (index f)) (positions fragments)) eqn:E; intros Hi.
  - apply existsb_eqb_In in E. rewrite (IH Hi).
    destruct (index f =? i) eqn:Ei; [| reflexivity].
    apply Z.eqb_eq in Ei. subst. contradiction.
  - rewrite List.in_app_iff in Hi.
    rewrite IH by tauto.
    destruct (index f =? i) eqn:Ei; [| reflexivity].
    apply Z.eqb_eq in Ei. subst. exfalso. apply Hi. right. left. reflexivity.
Qed.

Lemma said_at_unseen i fragments :
  ~ In i (positions fragments) -> said_at i fragments = ("", "").
Proof. intros H. unfold said_at. rewrite (at_position_unseen i fragments H). reflexivity. Qed.

Lemma said_at_snoc i fragments f :
  said_at i (List.app fragments [f])
  = if index f =? i then merge f (said_at i fragments) else said_at i fragments.
Proof.
  unfold said_at. rewrite at_position_snoc.
  destruct (index f =? i); [| rewrite List.app_nil_r; reflexivity].
  unfold merge, revealed_names, slices. cbn [fst snd].
  rewrite List.flat_map_app, List.map_app, concat_all_app. cbn [List.flat_map List.map].
  rewrite default_truthy_string.
  f_equal.
  - destruct (truthy_string (delta_name f)) as [n |]; simpl.
    + apply List.last_last.
    + rewrite List.app_nil_r. reflexivity.
  - f_equal. unfold concat_all. simpl. apply append_nil_r.
Qed.

(** *** Folding the fragments of a round *)

Lemma noted_is_reassembled fragments :
  List.fold_left note fragments [] = reassembled fragments.
Proof.
  induction fragments as [| f fragments IH] using List.rev_ind; [reflexivity |].
  rewrite List.fold_left_app. cbn [List.fold_left]. rewrite IH.
  unfold note, upsert, reassembled.
  rewrite get_tabulated, positions_snoc.
  destruct (List.existsb (Z.eqb (index f)) (positions fragments)) eqn:E.
  - apply existsb_eqb_In in E.
    rewrite set_tabulated_present by (try apply positions_NoDup; exact E).
    apply map_tabulated_ext. intros i Hi. rewrite said_at_snoc.
    rewrite (Z.eqb_sym (index f) i).
    destruct (i =? index f) eqn:Ei; [| reflexivity].
    apply Z.eqb_eq in Ei. subst. reflexivity.
  - apply existsb_eqb_not_In in E.
    rewrite set_tabulated_absent by exact E.
    rewrite List.map_app. cbn [List.map].
    f_equal.
    + apply map_tabulated_ext. intros i Hi. rewrite said_at_snoc.
      destruct (index f =? i) eqn:Ei; [| reflexivity].
      apply Z.eqb_eq in Ei. subst. contradiction.
    + rewrite said_at_snoc, Z.eqb_refl, (said_at_unseen _ _ E). reflexivity.
Qed.

Lemma get_set_same {V : Type} (m : JsMap.t V) k v : JsMap.get (JsMap.set m k v) k = Some v.
Proof.
  induction m as [| [k' v'] m IH]; simpl.
  - rewrite Z.eqb_refl. reflexivity.
  - destruct (k' =? k) eqn:E; simpl; [rewrite Z.eqb_refl; reflexivity |].
    rewrite E. exact IH.
Qed.

Lemma set_set {V : Type} (m : JsMap.t V) k v v' :
  JsMap.set (JsMap.set m k v) k v' = JsMap.set m k v'.
Proof.
  induction m as [| [k' w] m IH]; simpl.
  - rewrite Z.eqb_refl. reflexivity.
  - destruct (k' =? k) eqn:E; simpl; [rewrite Z.eqb_refl; reflexivity |].
    rewrite E, IH. reflexivity.
Qed.

Lemma descriptors_set m k v :
  descriptors (JsMap.set m k v) = JsMap.set (descriptors m) k (fn_name v, fn_arguments v).
Proof. apply (set_map_values (fun v => (fn_name v, fn_arguments v))). Qed.

Lemma descriptors_get m k :
  JsMap.get (descriptors m) k
  = option_map (fun v => (fn_name v, fn_arguments v)) (JsMap.get m k).
Proof. apply (get_map_values (fun v => (fn_name v, fn_arguments v))). Qed.

(** Both accumulators do to the name and the arguments of a position what
    [note] does. *)
Lemma plugin_on_tool_call_notes tc m :
  descriptors (Plugin.on_tool_call tc m).1 = note (descriptors m) tc.
Proof.
  unfold Plugin.on_tool_call, note, upsert, JsMap.has, merge.
  rewrite descriptors_get.
  destruct (JsMap.get m (index tc)) as [v |] eqn:Eg; cbn [negb option_map].
  - rewrite Eg.
    destruct (truthy_string (delta_id tc)), (truthy_string (delta_name tc)),
      (truthy_string (delta_arguments tc));
      cbn [fst snd]; rewrite descriptors_set; cbn [fst snd default fn_name fn_arguments];
      rewrite ?append_nil_r; reflexivity.
  - rewrite get_set_same.
    destruct (truthy_string (delta_id tc)), (truthy_string (delta_name tc)),
      (truthy_string (delta_arguments tc));
      cbn [fst snd]; rewrite set_set, descriptors_set; reflexivity.
Qed.

Lemma service_on_tool_call_notes remote tc m n :
  descriptors (Service.on_tool_call remote tc (m, n)).1 = note (descriptors m) tc.
Proof.
  unfold Service.on_tool_call, note, upsert, merge.
  rewrite descriptors_get.
  destruct (JsMap.get m (index tc)) as [v |] eqn:Eg; cbn [option_map].
  - destruct (truthy_string (delta_name tc)), (truthy_string (delta_arguments tc));
      cbn [fst snd]; rewrite descriptors_set; cbn [fst snd default fn_name fn_arguments];
      rewrite ?append_nil_r; reflexivity.
  - destruct (delta_id tc); cbn [fst snd]; rewrite descriptors_set;
      cbn [fst snd fn_name fn_arguments];
      rewrite !default_truthy_string; reflexivity.
Qed.

Lemma plugin_on_tool_calls_fold tcs m :
  (Plugin.on_tool_calls tcs m).1
  = List.fold_left (fun m tc => (Plugin.on_tool_call tc m).1) tcs m.
Proof.
  revert m. induction tcs as [| tc tcs IH]; intros m; [reflexivity |].
  cbn [Plugin.on_tool_calls List.fold_left].
  destruct (Plugin.on_tool_call tc m) as [m1 evs].
  specialize (IH m1).
  destruct (Plugin.on_tool_calls tcs m1) as [m2 evs']. exact IH.
Qed.

Lemma plugin_fold_notes tcs m :
  descriptors (List.fold_left (fun m tc => (Plugin.on_tool_call tc m).1) tcs m)
  = List.fold_left note tcs (descriptors m).
Proof.
  revert m. induction tcs as [| tc tcs IH]; intros m; [reflexivity |].
  cbn [List.fold_left]. rewrite IH, plugin_on_tool_call_notes. reflexivity.
Qed.

Lemma service_fold_notes remote tcs m n :
  descriptors (List.fold_left (fun m tc => Service.on_tool_call remote tc m) tcs (m, n)).1
  = List.fold_left note tcs (descriptors m).
Proof.
  revert m n. induction tcs as [| tc tcs IH]; intros m n; [reflexivity |].
  cbn [List.fold_left].
  pose proof (service_on_tool_call_notes remote tc m n) as H.
  destruct (Service.on_tool_call remote tc (m, n)) as [m1 n1].
  rewrite IH. cbn [fst] in H. rewrite H. reflexivity.
Qed.

Lemma plugin_on_choice_tool_calls ch acc :
  Plugin.toolCalls (Plugin.on_choice ch acc).1
  = List.fold_left (fun m tc => (Plugin.on_tool_call tc m).1)
      (default [] (delta_tool_calls (delta ch))) (Plugin.toolCalls acc).
Proof.
  unfold Plugin.on_choice.
  destruct (truthy_string (delta_content (delta ch)));
    destruct (delta_tool_calls (delta ch)) as [tcs |]; try reflexivity;
    change (default [] (Some tcs)) with tcs;
    rewrite <- plugin_on_tool_calls_fold;
    destruct (Plugin.on_tool_calls tcs (Plugin.toolCalls acc)); reflexivity.
Qed.

Lemma plugin_on_choices_tool_calls cs acc :
  Plugin.toolCalls (Plugin.on_choices cs acc).1
  = List.fold_left (fun m tc => (Plugin.on_tool_call tc m).1)
      (List.flat_map (fun ch => default [] (delta_tool_calls (delta ch))) cs)
      (Plugin.toolCalls acc).
Proof.
  revert acc. induction cs as [| ch cs IH]; intros acc; [reflexivity |].
  cbn [Plugin.on_choices List.flat_map].
  rewrite List.fold_left_app, <- plugin_on_choice_tool_calls.
  destruct (Plugin.on_choice ch acc) as [acc1 evs].
  specialize (IH acc1).
  destruct (Plugin.on_choices cs acc1) as [acc2 evs']. exact IH.
Qed.

Lemma plugin_accumulate_tool_calls chunks acc :
  Plugin.toolCalls (plugin_accumulate chunks acc)
  = List.fold_left (fun m tc => (Plugin.on_tool_call tc m).1)
      (plugin_fragments chunks) (Plugin.toolCalls acc).
Proof.
  revert acc. induction chunks as [| c chunks IH]; intros acc; [reflexivity |].
  unfold plugin_accumulate, plugin_fragments in *.
  cbn [List.fold_left List.flat_map].
  rewrite List.fold_left_app, IH, plugin_on_choices_tool_calls. reflexivity.
Qed.

(** The name and the arguments that the plug-in ends a round with are
    what the fragments say, position by position. *)
Lemma plugin_accumulate_reassembles chunks text :
  descriptors (Plugin.toolCalls (plugin_accumulate chunks (Plugin.mkRoundAcc text [])))
  = reassembled (plugin_fragments chunks).
Proof.
  rewrite plugin_accumulate_tool_calls, plugin_fold_notes. apply noted_is_reassembled.
Qed.

Lemma service_on_chunk_notes remote c text m n :
  descriptors (Service.on_chunk remote c text (m, n)).1.2.1
  = List.fold_left note
      (match choices c with
       | [] => []
       | ch :: _ => default [] (delta_tool_calls (delta ch))
       end)
      (descriptors m).
Proof.
  unfold Service.on_chunk.
  destruct (choices c) as [| ch rest]; [reflexivity |].
  destruct (truthy_string (delta_content (delta ch)));
    destruct (delta_tool_calls (delta ch)) as [tcs |]; try reflexivity;
    change (default [] (Some tcs)) with tcs; cbn [fst snd];
    apply service_fold_notes.
Qed.

Lemma service_accumulate_notes remote chunks text m n :
  descriptors (service_accumulate remote chunks (text, (m, n))).2.1
  = List.fold_left note (service_fragments chunks) (descriptors m).
Proof.
  revert text m n. induction chunks as [| c chunks IH]; intros text m n; [reflexivity |].
  unfold service_accumulate, service_fragments in *.
  cbn [List.fold_left List.flat_map fst snd].
  rewrite List.fold_left_app, <- (service_on_chunk_notes remote c text m n).
  destruct (Service.on_chunk remote c text (m, n)) as [[text1 [m1 n1]] out].
  cbn [fst snd]. apply IH.
Qed.

Lemma service_accumulate_reassembles remote chunks text n :
  descriptors (service_accumulate remote chunks (text, ([], n))).2.1
  = reassembled (service_fragments chunks).
Proof. rewrite service_accumulate_notes. apply noted_is_reassembled. Qed.

(** *** Sorting by position *)

Lemma insert_by_map_values {V W : Type} (g : V -> W) (x : Z * V) (l : list (Z * V)) :
  List.map (fun e => (e.1, g e.2)) (JSLib.insert_by (fun a b => a.1 - b.1) x l)
  = JSLib.insert_by (fun a b => a.1 - b.1) (x.1, g x.2)
      (List.map (fun e => (e.1, g e.2)) l).
Proof.
  induction l as [| y l IH]; [reflexivity |].
  cbn [JSLib.insert_by List.map fst snd].
  destruct (0 <? x.1 - y.1); cbn [List.map fst snd]; [rewrite IH |]; reflexivity.
Qed.

Lemma by_index_map_values {V W : Type} (g : V -> W) (m : JsMap.t V) :
  List.map (fun e => (e.1, g e.2)) (by_index m)
  = by_index (List.map (fun e => (e.1, g e.2)) m).
Proof.
  unfold by_index, JsMap.entries.
  induction m as [| x m IH]; [reflexivity |].
  cbn [JSLib.sort_by List.map]. rewrite insert_by_map_values, IH. reflexivity.
Qed.

Lemma insert_by_keys {V : Type} (x : Z * V) (l : list (Z * V)) :
  Permutation (JSLib.insert_by (fun a b => a.1 - b.1) x l) (x :: l).
Proof.
  induction l as [| y l IH]; [reflexivity |].
  cbn [JSLib.insert_by]. destruct (0 <? x.1 - y.1); [| reflexivity].
  rewrite IH. apply perm_swap.
Qed.

Lemma by_index_permutation {V : Type} (m : JsMap.t V) : Permutation (by_index m) m.
Proof.
  unfold by_index, JsMap.entries.
  induction m as [| x m IH]; [reflexivity |].
  cbn [JSLib.sort_by]. rewrite insert_by_keys, IH. reflexivity.
Qed.

Lemma insert_by_sorted {V : Type} (x : Z * V) (l : list (Z * V)) :
  Sorted (fun a b => a.1 <= b.1) l ->
  Sorted (fun a b => a.1 <= b.1) (JSLib.insert_by (fun a b => a.1 - b.1) x l).
Proof.
  induction l as [| y l IH]; intros Hs; [repeat constructor |].
  cbn [JSLib.insert_by].
  destruct (0 <? x.1 - y.1) eqn:E.
  - apply Z.ltb_lt in E.
    inversion Hs as [| ? ? Hs' Hhd]; subst.
    constructor; [apply IH; exact Hs' |].
    destruct l as [| z l]; cbn [JSLib.insert_by].
    + constructor. lia.
    + destruct (0 <? x.1 - z.1); constructor; [| lia].
      inversion Hhd; subst. assumption.
  - apply Z.ltb_ge in E. constructor; [exact Hs |]. constructor. lia.
Qed.

Lemma by_index_sorted {V : Type} (m : JsMap.t V) :
  Sorted (fun a b => a.1 <= b.1) (by_index m).
Proof.
  unfold by_index, JsMap.entries.
  induction m as [| x m IH]; [constructor |].
  cbn [JSLib.sort_by]. apply insert_by_sorted. exact IH.
Qed.

(** A list sorted by a key that does not repeat ascends strictly. *)
Lemma by_index_ascending {V : Type} (m : JsMap.t V) :
  List.NoDup (List.map fst m) ->
  StronglySorted Z.lt (List.map fst (by_index m)).
Proof.
  intros Hnd.
  assert (Hnd' : List.NoDup (List.map fst (by_index m))).
  { eapply Permutation_NoDup; [| exact Hnd].
    apply Permutation_map. symmetry. apply by_index_permutation. }
  assert (Hs : StronglySorted (fun a b : Z * V => a.1 <= b.1) (by_index m)).
  { apply Sorted_StronglySorted; [| apply by_index_sorted].
    intros a b c Hab Hbc. lia. }
  induction Hs as [| a l Hs IH Hall]; [constructor |].
  cbn [List.map] in *. inversion Hnd' as [| ? ? Hnotin Hnd'']; subst.
  constructor; [apply IH; exact Hnd'' |].
  rewrite List.Forall_forall in *. intros k Hk.
  apply List.in_map_iff in Hk. destruct Hk as [b [<- Hb]].
  specialize (Hall b Hb).
  assert (a.1 <> b.1).
  { intros Heq. apply Hnotin. rewrite Heq. apply List.in_map. exact Hb. }
  lia.
Qed.

Lemma keys_set {V : Type} (m : JsMap.t V) k v :
  List.map fst (JsMap.set m k v)
  = if JsMap.has m k then List.map fst m else List.app (List.map fst m) [k].
Proof.
  unfold JsMap.has.
  induction m as [| [k' v'] m IH]; [reflexivity |].
  cbn [JsMap.set JsMap.get]. destruct (k' =? k) eqn:E; cbn [List.map fst].
  - apply Z.eqb_eq in E. subst. reflexivity.
  - rewrite IH. destruct (JsMap.get m k); reflexivity.
Qed.

Lemma has_keys {V : Type} (m : JsMap.t V) k :
  JsMap.has m k = false -> ~ In k (List.map fst m).
Proof.
  unfold JsMap.has.
  induction m as [| [k' v'] m IH]; intros H; [intros [] |].
  cbn [JsMap.get] in H. destruct (k' =? k) eqn:E; [discriminate |].
  cbn [List.map fst]. intros [Hk | Hk].
  - subst. rewrite Z.eqb_refl in E. discriminate.
  - exact (IH H Hk).
Qed.

Lemma NoDup_keys_set {V : Type} (m : JsMap.t V) k v :
  List.NoDup (List.map fst m) -> List.NoDup (List.map fst (JsMap.set m k v)).
Proof.
  intros Hnd. rewrite keys_set.
  destruct (JsMap.has m k) eqn:E; [exact Hnd |].
  apply has_keys in E.
  apply List.NoDup_rev in Hnd. rewrite <- (List.rev_involutive (List.app _ _)).
  apply List.NoDup_rev. rewrite List.rev_app_distr. cbn [List.rev List.app].
  constructor; [| exact Hnd].
  intros Hin. apply E. apply List.in_rev. exact Hin.
Qed.

Lemma NoDup_keys_service_on_tool_call remote tc (m : JsMap.t ToolCall) n :
  List.NoDup (List.map fst m) ->
  List.NoDup (List.map fst (Service.on_tool_call remote tc (m, n)).1).
Proof.
  intros Hnd. unfold Service.on_tool_call.
  destruct (JsMap.get m (index tc)); [| destruct (delta_id tc)]; cbn [fst];
    apply NoDup_keys_set; exact Hnd.
Qed.

Lemma NoDup_keys_service_on_chunk remote c text (m : JsMap.t ToolCall) n :
  List.NoDup (List.map fst m) ->
  List.NoDup (List.map fst (Service.on_chunk remote c text (m, n)).1.2.1).
Proof.
  intros Hnd. unfold Service.on_chunk.
  destruct (choices c) as [| ch rest]; [exact Hnd |].
  destruct (truthy_string (delta_content (delta ch)));
    destruct (delta_tool_calls (delta ch)) as [tcs |]; cbn [fst snd]; try exact Hnd.
  all: revert m n Hnd; induction tcs as [| tc tcs IH]; intros m n Hnd; [exact Hnd |];
    cbn [List.fold_left];
    pose proof (NoDup_keys_service_on_tool_call remote tc m n Hnd) as H1;
    destruct (Service.on_tool_call remote tc (m, n)) as [m1 n1];
    apply IH; exact H1.
Qed.

Lemma NoDup_keys_stream_steps remote wire text (m : JsMap.t ToolCall) st :
  List.NoDup (List.map fst m) ->
  match (Service.stream_steps remote wire text m st).1.1 with
  | Ok m' => List.NoDup (List.map fst m')
  | Throw _ => True
  end.
Proof.
  revert text m st. induction wire as [| step wire IH]; intros text m st Hnd; [exact Hnd |].
  cbn [Service.stream_steps].
  destruct step as [line | | pat0 | message];
    [| apply IH; exact Hnd | apply IH; exact Hnd | exact I].
  destruct line as [| | | c]; try (apply IH; exact Hnd).
  pose proof (NoDup_keys_service_on_chunk remote c text m (Service.tick st) Hnd) as H1.
  destruct (Service.on_chunk remote c text (m, Service.tick st)) as [[text1 [m1 n1]] out].
  apply IH. exact H1.
Qed.

(** What holds of C4 in the service: the list that [streamOneRound]
    returns is the final map in strictly ascending order of position. *)
Lemma service_tool_calls_ascending remote tok messages st :
  exists entries,
    Service.toolCalls (Service.streamOneRound remote tok messages st).1
    = List.map snd entries
    /\ StronglySorted Z.lt (List.map fst entries).
Proof.
  unfold Service.streamOneRound.
  destruct (requestUrl remote tok messages _) as [wire | message].
  - pose proof (NoDup_keys_stream_steps remote wire "" []
                  (Service.await remote (Service.place (ChatRequest tok) st))
                  (List.NoDup_nil _)) as Hnd.
    destruct (Service.stream_steps remote wire "" [] _) as [[[m | message] text] st1];
      cbn [fst] in Hnd.
    + exists (by_index m). split; [reflexivity | apply by_index_ascending; exact Hnd].
    + exists []. split; [destruct (Service.aborted st1); reflexivity | constructor].
  - exists []. split; [| constructor].
    destruct (Service.aborted _); reflexivity.
Qed.

(** *** The accumulators are what the rounds run *)

Lemma plugin_emit_emit evs evs' st :
  Plugin.emit evs' (Plugin.emit evs st) = Plugin.emit (List.app evs evs') st.
Proof. unfold Plugin.emit. cbn. rewrite <- List.app_assoc. reflexivity. Qed.

Lemma plugin_stream_lines_accumulates chunks acc st :
  Plugin.aborted st = false ->
  exists evs,
    Plugin.stream_lines (plugin_wire chunks) acc st
    = (Some (plugin_accumulate chunks acc), Plugin.emit evs st).
Proof.
  revert acc st. induction chunks as [| c chunks IH]; intros acc st Ha.
  - exists []. destruct st. unfold Plugin.emit. cbn. rewrite List.app_nil_r. reflexivity.
  - cbn [plugin_wire List.map Plugin.stream_lines].
    rewrite Ha.
    unfold plugin_accumulate. cbn [List.fold_left].
    destruct (Plugin.on_choices (choices c) acc) as [acc1 evs].
    destruct (IH acc1 (Plugin.emit evs st) Ha) as [evs' H].
    exists (List.app evs evs'). rewrite <- plugin_emit_emit. exact H.
Qed.

Lemma service_yield_yield out out' n n' st :
  Service.yield out' (Service.set_tick n' (Service.yield out (Service.set_tick n st)))
  = Service.yield (List.app out out') (Service.set_tick n' st).
Proof. unfold Service.yield. cbn. rewrite <- List.app_assoc. reflexivity. Qed.

Lemma service_stream_steps_accumulates remote chunks text (m : JsMap.t ToolCall) st :
  exists out,
    Service.stream_steps remote (service_wire chunks) text m st
    = (Ok (service_accumulate remote chunks (text, (m, Service.tick st))).2.1,
       (service_accumulate remote chunks (text, (m, Service.tick st))).1,
       Service.yield out
         (Service.set_tick
            (service_accumulate remote chunks (text, (m, Service.tick st))).2.2 st)).
Proof.
  revert text m st. induction chunks as [| c chunks IH]; intros text m st.
  - exists []. destruct st. unfold Service.yield. cbn. rewrite List.app_nil_r. reflexivity.
  - cbn [service_wire List.map Service.stream_steps].
    unfold service_accumulate. cbn [List.fold_left fst snd].
    destruct (Service.on_chunk remote c text (m, Service.tick st))
      as [[text1 [m1 n1]] out] eqn:E.
    cbn [fst snd].
    destruct (IH text1 m1 (Service.yield out (Service.set_tick n1 st))) as [out' H].
    exists (List.app out out'). rewrite <- (service_yield_yield out out' n1).
    exact H.
Qed.

Lemma descriptors_by_index (m : JsMap.t ToolCall) :
  descriptors (by_index m) = by_index (descriptors m).
Proof. apply (by_index_map_values (fun v => (fn_name v, fn_arguments v))). Qed.



Example told_in_slices_reassembled :
  reassembled (plugin_fragments told_in_slices)
  = [(0, ("edit_file", "{a:1,b:2}")); (1, ("bash", "{c:3}"))].
Proof. reflexivity. Qed.

(** ** The cap on the rounds *)

(** *** The plug-in *)

Lemma none_of_app {A : Type} (p : A -> bool) (l1 l2 : list A) :
  none_of p l1 = true -> none_of p l2 = true -> none_of p (List.app l1 l2) = true.
Proof. unfold none_of. intros H1 H2. rewrite List.forallb_app, H1, H2. reflexivity. Qed.

Lemma rounds_of_snoc calls c :
  rounds_of (List.app calls [c]) = (rounds_of calls + if is_request c then 1 else 0)%nat.
Proof.
  unfold rounds_of. rewrite List.filter_app, List.length_app. cbn [List.filter].
  destruct (is_request c); reflexivity.
Qed.

Lemma quiet_on_tool_call tc m :
  none_of plugin_final (Plugin.on_tool_call tc m).2 = true.
Proof.
  unfold Plugin.on_tool_call.
  destruct (JsMap.get _ (index tc)); [| reflexivity].
  destruct (truthy_string (delta_id tc)), (truthy_string (delta_name tc)),
    (truthy_string (delta_arguments tc)); reflexivity.
Qed.

Lemma quiet_on_tool_calls tcs m :
  none_of plugin_final (Plugin.on_tool_calls tcs m).2 = true.
Proof.
  revert m. induction tcs as [| tc tcs IH]; intros m; [reflexivity |].
  cbn [Plugin.on_tool_calls].
  pose proof (quiet_on_tool_call tc m) as H1.
  destruct (Plugin.on_tool_call tc m) as [m1 evs].
  specialize (IH m1).
  destruct (Plugin.on_tool_calls tcs m1) as [m2 evs'].
  apply none_of_app; assumption.
Qed.

Lemma quiet_on_choice ch acc :
  none_of plugin_final (Plugin.on_choice ch acc).2 = true.
Proof.
  unfold Plugin.on_choice.
  destruct (truthy_string (delta_content (delta ch)));
    destruct (delta_tool_calls (delta ch)) as [tcs |]; try reflexivity;
    pose proof (quiet_on_tool_calls tcs (Plugin.toolCalls acc)) as H;
    destruct (Plugin.on_tool_calls tcs (Plugin.toolCalls acc)); exact H.
Qed.

Lemma quiet_on_choices cs acc :
  none_of plugin_final (Plugin.on_choices cs acc).2 = true.
Proof.
  revert acc. induction cs as [| ch cs IH]; intros acc; [reflexivity |].
  cbn [Plugin.on_choices].
  pose proof (quiet_on_choice ch acc) as H1.
  destruct (Plugin.on_choice ch acc) as [acc1 evs].
  specialize (IH acc1).
  destruct (Plugin.on_choices cs acc1) as [acc2 evs'].
  apply none_of_app; assumption.
Qed.

Lemma plugin_goes_on_refl st : Plugin.aborted st = false -> plugin_goes_on st st.
Proof.
  intros H. split; [exact H |]. exists []. rewrite List.app_nil_r. split; reflexivity.
Qed.

Lemma plugin_goes_on_trans st1 st2 st3 :
  plugin_goes_on st1 st2 -> plugin_goes_on st2 st3 -> plugin_goes_on st1 st3.
Proof.
  intros [_ [e1 [H1 Q1]]] [Ha [e2 [H2 Q2]]]. split; [exact Ha |].
  exists (List.app e1 e2). rewrite H2, H1, List.app_assoc. split; [reflexivity |].
  apply none_of_app; assumption.
Qed.

Lemma plugin_goes_on_emit evs st :
  Plugin.aborted st = false -> none_of plugin_final evs = true ->
  plugin_goes_on st (Plugin.emit evs st).
Proof. intros Ha Hq. split; [exact Ha |]. exists evs. split; [reflexivity | exact Hq]. Qed.

Lemma plugin_await_undisturbed remote st :
  cancel_at remote (Plugin.tick st) = false ->
  Plugin.await remote st = Plugin.set_tick (S (Plugin.tick st)) st.
Proof. intros H. unfold Plugin.await. rewrite H. reflexivity. Qed.

Lemma plugin_stream_lines_uncancelled wire acc st :
  plugin_uncancelled wire = true -> Plugin.aborted st = false ->
  exists evs,
    Plugin.stream_lines wire acc st
    = (Some (plugin_accumulate (plugin_chunks wire) acc), Plugin.emit evs st)
    /\ none_of plugin_final evs = true.
Proof.
  revert acc st. induction wire as [| step wire IH]; intros acc st Hu Ha.
  - exists []. split; [| reflexivity].
    destruct st. unfold Plugin.emit. cbn. rewrite List.app_nil_r. reflexivity.
  - cbn [plugin_uncancelled List.forallb] in Hu. apply andb_prop in Hu.
    destruct Hu as [Hstep Hu].
    destruct step as [line |]; [| discriminate Hstep].
    cbn [Plugin.stream_lines plugin_chunks]. rewrite Ha.
    destruct line as [| | | c].
    + apply IH; assumption.
    + exists []. split; [| reflexivity].
      destruct st. unfold Plugin.emit. cbn. rewrite List.app_nil_r. reflexivity.
    + apply IH; assumption.
    + unfold plugin_accumulate. cbn [List.fold_left].
      pose proof (quiet_on_choices (choices c) acc) as Hq.
      destruct (Plugin.on_choices (choices c) acc) as [acc1 evs]. cbn [fst snd] in *.
      destruct (IH acc1 (Plugin.emit evs st) Hu Ha) as [evs' [H Hq']].
      exists (List.app evs evs'). rewrite <- plugin_emit_emit. split; [exact H |].
      apply none_of_app; assumption.
Qed.

Lemma positions_nonempty fragments : positions fragments = [] -> fragments = [].
Proof.
  induction fragments as [| f fragments IH] using List.rev_ind; [reflexivity |].
  rewrite positions_snoc.
  destruct (List.existsb (Z.eqb (index f)) (positions fragments)) eqn:E; intros H.
  - rewrite H in E. discriminate E.
  - destruct (positions fragments); discriminate H.
Qed.

Lemma plugin_accumulate_nonempty chunks :
  nonempty_list (plugin_fragments chunks) = true ->
  exists tc tcs,
    JsMap.values (Plugin.toolCalls (plugin_accumulate chunks (Plugin.mkRoundAcc "" [])))
    = tc :: tcs.
Proof.
  intros Hne.
  pose proof (plugin_accumulate_reassembles chunks "") as H.
  destruct (Plugin.toolCalls (plugin_accumulate chunks (Plugin.mkRoundAcc "" [])))
    as [| [k v] m].
  - exfalso. unfold reassembled in H. symmetry in H. apply List.map_eq_nil in H.
    apply positions_nonempty in H. rewrite H in Hne. discriminate Hne.
  - exists v, (List.map snd m). reflexivity.
Qed.

Lemma plugin_accumulate_has_calls chunks :
  nonempty_list (plugin_fragments chunks) = true ->
  exists e m,
    Plugin.toolCalls (plugin_accumulate chunks (Plugin.mkRoundAcc "" [])) = e :: m.
Proof.
  intros Hne. destruct (plugin_accumulate_nonempty chunks Hne) as [tc [tcs H]].
  destruct (Plugin.toolCalls (plugin_accumulate chunks (Plugin.mkRoundAcc "" [])))
    as [| e m]; [discriminate H |].
  exists e, m. reflexivity.
Qed.

Lemma plugin_processRound_asks remote tok st :
  always_asks plugin_asks_for_tool remote ->
  Plugin.aborted st = false ->
  exists assistantMessage tc tcs st',
    Plugin.processRound remote tok st = (Ok (Some assistantMessage), st')
    /\ tool_calls assistantMessage = Some (tc :: tcs)
    /\ plugin_goes_on st st'
    /\ rounds_of (Plugin.calls st') = S (rounds_of (Plugin.calls st)).
Proof.
  intros (Hcancel & _ & Hasks) Ha.
  unfold Plugin.processRound.
  destruct (Hasks tok (Plugin.messages (Plugin.place (ChatRequest tok) st))
              (Plugin.model (Plugin.place (ChatRequest tok) st))) as [wire [Hreq Hw]].
  rewrite Hreq.
  rewrite plugin_await_undisturbed by apply Hcancel.
  set (st1 := Plugin.set_tick _ (Plugin.place (ChatRequest tok) st)).
  assert (Ha1 : Plugin.aborted st1 = false) by exact Ha.
  rewrite Ha1.
  unfold plugin_asks_for_tool in Hw. apply andb_prop in Hw. destruct Hw as [Hu Hne].
  destruct (plugin_stream_lines_uncancelled wire (Plugin.mkRoundAcc "" []) st1 Hu Ha1)
    as [evs [Hs Hq]].
  rewrite Hs.
  destruct (plugin_accumulate_has_calls _ Hne) as [e [m Hm]].
  set (acc := plugin_accumulate (plugin_chunks wire) (Plugin.mkRoundAcc "" [])) in *.
  rewrite Hm. cbn [JsMap.size List.length Nat.ltb Nat.leb JsMap.values List.map].
  eexists _, (snd e), (List.map snd m), _.
  split; [reflexivity |].
  split; [reflexivity |].
  split.
  - destruct (Js.nonempty (Plugin.fullText acc)).
    + split; [exact Ha |].
      exists (List.app evs [Plugin.TextDone (Plugin.fullText acc)]).
      split; [cbn; rewrite <- List.app_assoc; reflexivity |].
      apply none_of_app; [exact Hq | reflexivity].
    + split; [exact Ha |]. exists evs. split; [reflexivity | exact Hq].
  - destruct (Js.nonempty (Plugin.fullText acc)); unfold st1; fields;
      rewrite rounds_of_snoc; cbn [is_request]; lia.
Qed.

Lemma plugin_executeToolCalls_goes_on host remote vaultPath tcs results st :
  vault_compiles host vaultPath ->
  (forall n, cancel_at remote n = false) ->
  Plugin.aborted st = false ->
  exists results' st',
    Plugin.executeToolCalls host remote vaultPath tcs results st = (Some results', st')
    /\ plugin_goes_on st st'
    /\ Plugin.calls st' = Plugin.calls st.
Proof.
  intros Hvault Hcancel. revert results st.
  induction tcs as [| tc tcs IH]; intros results st Ha.
  - exists results, st. split; [reflexivity |].
    split; [apply plugin_goes_on_refl; exact Ha | reflexivity].
  - cbn [Plugin.executeToolCalls]. rewrite Ha.
    match goal with
    | |- context [Plugin.execute host vaultPath ?n ?a ?f] =>
        destruct (plugin_execute_settles host vaultPath n a f Hvault) as [result [fs' Hx]]
    end.
    rewrite Hx.
    rewrite plugin_await_undisturbed by apply Hcancel.
    match goal with
    | |- context [Plugin.executeToolCalls _ _ _ tcs ?r ?s] =>
        destruct (IH r s Ha) as [results' [st' [He [Hg Hc]]]]
    end.
    exists results', st'. split; [exact He |].
    split; [| rewrite Hc; reflexivity].
    eapply plugin_goes_on_trans; [| exact Hg].
    apply (plugin_goes_on_emit _ (Plugin.set_tick _ (Plugin.set_fs fs' st)));
      [exact Ha | reflexivity].
Qed.

Lemma plugin_goes_on_push ms st st' :
  plugin_goes_on st st' -> plugin_goes_on st (Plugin.push ms st').
Proof. intros H. exact H. Qed.

Lemma plugin_rounds_loop_runs_out host remote vaultPath left tok st :
  vault_compiles host vaultPath ->
  always_asks plugin_asks_for_tool remote ->
  Plugin.aborted st = false ->
  exists st',
    Plugin.rounds_loop host remote vaultPath left tok st = (Ok Plugin.Exhausted, st')
    /\ plugin_goes_on st st'
    /\ rounds_of (Plugin.calls st') = (rounds_of (Plugin.calls st) + left)%nat.
Proof.
  intros Hc Hasks. revert st. induction left as [| left IH]; intros st Ha.
  - exists st. split; [reflexivity |].
    split; [apply plugin_goes_on_refl; exact Ha | lia].
  - cbn [Plugin.rounds_loop]. rewrite Ha.
    destruct (plugin_processRound_asks remote tok st Hasks Ha)
      as (am & tc & tcs & st1 & Hp & Htc & Hg1 & Hr1).
    rewrite Hp, Htc.
    destruct (plugin_executeToolCalls_goes_on host remote vaultPath (tc :: tcs) [] st1
                Hc (proj1 Hasks) (proj1 Hg1)) as (results & st2 & He & Hg2 & Hc2).
    rewrite He. rewrite (proj1 Hg2).
    destruct (IH (Plugin.push results st2) (proj1 Hg2)) as (st3 & Hl & Hg3 & Hr3).
    exists st3. split; [exact Hl |].
    split.
    + eapply plugin_goes_on_trans; [exact Hg1 |].
      eapply plugin_goes_on_trans; [exact Hg2 | exact Hg3].
    + rewrite Hr3. change (Plugin.calls (Plugin.push results st2)) with (Plugin.calls st2).
      rewrite Hc2, Hr1. lia.
Qed.

Lemma plugin_ensureToken_answers remote st :
  always_asks plugin_asks_for_tool remote ->
  Plugin.aborted st = false ->
  exists tok st',
    Plugin.ensureToken remote st = (Ok tok, st')
    /\ Plugin.aborted st' = false
    /\ Plugin.events st' = Plugin.events st
    /\ rounds_of (Plugin.calls st') = rounds_of (Plugin.calls st).
Proof.
  intros (Hcancel & Hfetch & _) Ha.
  assert (Hrefresh : forall st0, Plugin.aborted st0 = false ->
            exists tok st',
              Plugin.refreshToken remote st0 = (Ok tok, st')
              /\ Plugin.aborted st' = false
              /\ Plugin.events st' = Plugin.events st0
              /\ rounds_of (Plugin.calls st') = rounds_of (Plugin.calls st0)).
  { intros st0 Ha0. unfold Plugin.refreshToken.
    destruct (Hfetch (Plugin.tick (Plugin.place TokenFetch st0))
                (Plugin.pat (Plugin.place TokenFetch st0))) as [t Ht].
    rewrite Ht. rewrite plugin_await_undisturbed by apply Hcancel.
    eexists _, _. split; [reflexivity |].
    split; [exact Ha0 |]. split; [reflexivity |].
    fields. rewrite rounds_of_snoc. cbn [is_request]. lia. }
  unfold Plugin.ensureToken.
  destruct (Plugin.this_token st) as [t |]; [| apply Hrefresh; exact Ha].
  destruct (isTokenExpired _ _ _).
  - destruct (Hrefresh (Plugin.place (ExpiryCheck true)
                          (Plugin.set_tick (S (Plugin.tick st)) st)) Ha)
      as (tok & st' & H & Ha' & He & Hr).
    exists tok, st'. split; [exact H |]. split; [exact Ha' |].
    split; [exact He |]. rewrite Hr. fields. rewrite rounds_of_snoc. cbn [is_request]. lia.
  - eexists _, _. split; [reflexivity |]. split; [exact Ha |].
    split; [reflexivity |]. fields. rewrite rounds_of_snoc. cbn [is_request]. lia.
Qed.

(** What holds of C3 in the plug-in, as the spec has it. *)
Lemma plugin_round_cap host remote vaultPath userMessage st :
  vault_compiles host vaultPath ->
  always_asks plugin_asks_for_tool remote ->
  let st' := Plugin.send host remote vaultPath userMessage st in
  rounds_of (Plugin.calls st') = (rounds_of (Plugin.calls st) + 25)%nat
  /\ exists evs,
       Plugin.events st'
       = List.app (Plugin.events st)
           (List.app evs [Plugin.TextDelta Plugin.max_rounds_notice; Plugin.Done])
       /\ none_of plugin_final evs = true.
Proof.
  intros Hc Hasks. unfold Plugin.send.
  set (st0 := Plugin.push _ (Plugin.set_abortController (Some false) st)).
  assert (Ha0 : Plugin.aborted st0 = false) by reflexivity.
  destruct (plugin_ensureToken_answers remote st0 Hasks Ha0)
    as (tok & st1 & He & Ha1 & Hev1 & Hr1).
  rewrite He.
  destruct (plugin_rounds_loop_runs_out host remote vaultPath Plugin.MAX_TOOL_ROUNDS tok st1
              Hc Hasks Ha1) as (st2 & Hl & [Ha2 [evs [Hev2 Hq]]] & Hr2).
  rewrite Hl. cbn zeta.
  split.
  - change (Plugin.calls (Plugin.emit _ st2)) with (Plugin.calls st2).
    rewrite Hr2, Hr1. reflexivity.
  - exists evs. split; [| exact Hq].
    change (Plugin.events (Plugin.emit ?e st2)) with (List.app (Plugin.events st2) e).
    rewrite Hev2, Hev1. change (Plugin.events st0) with (Plugin.events st).
    rewrite <- List.app_assoc. reflexivity.
Qed.

(** *** The service *)

Lemma service_goes_on_refl st : service_goes_on st st.
Proof. exists []. rewrite List.app_nil_r. split; reflexivity. Qed.

Lemma service_goes_on_trans st1 st2 st3 :
  service_goes_on st1 st2 -> service_goes_on st2 st3 -> service_goes_on st1 st3.
Proof.
  intros [e1 [H1 Q1]] [e2 [H2 Q2]].
  exists (List.app e1 e2). rewrite H2, H1, List.app_assoc. split; [reflexivity |].
  apply none_of_app; assumption.
Qed.

Lemma service_await_undisturbed remote st :
  cancel_at remote (Service.tick st) = false ->
  updatePat_at remote (Service.tick st) = None ->
  Service.await remote st = Service.set_tick (S (Service.tick st)) st.
Proof.
  intros Hc Hp. unfold Service.await, Service.meanwhile. rewrite Hp, Hc. reflexivity.
Qed.

Lemma quiet_service_on_chunk remote c text (m : JsMap.t ToolCall) n :
  none_of service_final (Service.on_chunk remote c text (m, n)).2 = true.
Proof.
  unfold Service.on_chunk.
  destruct (choices c) as [| ch rest]; [reflexivity |].
  destruct (truthy_string (delta_content (delta ch)));
    destruct (delta_tool_calls (delta ch)); reflexivity.
Qed.

Lemma service_stream_steps_undisturbed remote wire text (m : JsMap.t ToolCall) st :
  service_undisturbed wire = true ->
  exists out,
    Service.stream_steps remote wire text m st
    = (Ok (service_accumulate remote (service_chunks wire)
             (text, (m, Service.tick st))).2.1,
       (service_accumulate remote (service_chunks wire) (text, (m, Service.tick st))).1,
       Service.yield out
         (Service.set_tick
            (service_accumulate remote (service_chunks wire)
               (text, (m, Service.tick st))).2.2 st))
    /\ none_of service_final out = true.
Proof.
  revert text m st. induction wire as [| step wire IH]; intros text m st Hu.
  - exists []. split; [| reflexivity].
    destruct st. unfold Service.yield. cbn. rewrite List.app_nil_r. reflexivity.
  - cbn [service_undisturbed List.forallb] in Hu. apply andb_prop in Hu.
    destruct Hu as [Hstep Hu].
    destruct step as [line | | |]; try discriminate Hstep.
    cbn [Service.stream_steps service_chunks].
    destruct line as [| | | c]; try (apply IH; exact Hu).
    unfold service_accumulate. cbn [List.fold_left fst snd].
    pose proof (quiet_service_on_chunk remote c text m (Service.tick st)) as Hq.
    destruct (Service.on_chunk remote c text (m, Service.tick st))
      as [[text1 [m1 n1]] out] eqn:E.
    cbn [fst snd] in *.
    destruct (IH text1 m1 (Service.yield out (Service.set_tick n1 st)) Hu)
      as [out' [H Hq']].
    exists (List.app out out'). rewrite <- (service_yield_yield out out' n1).
    split; [exact H | apply none_of_app; assumption].
Qed.

Lemma insert_by_is_cons {A : Type} (cmp : A -> A -> Z) (x : A) (l : list A) :
  exists y l', JSLib.insert_by cmp x l = y :: l'.
Proof.
  destruct l as [| z l]; cbn [JSLib.insert_by]; [eexists _, _; reflexivity |].
  destruct (0 <? cmp x z); eexists _, _; reflexivity.
Qed.

Lemma service_accumulate_has_calls remote chunks n :
  nonempty_list (service_fragments chunks) = true ->
  exists tc tcs,
    List.map snd (by_index (service_accumulate remote chunks ("", ([], n))).2.1)
    = tc :: tcs.
Proof.
  intros Hne.
  pose proof (service_accumulate_reassembles remote chunks "" n) as H.
  destruct ((service_accumulate remote chunks ("", ([], n))).2.1) as [| e m].
  - exfalso. unfold reassembled in H. symmetry in H. apply List.map_eq_nil in H.
    apply positions_nonempty in H. rewrite H in Hne. discriminate Hne.
  - unfold by_index, JsMap.entries. cbn [JSLib.sort_by].
    destruct (insert_by_is_cons (fun a b : Z * ToolCall => a.1 - b.1) e
                (JSLib.sort_by (fun a b => a.1 - b.1) m)) as [y [l' Hy]].
    rewrite Hy. eexists _, _. reflexivity.
Qed.

Lemma service_streamOneRound_asks remote tok messages st :
  service_always_asks remote ->
  exists text tc tcs st',
    Service.streamOneRound remote tok messages st
    = (Service.mkRoundResult text (tc :: tcs) None false, st')
    /\ service_goes_on st st'
    /\ rounds_of (Service.calls st') = S (rounds_of (Service.calls st)).
Proof.
  intros ((Hcancel & _ & Hasks) & Hnopat).
  unfold Service.streamOneRound.
  destruct (Hasks tok messages (Service.selectedModel (Service.place (ChatRequest tok) st)))
    as [wire [Hreq Hw]].
  rewrite Hreq.
  rewrite service_await_undisturbed by first [apply Hcancel | apply Hnopat].
  unfold service_asks_for_tool in Hw. apply andb_prop in Hw. destruct Hw as [Hu Hne].
  set (st1 := Service.set_tick _ (Service.place (ChatRequest tok) st)).
  destruct (service_stream_steps_undisturbed remote wire "" [] st1 Hu) as [out [Hs Hq]].
  rewrite Hs.
  destruct (service_accumulate_has_calls remote (service_chunks wire) (Service.tick st1) Hne)
    as [tc [tcs Htc]].
  eexists _, tc, tcs, _. split; [rewrite <- Htc; reflexivity |].
  split.
  - exists out. split; [reflexivity | exact Hq].
  - unfold st1. service_fields. rewrite rounds_of_snoc. cbn [is_request]. lia.
Qed.

Lemma service_execute_tool_calls_goes_on host remote names vaultPath tcs messages st :
  (forall n, cancel_at remote n = false) ->
  (forall n, updatePat_at remote n = None) ->
  exists messages' st',
    Service.execute_tool_calls host remote names vaultPath tcs messages st
    = (messages', st')
    /\ service_goes_on st st'
    /\ Service.calls st' = Service.calls st.
Proof.
  intros Hcancel Hnopat. revert messages st.
  induction tcs as [| tc tcs IH]; intros messages st.
  - exists messages, st. split; [reflexivity |].
    split; [apply service_goes_on_refl | reflexivity].
  - cbn [Service.execute_tool_calls].
    destruct (Service.execute host names vaultPath _ _ _) as [result fs'].
    rewrite service_await_undisturbed by first [apply Hcancel | apply Hnopat].
    match goal with
    | |- context [Service.execute_tool_calls _ _ _ _ tcs ?ms ?s] =>
        destruct (IH ms s) as [messages' [st' [He [Hg Hc]]]]
    end.
    exists messages', st'. split; [exact He |].
    split; [| rewrite Hc; reflexivity].
    eapply service_goes_on_trans; [| exact Hg].
    eexists. split; [service_fields; rewrite <- List.app_assoc; reflexivity | reflexivity].
Qed.

Lemma service_ensureCopilotToken_answers remote st :
  service_always_asks remote ->
  exists tok st',
    Service.ensureCopilotToken remote st = (Ok tok, st')
    /\ Service.events st' = Service.events st
    /\ rounds_of (Service.calls st') = rounds_of (Service.calls st).
Proof.
  intros ((Hcancel & Hfetch & _) & Hnopat).
  assert (Hrefresh : forall st0,
            exists tok st',
              Service.fetchToken remote st0 = (Ok tok, st')
              /\ Service.events st' = Service.events st0
              /\ rounds_of (Service.calls st') = rounds_of (Service.calls st0)).
  { intros st0. unfold Service.fetchToken.
    destruct (Hfetch (Service.tick (Service.place TokenFetch st0))
                (Service.pat (Service.place TokenFetch st0))) as [t Ht].
    rewrite Ht. rewrite service_await_undisturbed by first [apply Hcancel | apply Hnopat].
    eexists _, _. split; [reflexivity |]. split; [reflexivity |].
    service_fields. rewrite rounds_of_snoc. cbn [is_request]. lia. }
  unfold Service.ensureCopilotToken.
  destruct (Service.copilotToken st) as [t |]; [| apply Hrefresh].
  destruct (isTokenExpired _ _ _); cbn [negb].
  - destruct (Hrefresh (Service.place (ExpiryCheck true)
                          (Service.set_tick (S (Service.tick st)) st)))
      as (tok & st' & H & He & Hr).
    exists tok, st'. split; [exact H |]. split; [exact He |].
    rewrite Hr. service_fields. rewrite rounds_of_snoc. cbn [is_request]. lia.
  - eexists _, _. split; [reflexivity |]. split; [reflexivity |].
    service_fields. rewrite rounds_of_snoc. cbn [is_request]. lia.
Qed.

Lemma service_rounds_loop_runs_out host remote names vaultPath left tok messages st :
  service_always_asks remote ->
  exists messages' st',
    Service.rounds_loop host remote names vaultPath left tok messages st
    = (Ok true, messages', st')
    /\ service_goes_on st st'
    /\ rounds_of (Service.calls st') = (rounds_of (Service.calls st) + left)%nat.
Proof.
  intros Hasks. revert tok messages st.
  induction left as [| left IH]; intros tok messages st.
  - exists messages, st. split; [reflexivity |].
    split; [apply service_goes_on_refl | lia].
  - cbn [Service.rounds_loop].
    destruct (service_streamOneRound_asks remote tok messages st Hasks)
      as (text & tc & tcs & st1 & Hs & Hg1 & Hr1).
    rewrite Hs.
    cbn [Service.round_aborted Service.round_error Service.toolCalls Service.textContent].
    match goal with
    | |- context [Service.execute_tool_calls _ _ _ _ ?cs ?ms ?s] =>
        destruct (service_execute_tool_calls_goes_on host remote names vaultPath cs ms s
                    (proj1 (proj1 Hasks)) (proj2 Hasks))
          as (messages2 & st2 & He & Hg2 & Hc2)
    end.
    rewrite He.
    assert (H12 : service_goes_on st st2)
      by (eapply service_goes_on_trans; eassumption).
    assert (Hr2 : rounds_of (Service.calls st2) = S (rounds_of (Service.calls st)))
      by (rewrite Hc2; exact Hr1).
    destruct (Service.copilotToken st2) as [t |].
    + destruct (isTokenExpired _ _ _).
      * destruct (service_ensureCopilotToken_answers remote
                    (Service.place (ExpiryCheck true)
                       (Service.set_tick (S (Service.tick st2)) st2)) Hasks)
          as (tok' & st3 & Hen & Hev3 & Hr3).
        rewrite Hen.
        destruct (IH tok' messages2 st3) as (messages4 & st4 & Hl & Hg4 & Hr4).
        exists messages4, st4. split; [exact Hl |].
        split.
        -- eapply service_goes_on_trans; [exact H12 |].
           eapply service_goes_on_trans; [| exact Hg4].
           exists []. rewrite List.app_nil_r. split; [exact Hev3 | reflexivity].
        -- rewrite Hr4, Hr3. service_fields. rewrite rounds_of_snoc. cbn [is_request]. lia.
      * match goal with
        | |- context [Service.rounds_loop _ _ _ _ left tok messages2 ?s] =>
            destruct (IH tok messages2 s) as (messages4 & st4 & Hl & Hg4 & Hr4)
        end.
        exists messages4, st4. split; [exact Hl |].
        split.
        -- eapply service_goes_on_trans; [exact H12 | exact Hg4].
        -- rewrite Hr4. service_fields. rewrite rounds_of_snoc. cbn [is_request]. lia.
    + destruct (IH tok messages2 st2) as (messages4 & st4 & Hl & Hg4 & Hr4).
      exists messages4, st4. split; [exact Hl |].
      split; [eapply service_goes_on_trans; eassumption | rewrite Hr4; lia].
Qed.

(** What the service does at the cap: it yields an error chunk. *)
Lemma service_round_cap host remote names stringify vaultPath prompt images history st :
  service_always_asks remote ->
  Js.nonempty (Service.pat st) = true ->
  let st' := (Service.query host remote names stringify vaultPath prompt images history st).2 in
  rounds_of (Service.calls st') = (rounds_of (Service.calls st) + 25)%nat
  /\ exists out,
       Service.events st'
       = List.app (Service.events st)
           (List.app out [Service.UiError "Max tool rounds (25) exceeded"])
       /\ none_of service_final out = true.
Proof.
  intros Hasks Hpat. unfold Service.query. rewrite Hpat. cbn [negb].
  destruct (service_ensureCopilotToken_answers remote st Hasks) as (tok & st1 & He & Hev1 & Hr1).
  rewrite He.
  match goal with
  | |- context [Service.rounds_loop _ _ _ _ _ tok ?ms ?s] =>
      destruct (service_rounds_loop_runs_out host remote names vaultPath
                  Service.MAX_TOOL_ROUNDS tok ms s Hasks)
        as (messages2 & st2 & Hl & [out [Hev2 Hq]] & Hr2)
  end.
  rewrite Hl. cbn zeta. service_fields.
  split.
  - rewrite Hr2. service_fields. rewrite Hr1. reflexivity.
  - exists out. split; [| exact Hq].
    rewrite Hev2. service_fields. rewrite Hev1, <- List.app_assoc. reflexivity.
Qed.

(** The cap on the rounds of both loops. With a model that asks for at
    least one tool call in every round, a token endpoint that answers,
    tools whose promises are settled and nobody cancelling or putting in
    another secret, both loops place exactly 25 requests and never a 26th.
    [AgentLoop.send] then emits the max-rounds notice as a text delta and
    calls [onDone], and nothing before them is an error or a completion.
    [CopilotService.query] then yields the error chunk
    [Max tool rounds (25) exceeded], and nothing before it is an error or
    a [done] chunk. *)
Theorem round_cap host vaultPath names stringify premote sremote
  userMessage pst prompt images history sst :
  vault_compiles host vaultPath ->
  always_asks plugin_asks_for_tool premote ->
  service_always_asks sremote ->
  Js.nonempty (Service.pat sst) = true ->
  (rounds_of (Plugin.calls (Plugin.send host premote vaultPath userMessage pst))
   = (rounds_of (Plugin.calls pst) + 25)%nat
   /\ exists evs,
        Plugin.events (Plugin.send host premote vaultPath userMessage pst)
        = List.app (Plugin.events pst)
            (List.app evs [Plugin.TextDelta Plugin.max_rounds_notice; Plugin.Done])
        /\ none_of plugin_final evs = true)
  /\ (rounds_of
        (Service.calls
           (Service.query host sremote names stringify vaultPath prompt images history sst).2)
      = (rounds_of (Service.calls sst) + 25)%nat
      /\ exists out,
           Service.events
             (Service.query host sremote names stringify vaultPath prompt images history sst).2
           = List.app (Service.events sst)
               (List.app out [Service.UiError "Max tool rounds (25) exceeded"])
           /\ none_of service_final out = true).
Proof.
  intros Hc Hp Hs Hpat. split.
  - apply plugin_round_cap; assumption.
  - apply service_round_cap; assumption.
Qed.

Lemma round_cap_witness :
  (rounds_of (Plugin.calls
                (Plugin.send quiet_host (always_asking Plugin.WLine) "/vault" "hi" plugin_0))
   = (rounds_of (Plugin.calls plugin_0) + 25)%nat
   /\ exists evs,
        Plugin.events
          (Plugin.send quiet_host (always_asking Plugin.WLine) "/vault" "hi" plugin_0)
        = List.app (Plugin.events plugin_0)
            (List.app evs [Plugin.TextDelta Plugin.max_rounds_notice; Plugin.Done])
        /\ none_of plugin_final evs = true)
  /\ (rounds_of
        (Service.calls
           (Service.query quiet_host (always_asking Service.SLine) TOOL_NAMES
              (fun _ => "{}") "/vault" "hi" 0%nat None service_0).2)
      = (rounds_of (Service.calls service_0) + 25)%nat
      /\ exists out,
           Service.events
             (Service.query quiet_host (always_asking Service.SLine) TOOL_NAMES
                (fun _ => "{}") "/vault" "hi" 0%nat None service_0).2
           = List.app (Service.events service_0)
               (List.app out [Service.UiError "Max tool rounds (25) exceeded"])
           /\ none_of service_final out = true).
Proof.
  apply (round_cap quiet_host "/vault" TOOL_NAMES (fun _ => "{}")
           (always_asking Plugin.WLine) (always_asking Service.SLine)
           "hi" plugin_0 "hi" 0%nat None service_0).
  - intros s rep. eexists. reflexivity.
  - split; [| split]; intros.
    + reflexivity.
    + eexists. reflexivity.
    + eexists. split; reflexivity.
  - split; [split; [| split] |]; intros.
    + reflexivity.
    + eexists. reflexivity.
    + eexists. split; reflexivity.
    + reflexivity.
  - reflexivity.
Defined.

(** ** The tools, in general *)

(** *** Paths that are turned away *)

(** X1. In the plug-in, a tool that takes a path and is given one that
    [resolvePath] turns away (the resolved path does not start with the
    vault path) returns the path-traversal error and leaves the file system
    as it is; this holds for [read_file], [write_file], [edit_file], [grep],
    [glob] and [list_directory] alike. *)
Theorem plugin_rejected_path_is_an_error_without_effect host vaultPath toolName args fs :
  In toolName ["read_file"; "write_file"; "edit_file"; "grep"; "glob"; "list_directory"] ->
  JS.startsWith
    (JS.path_resolve (cwd host) [vaultPath; plugin_path_argument toolName args])
    vaultPath = false ->
  Plugin.execute host vaultPath toolName args fs
  = (Some (mkToolResult "Error: Path traversal not allowed: path must be within the vault"
             true), fs).
Proof. apply plugin_rejected_path_has_no_effect. Qed.

Lemma plugin_rejected_path_is_an_error_without_effect_witness :
  Plugin.execute quiet_host "/vault" "write_file"
    {[ "file_path" := JStr "../etc/passwd"; "content" := JStr "x" ]} vault_fs
  = (Some (mkToolResult "Error: Path traversal not allowed: path must be within the vault"
             true), vault_fs).
Proof.
  apply (plugin_rejected_path_is_an_error_without_effect quiet_host "/vault" "write_file"
           {[ "file_path" := JStr "../etc/passwd"; "content" := JStr "x" ]} vault_fs).
  - right. left. reflexivity.
  - vm_compute. reflexivity.
Defined.

(** *** The shell *)

Lemma find_includes (command : string) (l : list string) blocked :
  In blocked l -> JS.includes command blocked = true ->
  exists b, List.find (fun blocked => JS.includes command blocked) l = Some b
            /\ In b l /\ JS.includes command b = true.
Proof.
  intros Hin Hinc.
  destruct (List.find (fun blocked => JS.includes command blocked) l) as [b |] eqn:Hf.
  - exists b. split; [reflexivity |]. apply List.find_some in Hf. exact Hf.
  - pose proof (List.find_none _ _ Hf blocked Hin) as H. cbn in H. congruence.
Qed.

(** X2. In the plug-in, a command that contains one of the blocked texts
    is never handed to the shell: [bash] returns an error that names a
    blocked text the command contains, whatever the host would have done
    with the command, and the file system is as it was. *)
Theorem plugin_blocked_commands_never_run host vaultPath args fs blocked :
  In blocked Plugin.blocklist ->
  JS.includes (Js.String_ (Js.get args "command")) blocked = true ->
  exists b,
    In b Plugin.blocklist
    /\ JS.includes (Js.String_ (Js.get args "command")) b = true
    /\ Plugin.execute host vaultPath "bash" args fs
       = (Some (mkToolResult ("Blocked dangerous command: " +:+ b) true), fs).
Proof.
  intros Hin Hinc.
  destruct (find_includes _ _ _ Hin Hinc) as (b & Hf & Hb & Hbi).
  exists b. split; [exact Hb |]. split; [exact Hbi |].
  unfold Plugin.execute.
  change (Plugin.dispatch host vaultPath "bash" args fs)
    with (Plugin.bash host vaultPath args fs).
  unfold Plugin.bash. rewrite Hf. reflexivity.
Qed.

Lemma plugin_blocked_commands_never_run_witness :
  exists b,
    In b Plugin.blocklist
    /\ JS.includes
         (Js.String_ (Js.get {[ "command" := JStr "sudo rm -rf / --no-preserve-root" ]}
                        "command")) b = true
    /\ Plugin.execute quiet_host "/vault" "bash"
         {[ "command" := JStr "sudo rm -rf / --no-preserve-root" ]} vault_fs
       = (Some (mkToolResult ("Blocked dangerous command: " +:+ b) true), vault_fs).
Proof.
  apply (plugin_blocked_commands_never_run quiet_host "/vault"
           {[ "command" := JStr "sudo rm -rf / --no-preserve-root" ]} vault_fs "rm -rf /").
  - left. reflexivity.
  - vm_compute. reflexivity.
Defined.

(** X3. In the service, a command that contains one of [BLOCKED_COMMANDS]
    is never handed to the shell either: [bash] returns an error that names
    a blocked text the command contains, and the file system is as it
    was. *)
Theorem service_blocked_commands_never_run host vaultPath args fs blocked :
  In blocked Service.BLOCKED_COMMANDS ->
  JS.includes (Service.string_or_empty (Js.get args "command")) blocked = true ->
  exists b,
    In b Service.BLOCKED_COMMANDS
    /\ JS.includes (Service.string_or_empty (Js.get args "command")) b = true
    /\ Service.bash host vaultPath args fs
       = (Ok (mkToolResult ("Blocked command: " +:+ b) true), fs).
Proof.
  intros Hin Hinc.
  destruct (find_includes _ _ _ Hin Hinc) as (b & Hf & Hb & Hbi).
  exists b. split; [exact Hb |]. split; [exact Hbi |].
  unfold Service.bash. rewrite Hf. reflexivity.
Qed.

Lemma service_blocked_commands_never_run_witness :
  exists b,
    In b Service.BLOCKED_COMMANDS
    /\ JS.includes
         (Service.string_or_empty (Js.get {[ "command" := JStr "mkfs.ext4 /dev/sda" ]}
                                     "command")) b = true
    /\ Service.bash quiet_host "/vault" {[ "command" := JStr "mkfs.ext4 /dev/sda" ]} vault_fs
       = (Ok (mkToolResult ("Blocked command: " +:+ b) true), vault_fs).
Proof.
  apply (service_blocked_commands_never_run quiet_host "/vault"
           {[ "command" := JStr "mkfs.ext4 /dev/sda" ]} vault_fs "mkfs").
  - right. right. left. reflexivity.
  - vm_compute. reflexivity.
Defined.

Lemma length_take n s : (String.length (JSLib.take n s) <= n)%nat.
Proof.
  revert s. induction n as [| n IH]; intros s; [cbn; lia |].
  destruct s as [| c s]; cbn; [lia |]. specialize (IH s). lia.
Qed.

Lemma length_take_chars n s : 0 <= n -> Z.of_nat (String.length (JSLib.take_chars n s)) <= n.
Proof. intros Hn. unfold JSLib.take_chars. pose proof (length_take (Z.to_nat n) s). lia. Qed.

(** X4. In the service, what [bash] and [grep] return of the output of
    the shell is at most 10000 characters long, when the shell itself does
    not throw: [bash] always returns such a result, and [grep] returns one
    unless its path is turned away. A shell that prints 12000 characters
    has its output cut to the first 10000. *)
Theorem service_shell_output_is_capped host vaultPath args fs :
  (forall cmd options fs0, exists out fs1, exec host cmd options fs0 = (Ok out, fs1)) ->
  (exists r fs', Service.bash host vaultPath args fs = (Ok r, fs') /\ capped r)
  /\ ((exists message, Service.grep host vaultPath args fs = (Throw message, fs))
      \/ exists r fs', Service.grep host vaultPath args fs = (Ok r, fs') /\ capped r).
Proof.
  intros Hexec. split.
  - unfold Service.bash.
    destruct (List.find _ Service.BLOCKED_COMMANDS) as [b |] eqn:Hf.
    + eexists _, _. split; [reflexivity |].
      apply List.find_some in Hf. destruct Hf as [Hin _].
      unfold capped. cbn [content].
      cbn in Hin. destruct Hin as [<- | [<- | [<- | [<- | [<- | []]]]]]; vm_compute; discriminate.
    + unfold Service.exec_then, bind, ret.
      match goal with
      | |- context [exec host ?c ?o fs] => destruct (Hexec c o fs) as (out & fs1 & ->)
      end.
      eexists _, _. split; [reflexivity |]. unfold capped.
      destruct (error out) as [e |]; cbn [content].
      * apply length_take_chars. lia.
      * unfold Js.or_else.
        destruct (Js.nonempty _); [apply length_take_chars; lia | vm_compute; discriminate].
  - unfold Service.grep, bind, lift.
    destruct (Service.path_or_vault host vaultPath args) as [searchPath | m];
      [| left; eexists; reflexivity].
    right. unfold Service.exec_then, bind, ret.
    match goal with
    | |- context [exec host ?c ?o fs] => destruct (Hexec c o fs) as (out & fs1 & ->)
    end.
    eexists _, _. split; [reflexivity |]. unfold capped.
    destruct (_ && _); cbn [content]; [vm_compute; discriminate |].
    unfold Js.or_else.
    destruct (Js.nonempty _); [apply length_take_chars; lia | vm_compute; discriminate].
Qed.

Lemma service_shell_output_is_capped_witness :
  ((exists r fs',
       Service.bash chatty_host "/vault" {[ "command" := JStr "cat big.log" ]} vault_fs
       = (Ok r, fs')
       /\ capped r)
   /\ ((exists message,
           Service.grep chatty_host "/vault" {[ "pattern" := JStr "todo" ]} vault_fs
           = (Throw message, vault_fs))
       \/ exists r fs',
            Service.grep chatty_host "/vault" {[ "pattern" := JStr "todo" ]} vault_fs
            = (Ok r, fs')
            /\ capped r))
  /\ Z.of_nat (String.length long_output) = 12000
  /\ Service.bash chatty_host "/vault" {[ "command" := JStr "cat big.log" ]} vault_fs
     = (Ok (mkToolResult (JSLib.take_chars 10000 long_output) false), vault_fs)
  /\ Service.grep chatty_host "/vault" {[ "pattern" := JStr "todo" ]} vault_fs
     = (Ok (mkToolResult (JSLib.take_chars 10000 long_output) false), vault_fs)
  /\ Z.of_nat (String.length (JSLib.take_chars 10000 long_output)) = 10000.
Proof.
  split.
  - split.
    + apply (service_shell_output_is_capped chatty_host "/vault"
               {[ "command" := JStr "cat big.log" ]} vault_fs).
      intros cmd options fs0. eexists _, _. reflexivity.
    + apply (service_shell_output_is_capped chatty_host "/vault"
               {[ "pattern" := JStr "todo" ]} vault_fs).
      intros cmd options fs0. eexists _, _. reflexivity.
  - repeat split; vm_compute; reflexivity.
Defined.

(** *** The listing of a directory *)

Lemma insert_by_permutation {A : Type} (cmp : A -> A -> Z) x (l : list A) :
  Permutation (JSLib.insert_by cmp x l) (x :: l).
Proof.
  induction l as [| y l IH]; [reflexivity |].
  cbn [JSLib.insert_by]. destruct (0 <? cmp x y); [| reflexivity].
  rewrite IH. apply perm_swap.
Qed.

Lemma sort_by_permutation {A : Type} (cmp : A -> A -> Z) (l : list A) :
  Permutation (JSLib.sort_by cmp l) l.
Proof.
  induction l as [| x l IH]; [reflexivity |].
  cbn [JSLib.sort_by]. rewrite insert_by_permutation, IH. reflexivity.
Qed.

Lemma code_unit_gt_le a b : 0 < JSLib.code_unit_compare a b -> code_unit_le b a.
Proof.
  unfold code_unit_le, JSLib.code_unit_compare.
  rewrite (String.compare_antisym a b).
  destruct (String.compare b a); cbn; lia.
Qed.

Lemma insert_by_code_unit_sorted x l :
  Sorted code_unit_le l -> Sorted code_unit_le (JSLib.insert_by JSLib.code_unit_compare x l).
Proof.
  induction l as [| y l IH]; intros Hs; [repeat constructor |].
  cbn [JSLib.insert_by].
  destruct (0 <? JSLib.code_unit_compare x y) eqn:E.
  - apply Z.ltb_lt in E. inversion Hs as [| ? ? Hs' Hhd]; subst.
    constructor; [apply IH; exact Hs' |].
    destruct l as [| z l]; cbn [JSLib.insert_by].
    + constructor. apply code_unit_gt_le. exact E.
    + destruct (0 <? JSLib.code_unit_compare x z).
      * constructor. inversion Hhd; subst. assumption.
      * constructor. apply code_unit_gt_le. exact E.
  - apply Z.ltb_ge in E. constructor; [exact Hs |]. constructor. exact E.
Qed.

Lemma sort_by_code_unit_sorted l :
  Sorted code_unit_le (JSLib.sort_by JSLib.code_unit_compare l).
Proof.
  induction l as [| x l IH]; [constructor |].
  cbn [JSLib.sort_by]. apply insert_by_code_unit_sorted. exact IH.
Qed.

(** X5. In the service, [ls] lists the directories first, each once and
    with a slash after its name, then the regular files, each once, both
    groups in ascending order of their code units. Entries that
    [isDirectory()] and [isFile()] both deny, such as a socket, are left
    out. The listing is no error and changes nothing. *)
Theorem service_ls_lists_directories_first host vaultPath args fs dirPath entries :
  Service.path_or_vault host vaultPath args = Ok dirPath ->
  Fs.readdir fs dirPath = Ok entries ->
  exists dirs_ files_,
    Service.ls host vaultPath args fs
    = (Ok (mkToolResult
             (Js.or_else (JS.join JSLib.nl (List.app dirs_ files_)) "(empty directory)")
             false), fs)
    /\ Permutation dirs_
         (List.map (fun e => Fs.name e +:+ "/") (List.filter Fs.isDirectory entries))
    /\ Permutation files_ (List.map Fs.name (List.filter Fs.isFile entries))
    /\ Sorted code_unit_le dirs_
    /\ Sorted code_unit_le files_.
Proof.
  intros Hp Hr. unfold Service.ls, bind, lift, reads, ret. rewrite Hp, Hr.
  eexists _, _. split; [reflexivity |].
  repeat split; try apply sort_by_permutation; apply sort_by_code_unit_sorted.
Qed.

Lemma service_ls_lists_directories_first_witness :
  (exists entries,
      Fs.readdir listing_fs "/vault" = Ok entries
      /\ In (Fs.mkDirent ".obsidian.sock" Fs.UV_DIRENT_SOCKET) entries
      /\ exists dirs_ files_,
           Service.ls quiet_host "/vault" ∅ listing_fs
           = (Ok (mkToolResult
                    (Js.or_else (JS.join JSLib.nl (List.app dirs_ files_))
                       "(empty directory)")
                    false), listing_fs)
           /\ Permutation dirs_
                (List.map (fun e => Fs.name e +:+ "/") (List.filter Fs.isDirectory entries))
           /\ Permutation files_ (List.map Fs.name (List.filter Fs.isFile entries))
           /\ Sorted code_unit_le dirs_
           /\ Sorted code_unit_le files_)
  /\ Service.ls quiet_host "/vault" ∅ listing_fs
     = (Ok (mkToolResult ("notes/" +:+ JSLib.nl +:+ "a.md" +:+ JSLib.nl +:+ "b.md") false),
        listing_fs).
Proof.
  split; [| vm_compute; reflexivity].
  eexists. split; [vm_compute; reflexivity |].
  split; [simpl; tauto |].
  apply (service_ls_lists_directories_first quiet_host "/vault" ∅ listing_fs "/vault");
    vm_compute; reflexivity.
Defined.





(** *** The window of [read_file] *)

Lemma exact_iff (z : Z) : Number.exact z = true <-> Z.abs z <= 2 ^ 53.
Proof. unfold Number.exact. apply Z.leb_le. Qed.

Lemma add_whole (x y : Z) :
  Z.abs x <= 2 ^ 53 -> Z.abs y <= 2 ^ 53 -> Z.abs (x + y) <= 2 ^ 53 ->
  Number.add (Whole x) (Whole y) = Whole (x + y).
Proof.
  intros Hx Hy Hxy. unfold Number.add, Number.of_whole.
  rewrite (proj2 (exact_iff x) Hx), (proj2 (exact_iff y) Hy), (proj2 (exact_iff _) Hxy).
  reflexivity.
Qed.

Lemma sub_whole (x y : Z) :
  Z.abs x <= 2 ^ 53 -> Z.abs y <= 2 ^ 53 -> Z.abs (x - y) <= 2 ^ 53 ->
  Number.sub (Whole x) (Whole y) = Whole (x - y).
Proof.
  intros Hx Hy Hxy. unfold Number.sub, Number.of_whole.
  rewrite (proj2 (exact_iff x) Hx), (proj2 (exact_iff y) Hy), (proj2 (exact_iff _) Hxy).
  reflexivity.
Qed.

Lemma to_index_whole (len z : Z) : Z.abs z <= 2 ^ 53 -> Number.to_index len (Whole z) = z.
Proof. intros Hz. unfold Number.to_index. now rewrite (proj2 (exact_iff z) Hz). Qed.

(** The label of a line: the whole numbers print as the integers do. *)
Lemma label_whole (start i : Z) :
  0 <= start -> 0 <= i -> start + i + 1 <= 2 ^ 53 ->
  Number.toString (Number.add (Number.add (Whole start) (Whole i)) (Whole 1))
  = pretty (start + i + 1).
Proof.
  intros Hs Hi Hb.
  rewrite (add_whole start i), (add_whole (start + i) 1) by lia.
  unfold Number.toString. now rewrite (proj2 (exact_iff _)) by lia.
Qed.

Lemma numbered_combine (lines : list string) k0 s k n :
  (k = k0 + s)%nat -> (k + n <= List.length lines)%nat ->
  Z.of_nat (k + n) <= 2 ^ 53 ->
  List.map (fun il : nat * string =>
              Number.toString
                (Number.add (Number.add (Whole (Z.of_nat k0)) (Whole (Z.of_nat il.1)))
                   (Whole 1))
              +:+ JSLib.tab +:+ il.2)
    (List.combine (List.seq s n) (List.firstn n (List.skipn k lines)))
  = numbered_window lines k n.
Proof.
  revert s k. induction n as [| n IH]; intros s k Hk Hlen Hb; [reflexivity |].
  assert (Hlt : (k < List.length lines)%nat) by lia.
  destruct (List.skipn k lines) as [| x rest] eqn:Hs.
  { apply (f_equal (@List.length _)) in Hs. rewrite List.length_skipn in Hs.
    cbn in Hs. lia. }
  assert (Hx : List.nth k lines "" = x).
  { rewrite <- (List.firstn_skipn k lines) at 1.
    rewrite List.app_nth2; rewrite List.length_firstn; [| lia].
    rewrite Hs. replace (k - Init.Nat.min k (List.length lines))%nat with O by lia.
    reflexivity. }
  assert (Hrest : List.skipn (S k) lines = rest).
  { replace (S k) with (1 + k)%nat by lia.
    rewrite <- List.skipn_skipn, Hs. reflexivity. }
  unfold numbered_window.
  cbn [List.seq List.firstn List.combine List.map fst snd].
  f_equal.
  - rewrite Hx, label_whole by lia. do 2 f_equal. lia.
  - rewrite <- Hrest. apply (IH (S s) (S k)); lia.
Qed.

Lemma slice_window (lines : list string) (start limit : Z) :
  0 <= start <= 2 ^ 52 -> 0 <= limit <= 2 ^ 52 ->
  let k := Z.to_nat (Z.min start (Z.of_nat (List.length lines))) in
  let n := Z.to_nat (Z.min limit (Z.of_nat (List.length lines) - start)) in
  JSLib.slice lines (Whole start) (Whole (start + limit))
  = List.firstn n (List.skipn k lines)
  /\ JSLib.slice lines (Whole start)
       (Whole (Z.min (Z.of_nat (List.length lines)) (start + limit)))
     = List.firstn n (List.skipn k lines).
Proof.
  intros Hs Hl k n. unfold JSLib.slice.
  rewrite !to_index_whole by lia.
  destruct (start <? 0) eqn:E1; [apply Z.ltb_lt in E1; lia |].
  destruct (start + limit <? 0) eqn:E2; [apply Z.ltb_lt in E2; lia |].
  destruct (Z.min (Z.of_nat (List.length lines)) (start + limit) <? 0) eqn:E3;
    [apply Z.ltb_lt in E3; lia |].
  split; f_equal; unfold n; lia.
Qed.

Lemma numbered_from_window (lines : list string) (start limit : Z) :
  0 <= start <= 2 ^ 52 -> 0 <= limit <= 2 ^ 52 ->
  let n := Z.to_nat (Z.min limit (Z.of_nat (List.length lines) - start)) in
  Plugin.numbered_from (Whole start)
    (JSLib.slice lines (Whole start) (Whole (start + limit)))
  = numbered_window lines (Z.to_nat start) n.
Proof.
  intros Hs Hl n.
  destruct (slice_window lines start limit Hs Hl) as [-> _].
  fold n. unfold Plugin.numbered_from.
  destruct (Z.le_gt_cases start (Z.of_nat (List.length lines))) as [Hle | Hgt].
  - replace (Z.min start _) with start by lia.
    assert (Hn : (Z.to_nat start + n <= List.length lines)%nat) by (unfold n; lia).
    rewrite List.length_firstn, List.length_skipn.
    replace (Init.Nat.min n (List.length lines - Z.to_nat start)) with n by lia.
    pose proof (numbered_combine lines (Z.to_nat start) 0 (Z.to_nat start) n) as H.
    rewrite (Z2Nat.id start) in H by lia. apply H; unfold n; lia.
  - replace n with O by (unfold n; lia). reflexivity.
Qed.

(** The window that a whole [offset] and a whole [limit] cut out of the
    lines of a file. *)
Lemma read_window (lines : list string) (offset limit : Z) :
  Z.abs offset <= 2 ^ 52 -> 0 <= limit <= 2 ^ 52 ->
  let first := Z.to_nat (Z.max 0 (offset - 1)) in
  let count := Z.to_nat (Z.min limit (Z.of_nat (List.length lines) - Z.of_nat first)) in
  let startIdx := Number.max 0 (Number.sub offset 1) in
  Number.add startIdx limit = Whole (Z.max 0 (offset - 1) + limit)
  /\ Plugin.numbered_from startIdx (JSLib.slice lines startIdx (Number.add startIdx limit))
     = numbered_window lines first count
  /\ Service.numbered_from startIdx
       (JSLib.slice lines startIdx
          (Number.min (Z.of_nat (List.length lines)) (Number.add startIdx limit)))
     = numbered_window lines first count.
Proof.
  intros Ho Hl first count startIdx.
  assert (Hstart : startIdx = Whole (Z.max 0 (offset - 1))).
  { unfold startIdx. rewrite sub_whole by lia. reflexivity. }
  rewrite Hstart, add_whole by lia.
  destruct (slice_window lines (Z.max 0 (offset - 1)) limit) as [H1 H2]; [lia | lia |].
  split; [reflexivity |].
  cbn [Number.min]. rewrite H2, <- H1.
  change (Service.numbered_from ?s ?l) with (Plugin.numbered_from s l).
  rewrite numbered_from_window by lia.
  unfold count, first. rewrite Z2Nat.id by lia. split; reflexivity.
Qed.

(** The plug-in's [read_file] returns the lines of the window that
    [offset] and [limit] cut out, numbered as in the file. *)
Lemma plugin_readFile_window host vaultPath args fs absPath content offset limit :
  Plugin.resolvePath host vaultPath (Js.String_ (Js.get args "file_path")) = Ok absPath ->
  files fs !! absPath = Some content ->
  Plugin.number_or (Js.get args "offset") 1 = Whole offset ->
  Plugin.number_or (Js.get args "limit") 2000 = Whole limit ->
  Z.abs offset <= 2 ^ 52 ->
  0 <= limit <= 2 ^ 52 ->
  let lines := JS.split_on "010" content in
  let first := Z.to_nat (Z.max 0 (offset - 1)) in
  let count := Z.to_nat (Z.min limit (Z.of_nat (List.length lines) - Z.of_nat first)) in
  Plugin.execute host vaultPath "read_file" args fs
  = (Some (mkToolResult (JS.join JSLib.nl (numbered_window lines first count)) false), fs).
Proof.
  intros Hres Hfile Hoff Hlim Ho Hl lines first count.
  unfold Plugin.execute.
  change (Plugin.dispatch host vaultPath "read_file" args fs)
    with (Plugin.settled (Plugin.readFile host vaultPath args) fs).
  unfold Plugin.settled, Plugin.readFile, bind, lift, reads, ret, Fs.readFile.
  rewrite Hres, Hfile, Hoff, Hlim.
  fold lines.
  destruct (read_window lines offset limit Ho Hl) as (_ & -> & _).
  reflexivity.
Qed.

(** X7. In the plug-in, [read_file] on a file that is there and inside
    the vault, with a whole number for [offset] and one that is not
    negative for [limit], neither above 2^52 in size, returns the lines from
    [offset] on ([offset] below 1 counts as 1), at most [limit] of them and
    none beyond the end of the file, each one numbered with its place in the
    file, a tab between the number and the line. An argument that is absent
    or no number counts as 1 for [offset] and as 2000 for [limit]. It is
    not an error and it leaves the file system as it is. *)
Theorem plugin_read_file_window host vaultPath args fs absPath content offset limit :
  Plugin.resolvePath host vaultPath (Js.String_ (Js.get args "file_path")) = Ok absPath ->
  files fs !! absPath = Some content ->
  Plugin.number_or (Js.get args "offset") 1 = Whole offset ->
  Plugin.number_or (Js.get args "limit") 2000 = Whole limit ->
  Z.abs offset <= 2 ^ 52 ->
  0 <= limit <= 2 ^ 52 ->
  let lines := JS.split_on "010" content in
  let first := Z.to_nat (Z.max 0 (offset - 1)) in
  let count := Z.to_nat (Z.min limit (Z.of_nat (List.length lines) - Z.of_nat first)) in
  Plugin.execute host vaultPath "read_file" args fs
  = (Some (mkToolResult (JS.join JSLib.nl (numbered_window lines first count)) false), fs).
Proof. apply plugin_readFile_window. Qed.

Lemma plugin_read_file_window_witness :
  Plugin.execute quiet_host "/vault" "read_file"
    {[ "file_path" := JStr "notes.md"; "offset" := JNum 2; "limit" := JNum 2 ]} journal_fs
  = (Some (mkToolResult
             ("2" +:+ JSLib.tab +:+ "two" +:+ JSLib.nl +:+ "3" +:+ JSLib.tab +:+ "three")
             false),
     journal_fs).
Proof.
  etransitivity;
    [apply (plugin_read_file_window quiet_host "/vault" _ journal_fs "/vault/notes.md"
              ("one" +:+ JSLib.nl +:+ "two" +:+ JSLib.nl +:+ "three" +:+ JSLib.nl +:+ "four")
              2 2);
     vm_compute; first [reflexivity | discriminate | split; discriminate]
    | vm_compute; reflexivity].
Defined.

(** X8. In the service, [readFile] on a file that is there and inside the
    vault, with an offset and a limit that [Number] turns into whole
    numbers, the limit not negative and neither above 2^52 in size, returns
    the same window of numbered lines. *)
Theorem service_read_file_window host vaultPath args fs absPath content offset limit :
  Service.resolvePath host vaultPath (Service.string_or_empty (Js.get args "file_path"))
  = Ok absPath ->
  files fs !! absPath = Some content ->
  Service.Number_or host (Js.get args "offset") 1 = Whole offset ->
  Service.Number_or host (Js.get args "limit") 2000 = Whole limit ->
  Z.abs offset <= 2 ^ 52 ->
  0 <= limit <= 2 ^ 52 ->
  let lines := JS.split_on "010" content in
  let first := Z.to_nat (Z.max 0 (offset - 1)) in
  let count := Z.to_nat (Z.min limit (Z.of_nat (List.length lines) - Z.of_nat first)) in
  Service.readFile host vaultPath args fs
  = (Ok (mkToolResult (JS.join JSLib.nl (numbered_window lines first count)) false), fs).
Proof.
  intros Hres Hfile Hoff Hlim Ho Hl lines first count.
  unfold Service.readFile, bind, lift, reads, ret, Fs.readFile.
  rewrite Hres, Hfile, Hoff, Hlim.
  fold lines.
  destruct (read_window lines offset limit Ho Hl) as (_ & _ & ->).
  reflexivity.
Qed.

Lemma service_read_file_window_witness :
  Service.readFile quiet_host "/vault"
    {[ "file_path" := JStr "notes.md"; "offset" := JNum 2; "limit" := JNum 2 ]} journal_fs
  = (Ok (mkToolResult
           ("2" +:+ JSLib.tab +:+ "two" +:+ JSLib.nl +:+ "3" +:+ JSLib.tab +:+ "three")
           false),
     journal_fs).
Proof.
  etransitivity;
    [apply (service_read_file_window quiet_host "/vault" _ journal_fs "/vault/notes.md"
              ("one" +:+ JSLib.nl +:+ "two" +:+ JSLib.nl +:+ "three" +:+ JSLib.nl +:+ "four")
              2 2);
     vm_compute; first [reflexivity | discriminate | split; discriminate]
    | vm_compute; reflexivity].
Defined.

(** An offset that is no whole number is taken as it is: the window starts
    at the line where the offset, cut off, points, and the labels keep the
    fraction. A limit that is no number leaves the service with nothing. *)
Example read_file_at_a_fraction :
  Plugin.execute quiet_host "/vault" "read_file"
    {[ "file_path" := JStr "notes.md"; "offset" := JNum three_halves; "limit" := JNum 2 ]}
    journal_fs
  = (Some (mkToolResult
             ("1.5" +:+ JSLib.tab +:+ "one" +:+ JSLib.nl +:+ "2.5" +:+ JSLib.tab +:+ "two")
             false),
     journal_fs)
  /\ Service.readFile quiet_host "/vault"
       {[ "file_path" := JStr "notes.md"; "offset" := JNum three_halves; "limit" := JNum 2 ]}
       journal_fs
     = (Ok (mkToolResult
              ("1.5" +:+ JSLib.tab +:+ "one" +:+ JSLib.nl +:+ "2.5" +:+ JSLib.tab +:+ "two")
              false),
        journal_fs)
  /\ Service.readFile quiet_host "/vault"
       {[ "file_path" := JStr "notes.md"; "limit" := JStr "many" ]} journal_fs
     = (Ok (mkToolResult "" false), journal_fs).
Proof. repeat split; vm_compute; reflexivity. Qed.

(** *** What [write_file] and [edit_file] change *)

(** The plug-in's [write_file] always settles, removes no directory and
    either fails without a change to the files or puts the content at the
    resolved path and changes no other file. *)
Lemma plugin_writeFile_frame host vaultPath args fs :
  exists result fs',
    Plugin.execute host vaultPath "write_file" args fs = (Some result, fs')
    /\ dirs fs ⊆ dirs fs'
    /\ ((isError result = true /\ files fs' = files fs)
        \/ exists absPath,
             Plugin.resolvePath host vaultPath (Js.String_ (Js.get args "file_path"))
             = Ok absPath
             /\ isError result = false
             /\ files fs' = <[absPath := Js.String_ (Js.get args "content")]> (files fs)).
Proof.
  unfold Plugin.execute.
  change (Plugin.dispatch host vaultPath "write_file" args fs)
    with (Plugin.settled (Plugin.writeFile host vaultPath args) fs).
  unfold Plugin.settled, Plugin.writeFile, bind, lift, reads, ret, updates.
  destruct (Plugin.resolvePath host vaultPath _) as [absPath | m];
    [| eexists _, _; split; [reflexivity | split; [reflexivity | left; split; reflexivity]]].
  destruct (negb (Fs.existsSync fs (Fs.dirname absPath))).
  - unfold Fs.mkdir_recursive.
    destruct (List.existsb _ _);
      [eexists _, _; split; [reflexivity | split; [reflexivity | left; split; reflexivity]] |].
    unfold Fs.writeFile. cbn [dirs files sockets].
    do 3 (match goal with
          | |- context [if ?b then _ else _] => destruct b
          end;
          [eexists _, _;
           split; [reflexivity | split; [cbn; set_solver | left; split; reflexivity]] |]).
    eexists _, _; split; [reflexivity | split; [cbn; set_solver |]].
    right. exists absPath. repeat split; reflexivity.
  - unfold Fs.writeFile.
    destruct (Fs.is_dir fs absPath);
      [eexists _, _; split; [reflexivity | split; [reflexivity | left; split; reflexivity]] |].
    destruct (Fs.is_socket fs absPath);
      [eexists _, _; split; [reflexivity | split; [reflexivity | left; split; reflexivity]] |].
    destruct (negb (Fs.is_dir fs (Fs.dirname absPath)));
      [eexists _, _; split; [reflexivity | split; [reflexivity | left; split; reflexivity]] |].
    eexists _, _; split; [reflexivity | split; [reflexivity |]].
    right. exists absPath. repeat split; reflexivity.
Qed.

(** X9. In the plug-in, [write_file] always returns a result. It removes
    no directory. When the result is an error, every file is as it was;
    otherwise the file at the resolved path holds exactly the content that
    was given and every other file is as it was. *)
Theorem plugin_write_file_frame host vaultPath args fs :
  exists result fs',
    Plugin.execute host vaultPath "write_file" args fs = (Some result, fs')
    /\ dirs fs ⊆ dirs fs'
    /\ ((isError result = true /\ files fs' = files fs)
        \/ exists absPath,
             Plugin.resolvePath host vaultPath (Js.String_ (Js.get args "file_path"))
             = Ok absPath
             /\ isError result = false
             /\ files fs' = <[absPath := Js.String_ (Js.get args "content")]> (files fs)).
Proof. apply plugin_writeFile_frame. Qed.

(** X10. In the plug-in, what [write_file] has written [read_file] reads
    back: after a write that was no error, reading the same path, with a
    whole number for [offset] and one that is not negative for [limit],
    neither above 2^52 in size, returns the lines of the written content,
    numbered, within the window of the read. *)
Theorem plugin_read_back host vaultPath wargs rargs fs result fs' offset limit :
  Plugin.execute host vaultPath "write_file" wargs fs = (Some result, fs') ->
  isError result = false ->
  Js.String_ (Js.get rargs "file_path") = Js.String_ (Js.get wargs "file_path") ->
  Plugin.number_or (Js.get rargs "offset") 1 = Whole offset ->
  Plugin.number_or (Js.get rargs "limit") 2000 = Whole limit ->
  Z.abs offset <= 2 ^ 52 ->
  0 <= limit <= 2 ^ 52 ->
  let lines := JS.split_on "010" (Js.String_ (Js.get wargs "content")) in
  let first := Z.to_nat (Z.max 0 (offset - 1)) in
  let count := Z.to_nat (Z.min limit (Z.of_nat (List.length lines) - Z.of_nat first)) in
  Plugin.execute host vaultPath "read_file" rargs fs'
  = (Some (mkToolResult (JS.join JSLib.nl (numbered_window lines first count)) false), fs').
Proof.
  intros Hw Hok Hpath Hoff Hlim Ho Hl.
  destruct (plugin_writeFile_frame host vaultPath wargs fs)
    as (result0 & fs0 & Hw0 & _ & [[Herr _] | (absPath & Hres & _ & Hfiles)]);
    rewrite Hw in Hw0; injection Hw0 as <- <-; [congruence |].
  apply (plugin_readFile_window host vaultPath rargs fs' absPath);
    [rewrite Hpath; exact Hres | rewrite Hfiles; apply lookup_insert_eq
    | exact Hoff | exact Hlim | exact Ho | exact Hl].
Qed.

Lemma plugin_read_back_witness :
  exists result fs',
    Plugin.execute quiet_host "/vault" "write_file"
      {[ "file_path" := JStr "b.md";
         "content" := JStr ("x" +:+ JSLib.nl +:+ "y" +:+ JSLib.nl +:+ "z") ]} vault_fs
    = (Some result, fs')
    /\ Plugin.execute quiet_host "/vault" "read_file"
         {[ "file_path" := JStr "b.md"; "offset" := JNum 2 ]} fs'
       = (Some (mkToolResult
                  ("2" +:+ JSLib.tab +:+ "y" +:+ JSLib.nl +:+ "3" +:+ JSLib.tab +:+ "z") false),
          fs').
Proof.
  eexists _, _. split; [vm_compute; reflexivity |].
  etransitivity;
    [eapply (plugin_read_back quiet_host "/vault"
               {[ "file_path" := JStr "b.md";
                  "content" := JStr ("x" +:+ JSLib.nl +:+ "y" +:+ JSLib.nl +:+ "z") ]}
               {[ "file_path" := JStr "b.md"; "offset" := JNum 2 ]} vault_fs _ _ 2 2000);
     vm_compute; first [reflexivity | discriminate | split; discriminate]
    | vm_compute; reflexivity].
Defined.

(** X11. In the plug-in, [edit_file] is all or nothing, whatever its
    arguments: either it returns an error and the file system is as it was,
    or it reports success and the one change is that the file at the
    resolved path holds the result of [replace] on its old content. *)
Theorem plugin_edit_file_all_or_nothing host vaultPath args fs :
  (exists message,
      Plugin.execute host vaultPath "edit_file" args fs
      = (Some (mkToolResult message true), fs))
  \/ exists absPath content,
       Plugin.resolvePath host vaultPath (Js.String_ (Js.get args "file_path")) = Ok absPath
       /\ files fs !! absPath = Some content
       /\ Plugin.execute host vaultPath "edit_file" args fs
          = (Some (mkToolResult
                     ("Edited " +:+ Js.String_ (Js.get args "file_path") +:+ " successfully")
                     false),
             mkFS (<[absPath := JS.replace content (Js.String_ (Js.get args "old_string"))
                                  (Js.String_ (Js.get args "new_string"))]> (files fs))
               (dirs fs) (sockets fs)).
Proof.
  unfold Plugin.execute.
  change (Plugin.dispatch host vaultPath "edit_file" args fs)
    with (Plugin.settled (Plugin.editFile host vaultPath args) fs).
  unfold Plugin.settled, Plugin.editFile, bind, lift, reads, ret, updates.
  destruct (Plugin.resolvePath host vaultPath _) as [absPath | m];
    [| left; eexists; reflexivity].
  unfold Fs.readFile.
  destruct (files fs !! absPath) as [content |] eqn:Hf;
    [| left; destruct (Fs.is_dir fs absPath); [| destruct (Fs.is_socket fs absPath)];
       eexists; reflexivity].
  destruct (_ =? 0); [left; eexists; reflexivity |].
  destruct (1 <? _); [left; eexists; reflexivity |].
  unfold Fs.writeFile.
  destruct (Fs.is_dir fs absPath); [left; eexists; reflexivity |].
  destruct (Fs.is_socket fs absPath); [left; eexists; reflexivity |].
  destruct (negb (Fs.is_dir fs (Fs.dirname absPath))); [left; eexists; reflexivity |].
  right. exists absPath, content. repeat split; assumption || reflexivity.
Qed.

(** X12. In the service, [editFile] is all or nothing as well: it throws
    or returns an error with the file system as it was, or it reports
    success and the one change is the edited file. *)
Theorem service_edit_file_all_or_nothing host vaultPath args fs :
  (exists message, Service.editFile host vaultPath args fs = (Throw message, fs))
  \/ (exists message,
         Service.editFile host vaultPath args fs = (Ok (mkToolResult message true), fs))
  \/ exists absPath content,
       Service.resolvePath host vaultPath (Service.string_or_empty (Js.get args "file_path"))
       = Ok absPath
       /\ files fs !! absPath = Some content
       /\ Service.editFile host vaultPath args fs
          = (Ok (mkToolResult ("File edited: " +:+ Js.String_ (Js.get args "file_path")) false),
             mkFS (<[absPath := JS.replace content
                                  (Service.string_or_empty (Js.get args "old_string"))
                                  (Service.string_or_empty (Js.get args "new_string"))]>
                     (files fs))
               (dirs fs) (sockets fs)).
Proof.
  unfold Service.editFile, bind, lift, reads, ret, updates.
  destruct (Service.resolvePath host vaultPath _) as [absPath | m];
    [| left; eexists; reflexivity].
  unfold Fs.readFile.
  destruct (files fs !! absPath) as [content |] eqn:Hf;
    [| left; destruct (Fs.is_dir fs absPath); [| destruct (Fs.is_socket fs absPath)];
       eexists; reflexivity].
  destruct (_ =? 0); [right; left; eexists; reflexivity |].
  destruct (1 <? _); [right; left; eexists; reflexivity |].
  unfold Fs.writeFile.
  destruct (Fs.is_dir fs absPath); [left; eexists; reflexivity |].
  destruct (Fs.is_socket fs absPath); [left; eexists; reflexivity |].
  destruct (negb (Fs.is_dir fs (Fs.dirname absPath))); [left; eexists; reflexivity |].
  right. right. exists absPath, content. repeat split; assumption || reflexivity.
Qed.

(** ** The rounds, in general *)

Lemma positions_of_reassembled fragments :
  List.map fst (reassembled fragments) = positions fragments.
Proof.
  unfold reassembled. rewrite List.map_map. cbn [fst]. apply List.map_id.
Qed.

Lemma map_snd_descriptors (m : list (Z * ToolCall)) :
  List.map snd (descriptors m) = List.map name_and_arguments (List.map snd m).
Proof. unfold descriptors. rewrite !List.map_map. reflexivity. Qed.

(** X13. In the service, a round whose stream is read to its end without
    a cancel or a failure returns, as its tool calls, the calls that the
    fragments of the stream spell out (for every position the name as it
    was last given and the slices of the arguments in one piece), every
    position once and in ascending order of the positions; it reports
    neither an error nor an abort. *)
Theorem service_round_lists_calls_by_position remote tok messages st wire :
  requestUrl remote tok messages (Service.selectedModel st) = Ok wire ->
  service_undisturbed wire = true ->
  let said := reassembled (service_fragments (service_chunks wire)) in
  let r := (Service.streamOneRound remote tok messages st).1 in
  List.map name_and_arguments (Service.toolCalls r) = List.map snd (by_index said)
  /\ Permutation (by_index said) said
  /\ StronglySorted Z.lt (List.map fst (by_index said))
  /\ Service.round_error r = None
  /\ Service.round_aborted r = false.
Proof.
  intros Hreq Hu said r.
  assert (Hr : exists m st', 
             Service.streamOneRound remote tok messages st
             = (Service.mkRoundResult
                  (service_accumulate remote (service_chunks wire)
                     ("", ([], Service.tick (Service.await remote
                                               (Service.place (ChatRequest tok) st))))).1
                  (List.map snd (by_index m)) None false, st')
             /\ descriptors m = said).
  { unfold Service.streamOneRound.
    change (Service.selectedModel (Service.place (ChatRequest tok) st))
      with (Service.selectedModel st).
    rewrite Hreq.
    destruct (service_stream_steps_undisturbed remote wire "" []
                (Service.await remote (Service.place (ChatRequest tok) st)) Hu)
      as [out [Hs _]].
    rewrite Hs. eexists _, _. split; [reflexivity |].
    apply service_accumulate_reassembles. }
  destruct Hr as (m & st' & Heq & Hm).
  unfold r. rewrite Heq. cbn [fst Service.toolCalls Service.round_error Service.round_aborted].
  split.
  - rewrite <- map_snd_descriptors, descriptors_by_index, Hm. reflexivity.
  - split; [apply by_index_permutation |].
    split; [| split; reflexivity].
    apply by_index_ascending. unfold said. rewrite positions_of_reassembled.
    apply positions_NoDup.
Qed.

Lemma service_round_lists_calls_by_position_witness :
  List.map name_and_arguments
    (Service.toolCalls
       (Service.streamOneRound (scripted_remote Service.SLine (service_wire out_of_order))
          "t0" opening service_0).1)
  = [("glob", "{}"); ("grep", "{}")].
Proof.
  refine (eq_trans
            (proj1 (service_round_lists_calls_by_position
                      (scripted_remote Service.SLine (service_wire out_of_order))
                      "t0" opening service_0 (service_wire out_of_order) _ _)) _);
    vm_compute; reflexivity.
Defined.

(** X14. In the plug-in, a round whose stream is read to its end without
    a cancel returns an assistant message whose tool calls are the calls
    that the fragments of the stream spell out, in the order in which the
    positions were first named, and appends that one message to the
    history. *)
Theorem plugin_round_reassembles_calls remote tok st wire :
  requestUrl remote tok (Plugin.messages st) (Plugin.model st) = Ok wire ->
  plugin_uncancelled wire = true ->
  cancel_at remote (Plugin.tick st) = false ->
  Plugin.aborted st = false ->
  exists assistantMessage st',
    Plugin.processRound remote tok st = (Ok (Some assistantMessage), st')
    /\ List.map name_and_arguments (default [] (tool_calls assistantMessage))
       = List.map snd (reassembled (plugin_fragments (plugin_chunks wire)))
    /\ Plugin.messages st' = List.app (Plugin.messages st) [assistantMessage].
Proof.
  intros Hreq Hu Hc Ha.
  unfold Plugin.processRound.
  change (Plugin.messages (Plugin.place (ChatRequest tok) st)) with (Plugin.messages st).
  change (Plugin.model (Plugin.place (ChatRequest tok) st)) with (Plugin.model st).
  rewrite Hreq.
  rewrite plugin_await_undisturbed by exact Hc.
  set (st1 := Plugin.set_tick _ (Plugin.place (ChatRequest tok) st)).
  assert (Ha1 : Plugin.aborted st1 = false) by exact Ha.
  rewrite Ha1.
  destruct (plugin_stream_lines_uncancelled wire (Plugin.mkRoundAcc "" []) st1 Hu Ha1)
    as [evs [Hs _]].
  rewrite Hs.
  pose proof (plugin_accumulate_reassembles (plugin_chunks wire) "") as Hre.
  set (acc := plugin_accumulate (plugin_chunks wire) (Plugin.mkRoundAcc "" [])) in *.
  eexists _, _. split; [reflexivity |].
  cbn [tool_calls].
  split.
  - rewrite <- Hre, map_snd_descriptors. unfold JsMap.values, JsMap.size.
    destruct (Plugin.toolCalls acc) as [| e m]; reflexivity.
  - destruct (Js.nonempty (Plugin.fullText acc)); reflexivity.
Qed.

Lemma plugin_round_reassembles_calls_witness :
  exists assistantMessage st',
    Plugin.processRound (scripted_remote Plugin.WLine (plugin_wire out_of_order)) "t0"
      (Plugin.push [mkChatMessage user (Some "hi") None None] plugin_0)
    = (Ok (Some assistantMessage), st')
    /\ List.map name_and_arguments (default [] (tool_calls assistantMessage))
       = List.map snd (reassembled (plugin_fragments (plugin_chunks
                                                        (plugin_wire out_of_order))))
    /\ Plugin.messages st'
       = List.app
           (Plugin.messages (Plugin.push [mkChatMessage user (Some "hi") None None] plugin_0))
           [assistantMessage].
Proof.
  apply (plugin_round_reassembles_calls
           (scripted_remote Plugin.WLine (plugin_wire out_of_order)) "t0"
           (Plugin.push [mkChatMessage user (Some "hi") None None] plugin_0)
           (plugin_wire out_of_order));
    vm_compute; reflexivity.
Defined.

(** ** The chunks of a query *)

Lemma never_aborted_not_aborted st : never_aborted st -> Service.aborted st = false.
Proof.
  unfold never_aborted, Service.aborted.
  destruct (Service.abortController st) as [[|] |]; intros H; try reflexivity.
  congruence.
Qed.

Lemma service_carries_on_refl st : never_aborted st -> service_carries_on st st.
Proof. intros H. split; [exact H | apply service_goes_on_refl]. Qed.

Lemma service_carries_on_trans st1 st2 st3 :
  service_carries_on st1 st2 -> service_carries_on st2 st3 -> service_carries_on st1 st3.
Proof.
  intros [_ H12] [H3 H23]. split; [exact H3 | eapply service_goes_on_trans; eassumption].
Qed.

Lemma service_carries_on_yield out st :
  never_aborted st -> none_of service_final out = true ->
  service_carries_on st (Service.yield out st).
Proof. intros H Hq. split; [exact H |]. exists out. split; [reflexivity | exact Hq]. Qed.

Lemma service_carries_on_updatePat pat0 st :
  never_aborted st -> service_carries_on st (Service.updatePat pat0 st).
Proof.
  intros H. split; [exact H |]. exists []. split; [| reflexivity].
  unfold Service.updatePat. service_fields. rewrite List.app_nil_r. reflexivity.
Qed.

Lemma service_carries_on_cancel st : service_carries_on st (Service.cancel st).
Proof.
  split; [discriminate |]. exists []. split; [| reflexivity].
  unfold Service.cancel. service_fields. rewrite List.app_nil_r. reflexivity.
Qed.

Lemma service_carries_on_set_tick n st :
  never_aborted st -> service_carries_on st (Service.set_tick n st).
Proof.
  intros H. split; [exact H |]. exists []. split; [| reflexivity].
  service_fields. rewrite List.app_nil_r. reflexivity.
Qed.

Lemma service_carries_on_meanwhile remote st :
  never_aborted st -> service_carries_on st (Service.meanwhile remote st).
Proof.
  intros H. unfold Service.meanwhile.
  assert (H1 : service_carries_on st
                 match updatePat_at remote (Service.tick st) with
                 | Some pat0 => Service.updatePat pat0 st
                 | None => st
                 end).
  { destruct (updatePat_at remote (Service.tick st));
      [apply service_carries_on_updatePat | apply service_carries_on_refl]; exact H. }
  match goal with
  | |- context [if ?b then _ else _] => destruct b
  end; [| exact H1].
  eapply service_carries_on_trans; [exact H1 | apply service_carries_on_cancel].
Qed.

Lemma service_carries_on_await remote st :
  never_aborted st -> service_carries_on st (Service.await remote st).
Proof.
  intros H. unfold Service.await.
  pose proof (service_carries_on_meanwhile remote st H) as H1.
  eapply service_carries_on_trans; [exact H1 |].
  apply service_carries_on_set_tick. exact (proj1 H1).
Qed.

Lemma service_carries_on_stream_steps remote wire text (m : JsMap.t ToolCall) st :
  never_aborted st ->
  service_carries_on st (Service.stream_steps remote wire text m st).2.
Proof.
  revert text m st. induction wire as [| step wire IH]; intros text m st H;
    [apply service_carries_on_refl; exact H |].
  cbn [Service.stream_steps].
  destruct step as [line | | pat0 | message].
  - destruct line as [| | | chunk]; try (apply IH; exact H).
    pose proof (quiet_service_on_chunk remote chunk text m (Service.tick st)) as Hq.
    destruct (Service.on_chunk remote chunk text (m, Service.tick st))
      as [[text' [m' n]] out].
    cbn [snd] in Hq.
    eapply service_carries_on_trans; [| apply IH; exact H].
    split; [exact H |]. exists out. split; [reflexivity | exact Hq].
  - eapply service_carries_on_trans; [| apply IH; discriminate].
    apply service_carries_on_cancel.
  - eapply service_carries_on_trans; [| apply IH; exact H].
    apply service_carries_on_updatePat. exact H.
  - apply service_carries_on_refl. exact H.
Qed.

Lemma carries_on_then_final st st' final :
  service_carries_on st st' -> service_final final = true ->
  ends_with_one_final st (Service.yield [final] st').
Proof.
  intros [_ [out [He Hq]]] Hf. exists out, final.
  split; [| split; assumption].
  service_fields. rewrite He, <- List.app_assoc. reflexivity.
Qed.

Lemma ends_after_carrying_on st1 st2 st3 :
  service_carries_on st1 st2 -> ends_with_one_final st2 st3 -> ends_with_one_final st1 st3.
Proof.
  intros [_ [out [He Hq]]] (out' & final & He' & Hq' & Hf).
  exists (List.app out out'), final. split; [| split; [apply none_of_app; assumption | exact Hf]].
  rewrite He', He, <- !List.app_assoc. reflexivity.
Qed.

Lemma service_carries_on_streamOneRound remote tok messages st :
  never_aborted st ->
  service_carries_on st (Service.streamOneRound remote tok messages st).2
  /\ Service.round_aborted (Service.streamOneRound remote tok messages st).1 = false.
Proof.
  intros H. unfold Service.streamOneRound.
  set (st0 := Service.place (ChatRequest tok) st).
  assert (H0 : service_carries_on st st0).
  { split; [exact H |]. exists []. split; [| reflexivity].
    unfold st0. service_fields. rewrite List.app_nil_r. reflexivity. }
  assert (H1 : service_carries_on st (Service.await remote st0)).
  { eapply service_carries_on_trans; [exact H0 |].
    apply service_carries_on_await. exact H. }
  destruct (requestUrl remote tok messages _) as [wire | message].
  - pose proof (service_carries_on_stream_steps remote wire "" []
                  (Service.await remote st0) (proj1 H1)) as H2.
    destruct (Service.stream_steps remote wire "" [] (Service.await remote st0))
      as [[[m | message] text] st1]; cbn [snd] in H2.
    + split; [eapply service_carries_on_trans; eassumption | reflexivity].
    + rewrite (never_aborted_not_aborted st1 (proj1 H2)).
      split; [eapply service_carries_on_trans; eassumption | reflexivity].
  - rewrite (never_aborted_not_aborted _ (proj1 H1)). split; [exact H1 | reflexivity].
Qed.

Lemma service_carries_on_execute_tool_calls host remote names vaultPath tcs messages st :
  never_aborted st ->
  service_carries_on st
    (Service.execute_tool_calls host remote names vaultPath tcs messages st).2.
Proof.
  revert messages st. induction tcs as [| tc tcs IH]; intros messages st H;
    [apply service_carries_on_refl; exact H |].
  cbn [Service.execute_tool_calls].
  destruct (Service.execute host names vaultPath _ _ _) as [result fs'].
  set (st1 := Service.set_fs fs' (Service.yield _ st)).
  assert (H1 : service_carries_on st st1).
  { split; [exact H |]. eexists. split; [reflexivity | reflexivity]. }
  assert (H2 : service_carries_on st (Service.await remote st1)).
  { eapply service_carries_on_trans; [exact H1 |].
    apply service_carries_on_await. exact H. }
  eapply service_carries_on_trans; [| apply IH; exact (proj1 H2)].
  eapply service_carries_on_trans; [exact H2 |].
  apply service_carries_on_yield; [exact (proj1 H2) | reflexivity].
Qed.

Lemma service_carries_on_fetchToken remote st :
  never_aborted st -> service_carries_on st (Service.fetchToken remote st).2.
Proof.
  intros H. unfold Service.fetchToken.
  assert (H1 : service_carries_on st (Service.await remote (Service.place TokenFetch st))).
  { eapply service_carries_on_trans; [| apply service_carries_on_await; exact H].
    split; [exact H |]. exists []. split; [| reflexivity].
    service_fields. rewrite List.app_nil_r. reflexivity. }
  destruct (fetchCopilotToken remote _ _); cbn [snd]; [| exact H1].
  destruct H1 as [Hn [out [He Hq]]]. split; [exact Hn |]. exists out. split; assumption.
Qed.

Lemma service_carries_on_ensureCopilotToken remote st :
  never_aborted st -> service_carries_on st (Service.ensureCopilotToken remote st).2.
Proof.
  intros H. unfold Service.ensureCopilotToken.
  destruct (Service.copilotToken st) as [t |]; [| apply service_carries_on_fetchToken; exact H].
  set (st1 := Service.place _ (Service.set_tick _ st)).
  assert (H1 : service_carries_on st st1).
  { split; [exact H |]. exists []. split; [| reflexivity].
    unfold st1. service_fields. rewrite List.app_nil_r. reflexivity. }
  destruct (negb _); [exact H1 |].
  eapply service_carries_on_trans; [exact H1 |].
  apply service_carries_on_fetchToken. exact H.
Qed.

Lemma service_rounds_loop_ends host remote names vaultPath left tok messages st :
  never_aborted st ->
  match (Service.rounds_loop host remote names vaultPath left tok messages st).1.1 with
  | Ok false =>
      ends_with_one_final st
        (Service.rounds_loop host remote names vaultPath left tok messages st).2
  | _ =>
      service_carries_on st
        (Service.rounds_loop host remote names vaultPath left tok messages st).2
  end.
Proof.
  revert tok messages st. induction left as [| left IH]; intros tok messages st H;
    [apply service_carries_on_refl; exact H |].
  cbn [Service.rounds_loop].
  destruct (service_carries_on_streamOneRound remote tok messages st H) as [H1 Hab].
  destruct (Service.streamOneRound remote tok messages st) as [roundResult st1].
  cbn [fst snd] in H1, Hab. rewrite Hab.
  destruct (Service.round_error roundResult) as [e |].
  { cbn [fst snd]. apply carries_on_then_final; [exact H1 | reflexivity]. }
  destruct (Service.toolCalls roundResult) as [| tc tcs].
  { cbn [fst snd]. apply carries_on_then_final; [exact H1 | reflexivity]. }
  match goal with
  | |- context [Service.execute_tool_calls host remote names vaultPath ?l ?ms st1] =>
      pose proof (service_carries_on_execute_tool_calls host remote names vaultPath l ms st1
                    (proj1 H1)) as H2;
      destruct (Service.execute_tool_calls host remote names vaultPath l ms st1)
        as [messages2 st2]
  end.
  cbn [snd] in H2.
  assert (H02 : service_carries_on st st2)
    by (eapply service_carries_on_trans; eassumption).
  assert (Hgoal : forall tok' st3,
             service_carries_on st st3 ->
             match (Service.rounds_loop host remote names vaultPath left tok' messages2 st3).1.1
             with
             | Ok false =>
                 ends_with_one_final st
                   (Service.rounds_loop host remote names vaultPath left tok' messages2 st3).2
             | _ =>
                 service_carries_on st
                   (Service.rounds_loop host remote names vaultPath left tok' messages2 st3).2
             end).
  { intros tok' st3 H3. specialize (IH tok' messages2 st3 (proj1 H3)).
    destruct (Service.rounds_loop host remote names vaultPath left tok' messages2 st3)
      as [[[[|] | message] ms] st4]; cbn [fst snd] in *.
    - eapply service_carries_on_trans; eassumption.
    - eapply ends_after_carrying_on; eassumption.
    - eapply service_carries_on_trans; eassumption. }
  destruct (Service.copilotToken st2) as [t |]; [| apply Hgoal; exact H02].
  set (st3 := Service.place _ (Service.set_tick _ st2)).
  assert (H03 : service_carries_on st st3).
  { eapply service_carries_on_trans; [exact H02 |].
    split; [exact (proj1 H02) |]. exists []. split; [| reflexivity].
    unfold st3. service_fields. rewrite List.app_nil_r. reflexivity. }
  destruct (isTokenExpired _ _ _); [| apply Hgoal; exact H03].
  pose proof (service_carries_on_ensureCopilotToken remote st3 (proj1 H03)) as H4.
  destruct (Service.ensureCopilotToken remote st3) as [[tok' | message] st4];
    cbn [fst snd] in *.
  - apply Hgoal. eapply service_carries_on_trans; eassumption.
  - eapply service_carries_on_trans; eassumption.
Qed.

Lemma events_await remote st :
  Service.events (Service.await remote st) = Service.events st.
Proof.
  unfold Service.await, Service.meanwhile, Service.cancel, Service.updatePat.
  destruct (updatePat_at remote (Service.tick st)); service_fields;
    match goal with
    | |- context [if ?b then _ else _] => destruct b
    end; reflexivity.
Qed.

Lemma events_fetchToken remote st :
  Service.events (Service.fetchToken remote st).2 = Service.events st.
Proof.
  unfold Service.fetchToken.
  destruct (fetchCopilotToken remote _ _); cbn [snd]; service_fields;
    rewrite events_await; reflexivity.
Qed.

Lemma events_ensureCopilotToken remote st :
  Service.events (Service.ensureCopilotToken remote st).2 = Service.events st.
Proof.
  unfold Service.ensureCopilotToken.
  destruct (Service.copilotToken st) as [t |]; [| apply events_fetchToken].
  destruct (negb _); [reflexivity |]. rewrite events_fetchToken. reflexivity.
Qed.

(** X15. Every query of the service ends its chunks with exactly one
    final chunk, a [done] or an [error], and yields no final chunk before
    it: whatever the remote side answers, whatever the tools do, and also
    when the query is cancelled on its way. *)
Theorem query_ends_with_one_final_chunk host remote names stringify vaultPath
  prompt images history st :
  ends_with_one_final st
    (Service.query host remote names stringify vaultPath prompt images history st).2.
Proof.
  unfold Service.query.
  destruct (negb (Js.nonempty (Service.pat st))).
  { exists [], (Service.UiError
                  "Not authenticated with GitHub Copilot. Please sign in via Settings.").
    repeat split. }
  pose proof (events_ensureCopilotToken remote st) as He.
  destruct (Service.ensureCopilotToken remote st) as [[tok | message] st1];
    cbn [snd] in He.
  2: { exists [], (Service.UiError ("Copilot auth failed: " +:+ message)).
       split; [service_fields; rewrite He; reflexivity | split; reflexivity]. }
  set (st2 := Service.set_abortController (Some false) st1).
  assert (H2 : never_aborted st2) by discriminate.
  assert (E2 : Service.events st2 = Service.events st) by exact He.
  assert (Hback : forall st', ends_with_one_final st2 st' -> ends_with_one_final st st').
  { intros st' (out & final & H & Hq & Hf). exists out, final.
    rewrite <- E2. split; [exact H | split; assumption]. }
  match goal with
  | |- context [Service.rounds_loop host remote names vaultPath ?n tok ?ms st2] =>
      pose proof (service_rounds_loop_ends host remote names vaultPath n tok ms st2 H2) as Hl;
      destruct (Service.rounds_loop host remote names vaultPath n tok ms st2)
        as [[r messages2] st3]
  end.
  cbn [fst snd] in Hl |- *.
  apply Hback.
  destruct r as [[|] | message].
  - destruct (carries_on_then_final st2 st3
                (Service.UiError
                   ("Max tool rounds (" +:+ pretty Service.MAX_TOOL_ROUNDS +:+ ") exceeded"))
                Hl eq_refl) as (out & final & H & Hq & Hf).
    exists out, final. split; [exact H | split; assumption].
  - destruct Hl as (out & final & H & Hq & Hf).
    exists out, final. split; [exact H | split; assumption].
  - rewrite (never_aborted_not_aborted st3 (proj1 Hl)). cbn [negb].
    destruct (carries_on_then_final st2 st3 (Service.UiError message) Hl eq_refl)
      as (out & final & H & Hq & Hf).
    exists out, final. split; [exact H | split; assumption].
Qed.

(** ** The protocol of tool calls *)

Lemma pending_after_app pending ms1 ms2 :
  pending_after pending (List.app ms1 ms2)
  = match pending_after pending ms1 with
    | Some p => pending_after p ms2
    | None => None
    end.
Proof.
  revert pending. induction ms1 as [| m ms1 IH]; intros pending; [reflexivity |].
  cbn [List.app pending_after].
  destruct pending as [| tc pending'].
  - destruct (role m); try reflexivity; apply IH.
  - destruct (answers tc m); [apply IH | reflexivity].
Qed.

Lemma service_execute_tool_calls_answers host remote names vaultPath tcs messages st :
  exists results,
    (Service.execute_tool_calls host remote names vaultPath tcs messages st).1
    = List.app messages results
    /\ forall pending, pending_after (List.app tcs pending) results = Some pending.
Proof.
  revert messages st. induction tcs as [| tc tcs IH]; intros messages st.
  - exists []. split; [cbn; rewrite List.app_nil_r; reflexivity | reflexivity].
  - cbn [Service.execute_tool_calls].
    destruct (Service.execute host names vaultPath _ _ _) as [result fs'].
    match goal with
    | |- context [Service.execute_tool_calls host remote names vaultPath tcs ?ms ?s] =>
        destruct (IH ms s) as (results & Heq & Hp)
    end.
    eexists (_ :: results). split.
    + rewrite Heq, <- List.app_assoc. reflexivity.
    + intros pending. cbn [List.app pending_after answers role tool_call_id].
      rewrite String.eqb_refl. apply Hp.
Qed.

Lemma service_rounds_loop_answers host remote names vaultPath left tok messages st :
  exists tail,
    (Service.rounds_loop host remote names vaultPath left tok messages st).1.2
    = List.app messages tail
    /\ pending_after [] tail = Some [].
Proof.
  revert tok messages st. induction left as [| left IH]; intros tok messages st.
  - exists []. split; [cbn; rewrite List.app_nil_r; reflexivity | reflexivity].
  - cbn [Service.rounds_loop].
    destruct (Service.streamOneRound remote tok messages st) as [roundResult st1].
    assert (Hnil : exists tail, messages = List.app messages tail
                                /\ pending_after [] tail = Some []).
    { exists []. split; [rewrite List.app_nil_r; reflexivity | reflexivity]. }
    destruct (Service.round_aborted roundResult); [exact Hnil |].
    destruct (Service.round_error roundResult); [exact Hnil |].
    destruct (Service.toolCalls roundResult) as [| tc tcs]; [exact Hnil |].
    match goal with
    | |- context [Service.execute_tool_calls host remote names vaultPath ?l ?ms st1] =>
        destruct (service_execute_tool_calls_answers host remote names vaultPath l ms st1)
          as (results & Heq & Hp);
        destruct (Service.execute_tool_calls host remote names vaultPath l ms st1)
          as [messages2 st2]
    end.
    cbn [fst] in Heq.
    assert (Hgoal : forall tok' st3,
               exists tail,
                 (Service.rounds_loop host remote names vaultPath left tok' messages2 st3).1.2
                 = List.app messages tail
                 /\ pending_after [] tail = Some []).
    { intros tok' st3. destruct (IH tok' messages2 st3) as (tail & Ht & Hq).
      eexists (_ :: List.app results tail). split.
      - rewrite Ht, Heq, <- !List.app_assoc. reflexivity.
      - cbn [pending_after role tool_calls].
        change (default [] (Some (tc :: tcs))) with (tc :: tcs).
        rewrite pending_after_app.
        specialize (Hp []). rewrite List.app_nil_r in Hp. rewrite Hp. exact Hq. }
    assert (Hstop : exists tail, messages2 = List.app messages tail
                                 /\ pending_after [] tail = Some []).
    { eexists (_ :: results). split.
      - rewrite Heq, <- !List.app_assoc. reflexivity.
      - cbn [pending_after role tool_calls].
        change (default [] (Some (tc :: tcs))) with (tc :: tcs).
        specialize (Hp []). rewrite List.app_nil_r in Hp. exact Hp. }
    destruct (Service.copilotToken st2) as [t |]; [| apply Hgoal].
    destruct (isTokenExpired _ _ _); [| apply Hgoal].
    destruct (Service.ensureCopilotToken remote _) as [[tok' | message] st4];
      [apply Hgoal | exact Hstop].
Qed.

Lemma customSystemPrompt_await remote st :
  Service.customSystemPrompt (Service.await remote st) = Service.customSystemPrompt st.
Proof.
  unfold Service.await, Service.meanwhile, Service.cancel, Service.updatePat.
  destruct (updatePat_at remote (Service.tick st)); service_fields;
    match goal with
    | |- context [if ?b then _ else _] => destruct b
    end; reflexivity.
Qed.

Lemma customSystemPrompt_ensureCopilotToken remote st :
  Service.customSystemPrompt (Service.ensureCopilotToken remote st).2
  = Service.customSystemPrompt st.
Proof.
  unfold Service.ensureCopilotToken, Service.fetchToken.
  destruct (Service.copilotToken st) as [t |].
  - destruct (negb _); [reflexivity |].
    destruct (fetchCopilotToken remote _ _); cbn [snd]; service_fields;
      rewrite customSystemPrompt_await; reflexivity.
  - destruct (fetchCopilotToken remote _ _); cbn [snd]; service_fields;
      rewrite customSystemPrompt_await; reflexivity.
Qed.

(** X16. The list of messages that a query of the service has built when
    it ends is either none (it gave up before the first round) or the
    messages of [buildMessages] followed by the messages of its rounds, and
    among these every tool call of an assistant message is answered, in
    order, by the tool messages right after it, each with the id of its
    call; no tool message stands anywhere else. *)
Theorem query_answers_every_tool_call host remote names stringify vaultPath
  prompt images history st :
  (Service.query host remote names stringify vaultPath prompt images history st).1 = []
  \/ exists tail,
       (Service.query host remote names stringify vaultPath prompt images history st).1
       = List.app (Service.buildMessages stringify prompt images history st) tail
       /\ pending_after [] tail = Some [].
Proof.
  unfold Service.query.
  destruct (negb (Js.nonempty (Service.pat st))); [left; reflexivity |].
  pose proof (customSystemPrompt_ensureCopilotToken remote st) as Hc.
  destruct (Service.ensureCopilotToken remote st) as [[tok | message] st1];
    [| left; reflexivity].
  cbn [snd] in Hc. right.
  match goal with
  | |- context [Service.rounds_loop host remote names vaultPath ?n tok ?ms ?s] =>
      destruct (service_rounds_loop_answers host remote names vaultPath n tok ms s)
        as (tail & Ht & Hp);
      destruct (Service.rounds_loop host remote names vaultPath n tok ms s)
        as [[r messages2] st2]
  end.
  cbn [fst snd] in Ht |- *. exists tail. split; [| exact Hp].
  rewrite Ht. unfold Service.buildMessages. rewrite Hc. reflexivity.
Qed.

Lemma aborted_cancel st : Plugin.aborted st = true -> Plugin.aborted (Plugin.cancel st) = true.
Proof.
  unfold Plugin.cancel, Plugin.aborted.
  destruct (Plugin.abortController st) as [b |]; [reflexivity | discriminate].
Qed.

Lemma aborted_await remote st :
  Plugin.aborted st = true -> Plugin.aborted (Plugin.await remote st) = true.
Proof.
  intros H. unfold Plugin.await.
  destruct (cancel_at remote (Plugin.tick st)); fields; [apply aborted_cancel |]; exact H.
Qed.

Lemma plugin_executeToolCalls_answers host remote vaultPath tcs results st results' st' :
  Plugin.executeToolCalls host remote vaultPath tcs results st = (Some results', st') ->
  Plugin.aborted st' = false ->
  exists answers_,
    results' = List.app results answers_
    /\ forall pending, pending_after (List.app tcs pending) answers_ = Some pending.
Proof.
  revert results st. induction tcs as [| tc tcs IH]; intros results st He Ha.
  - cbn in He. injection He as <- <-. exists [].
    split; [rewrite List.app_nil_r; reflexivity | reflexivity].
  - cbn [Plugin.executeToolCalls] in He.
    destruct (Plugin.aborted st) eqn:Est.
    { injection He as <- <-. congruence. }
    destruct (Plugin.execute host vaultPath _ _ _) as [[result |] fs']; [| discriminate].
    destruct (IH _ _ He Ha) as (rs & Heq & Hp).
    eexists (_ :: rs). split.
    + rewrite Heq, <- List.app_assoc. reflexivity.
    + intros pending. cbn [List.app pending_after answers role tool_call_id].
      rewrite String.eqb_refl. apply Hp.
Qed.

Lemma plugin_processRound_pushes remote tok st :
  match (Plugin.processRound remote tok st).1 with
  | Ok (Some assistantMessage) =>
      Plugin.messages (Plugin.processRound remote tok st).2
      = List.app (Plugin.messages st) [assistantMessage]
      /\ role assistantMessage = assistant
  | _ => Plugin.messages (Plugin.processRound remote tok st).2 = Plugin.messages st
  end.
Proof.
  unfold Plugin.processRound.
  destruct (requestUrl remote tok _ _) as [wire | message].
  - destruct (Plugin.aborted (Plugin.await remote (Plugin.place (ChatRequest tok) st))) eqn:Ea.
    + cbn [fst snd]. fields. cbn [Plugin.fullText Js.nonempty String.eqb negb].
      rewrite messages_await. split; reflexivity.
    + destruct (Plugin.stream_lines wire _ _) as [r st1] eqn:Es.
      assert (Hm : Plugin.messages st1 = Plugin.messages st).
      { change st1 with ((r, st1).2). rewrite <- Es, messages_stream_lines, messages_await.
        reflexivity. }
      destruct r as [acc |]; cbn [fst snd]; [| exact Hm].
      destruct (Js.nonempty (Plugin.fullText acc)); fields; rewrite Hm; split; reflexivity.
  - destruct (Plugin.fallback remote tok _ _) as [r st1] eqn:Ef.
    assert (Hm : Plugin.messages st1 = Plugin.messages st).
    { change st1 with ((r, st1).2). rewrite <- Ef, messages_fallback, messages_await.
      reflexivity. }
    destruct r as [acc | message']; cbn [fst snd]; [| exact Hm].
    destruct (Js.nonempty (Plugin.fullText acc)); fields; rewrite Hm; split; reflexivity.
Qed.

Lemma plugin_rounds_loop_protocol host remote vaultPath left tok st :
  exists tail,
    Plugin.messages (Plugin.rounds_loop host remote vaultPath left tok st).2
    = List.app (Plugin.messages st) tail
    /\ at_most_last_unanswered tail.
Proof.
  revert st. induction left as [| left IH]; intros st.
  - exists []. split; [cbn; rewrite List.app_nil_r; reflexivity |].
    exists []. split; [reflexivity | left; reflexivity].
  - cbn [Plugin.rounds_loop].
    assert (Hnil : exists tail, Plugin.messages st = List.app (Plugin.messages st) tail
                                /\ at_most_last_unanswered tail).
    { exists []. split; [rewrite List.app_nil_r; reflexivity |].
      exists []. split; [reflexivity | left; reflexivity]. }
    destruct (Plugin.aborted st); [exact Hnil |].
    pose proof (plugin_processRound_pushes remote tok st) as Hp.
    destruct (Plugin.processRound remote tok st) as [[[am |] | message] st1];
      cbn [fst snd] in Hp |- *; try (rewrite Hp; exact Hnil).
    destruct Hp as [Hm Hrole].
    destruct (tool_calls am) as [[| tc tcs] |] eqn:Etc.
    + exists [am]. split; [exact Hm |].
      exists []. split; [| left; reflexivity].
      cbn [pending_after]. rewrite Hrole, Etc. reflexivity.
    + pose proof (messages_executeToolCalls host remote vaultPath (tc :: tcs) [] st1) as Hme.
      destruct (Plugin.executeToolCalls host remote vaultPath (tc :: tcs) [] st1)
        as [[toolResults |] st2] eqn:He; cbn [snd] in Hme |- *.
      * assert (Hdangling : exists tail,
                   Plugin.messages st2 = List.app (Plugin.messages st) tail
                   /\ at_most_last_unanswered tail).
        { exists [am]. split; [rewrite Hme; exact Hm |].
          exists (tc :: tcs). split.
          - cbn [pending_after]. rewrite Hrole, Etc. reflexivity.
          - right. exists [], am. split; [reflexivity | exact Etc]. }
        destruct (Plugin.aborted st2) eqn:Ea2; [exact Hdangling |].
        destruct (plugin_executeToolCalls_answers _ _ _ _ _ _ _ _ He Ea2)
          as (rs & Heq & Hans).
        cbn [List.app] in Heq. subst toolResults.
        destruct (IH (Plugin.push rs st2)) as (tail & Ht & p & Hq & Hlast).
        exists (am :: List.app rs tail). split.
        -- rewrite Ht. fields. rewrite Hme, Hm, <- !List.app_assoc. reflexivity.
        -- exists p. split.
           ++ cbn [pending_after]. rewrite Hrole, Etc.
              change (default [] (Some (tc :: tcs))) with (tc :: tcs).
              rewrite pending_after_app.
              specialize (Hans []). rewrite List.app_nil_r in Hans. rewrite Hans. exact Hq.
           ++ destruct Hlast as [-> | (front & m & -> & Hm')]; [left; reflexivity |].
              right. exists (am :: List.app rs front), m.
              split; [| exact Hm'].
              cbn [List.app]. rewrite <- List.app_assoc. reflexivity.
      * exists [am]. split; [rewrite Hme; exact Hm |].
        exists (tc :: tcs). split.
        -- cbn [pending_after]. rewrite Hrole, Etc. reflexivity.
        -- right. exists [], am. split; [reflexivity | exact Etc].
    + exists [am]. split; [exact Hm |].
      exists []. split; [| left; reflexivity].
      cbn [pending_after]. rewrite Hrole, Etc. reflexivity.
Qed.

(** X17. A send of the plug-in keeps the history in the protocol of tool
    calls: when every tool call of the history is answered before the
    send, then after it every tool call is answered by the tool messages
    right after its assistant message, in order and by id, except at most
    the calls of the very last message (a send that was cancelled or
    failed while its tools ran). *)
Theorem send_keeps_the_tool_protocol host remote vaultPath userMessage st :
  pending_after [] (Plugin.messages st) = Some [] ->
  exists p,
    pending_after [] (Plugin.messages (Plugin.send host remote vaultPath userMessage st))
    = Some p
    /\ (p = []
        \/ exists front m,
             Plugin.messages (Plugin.send host remote vaultPath userMessage st)
             = List.app front [m]
             /\ tool_calls m = Some p).
Proof.
  intros Hwf.
  assert (Hgoal : forall st' tail,
             Plugin.messages st'
             = List.app (Plugin.messages st)
                 (mkChatMessage user (Some userMessage) None None :: tail) ->
             at_most_last_unanswered tail ->
             exists p,
               pending_after [] (Plugin.messages st') = Some p
               /\ (p = [] \/ exists front m,
                              Plugin.messages st' = List.app front [m]
                              /\ tool_calls m = Some p)).
  { intros st' tail Hm (p & Hp & Hlast). exists p. split.
    - rewrite Hm, pending_after_app, Hwf. exact Hp.
    - destruct Hlast as [-> | (front & m & -> & Hm')]; [left; reflexivity |].
      right. exists (List.app (Plugin.messages st)
                       (mkChatMessage user (Some userMessage) None None :: front)), m.
      split; [| exact Hm']. rewrite Hm, <- List.app_assoc. reflexivity. }
  assert (Hempty : at_most_last_unanswered []).
  { exists []. split; [reflexivity | left; reflexivity]. }
  unfold Plugin.send.
  set (st0 := Plugin.push _ (Plugin.set_abortController (Some false) st)).
  assert (H0 : Plugin.messages st0
               = List.app (Plugin.messages st)
                   [mkChatMessage user (Some userMessage) None None]) by reflexivity.
  pose proof (messages_ensureToken remote st0) as He.
  destruct (Plugin.ensureToken remote st0) as [[tok | message] st1]; cbn [snd] in He.
  - destruct (plugin_rounds_loop_protocol host remote vaultPath Plugin.MAX_TOOL_ROUNDS tok st1)
      as (tail & Ht & Hlast).
    destruct (Plugin.rounds_loop host remote vaultPath Plugin.MAX_TOOL_ROUNDS tok st1)
      as [r st2].
    cbn [snd] in Ht.
    assert (Hm2 : Plugin.messages st2
                  = List.app (Plugin.messages st)
                      (mkChatMessage user (Some userMessage) None None :: tail)).
    { rewrite Ht, He, H0, <- List.app_assoc. reflexivity. }
    destruct r as [[| |] | message]; try (apply (Hgoal _ tail); [exact Hm2 | exact Hlast]).
    destruct (negb (Plugin.aborted st2)); apply (Hgoal _ tail); assumption.
  - destruct (negb (Plugin.aborted st1)); apply (Hgoal _ []); try exact Hempty;
      fields; rewrite He, H0; reflexivity.
Qed.

Lemma send_keeps_the_tool_protocol_witness :
  exists p,
    pending_after []
      (Plugin.messages
         (Plugin.send quiet_host (scripted_remote Plugin.WLine (plugin_wire [list_vault]))
            "/vault" "hi" plugin_0))
    = Some p
    /\ (p = []
        \/ exists front m,
             Plugin.messages
               (Plugin.send quiet_host (scripted_remote Plugin.WLine (plugin_wire [list_vault]))
                  "/vault" "hi" plugin_0)
             = List.app front [m]
             /\ tool_calls m = Some p).
Proof.
  apply (send_keeps_the_tool_protocol quiet_host
           (scripted_remote Plugin.WLine (plugin_wire [list_vault])) "/vault" "hi" plugin_0).
  vm_compute. reflexivity.
Defined.

(** ** The token, in general *)

(** X18. In one send of the plug-in the token is settled once, before the
    first round: from then on the loop deals with the remote side only in
    chat requests, all of which carry that token; it neither looks at the
    expiry of the token nor fetches another, however many rounds the send
    takes. When no token can be had, the send places no call after the
    attempt. *)
Theorem send_places_every_chat_with_one_token host remote vaultPath userMessage st :
  match Plugin.ensureToken remote
          (Plugin.push [mkChatMessage user (Some userMessage) None None]
             (Plugin.set_abortController (Some false) st)) with
  | (Ok tok, st1) =>
      places_chats_with tok st1 (Plugin.send host remote vaultPath userMessage st)
  | (Throw _, st1) =>
      Plugin.calls (Plugin.send host remote vaultPath userMessage st) = Plugin.calls st1
  end.
Proof. apply plugin_send_keeps_its_token. Qed.

(** [ensureCopilotToken] places no chat request, and it looks at the
    token or fetches one. *)
Lemma service_ensureCopilotToken_looks remote st :
  exists cs,
    Service.calls (Service.ensureCopilotToken remote st).2 = List.app (Service.calls st) cs
    /\ rechecked false cs = true
    /\ (forall fresh, fresh_after fresh cs = true)
    /\ (forall tok, (Service.ensureCopilotToken remote st).1 = Ok tok ->
                    Service.copilotToken (Service.ensureCopilotToken remote st).2 <> None).
Proof.
  unfold Service.ensureCopilotToken.
  destruct (Service.copilotToken st) as [t |] eqn:Et.
  - destruct (isTokenExpired _ _ _) eqn:Ex; cbn [negb].
    + match goal with
      | |- context [Service.fetchToken remote ?s] =>
          destruct (service_fetchToken_places remote s) as [Hc Ht]
      end.
      exists [ExpiryCheck true; TokenFetch].
      split; [rewrite Hc; service_fields; rewrite <- List.app_assoc; reflexivity |].
      split; [reflexivity |]. split; [reflexivity | exact Ht].
    + exists [ExpiryCheck false].
      split; [reflexivity |]. split; [reflexivity |]. split; [reflexivity |].
      intros tok _. service_fields. rewrite Et. discriminate.
  - destruct (service_fetchToken_places remote st) as [Hc Ht].
    exists [TokenFetch]. split; [exact Hc |]. split; [reflexivity |].
    split; [reflexivity | exact Ht].
Qed.

(** X19. In a query of the service during which nobody puts in another
    secret ([updatePat] is called neither while the query waits nor while
    it reads a response), each chat request comes after a look at the token
    (its expiry is read, or a token is fetched) that is later than the
    request before it, and the first request comes after such a look as
    well: no round is asked for on a token that has not been looked at
    since the round before. *)
Theorem query_looks_at_the_token_before_every_request host remote names stringify vaultPath
  prompt images history st :
  pat_stays remote ->
  exists cs,
    Service.calls
      (Service.query host remote names stringify vaultPath prompt images history st).2
    = List.app (Service.calls st) cs
    /\ rechecked false cs = true.
Proof.
  intros Hstays.
  unfold Service.query.
  destruct (negb (Js.nonempty (Service.pat st))).
  { exists []. rewrite List.app_nil_r. split; reflexivity. }
  destruct (service_ensureCopilotToken_looks remote st) as (cs & Hc & Hr & Hf & Ht).
  destruct (Service.ensureCopilotToken remote st) as [[tok | message] st1];
    cbn [fst snd] in Hc, Ht |- *.
  - match goal with
    | |- context [Service.rounds_loop host remote names vaultPath ?n tok ?ms ?s] =>
        destruct (service_rounds_loop_rechecks host remote names vaultPath n tok ms s Hstays)
          as (cs' & Hc' & Hr');
        [service_fields; apply (Ht tok eq_refl) |];
        destruct (Service.rounds_loop host remote names vaultPath n tok ms s)
          as [[r messages2] st2]
    end.
    cbn [snd] in Hc'.
    exists (List.app cs cs'). split.
    + assert (E : Service.calls st2 = List.app (Service.calls st) (List.app cs cs')).
      { rewrite Hc'. service_fields. rewrite Hc, <- List.app_assoc. reflexivity. }
      destruct r as [[|] | message]; try destruct (negb (Service.aborted st2));
        cbn [snd]; service_fields; exact E.
    + rewrite rechecked_app, Hr, Hf, Hr'. reflexivity.
  - exists cs. split; [exact Hc | exact Hr].
Qed.

Lemma query_looks_at_the_token_before_every_request_witness :
  (exists cs,
      Service.calls
        (Service.query quiet_host (short_lived Service.SLine) TOOL_NAMES (fun _ => "{}")
           "/vault" "hi" 0%nat None service_0).2
      = List.app (Service.calls service_0) cs
      /\ rechecked false cs = true)
  /\ Service.calls
       (Service.query quiet_host (short_lived Service.SLine) TOOL_NAMES (fun _ => "{}")
          "/vault" "hi" 0%nat None service_0).2
     = [TokenFetch; ChatRequest "t0"; ExpiryCheck true; ExpiryCheck true; TokenFetch;
        ChatRequest "t1"].
Proof.
  split; [| vm_compute; reflexivity].
  apply (query_looks_at_the_token_before_every_request quiet_host
           (short_lived Service.SLine) TOOL_NAMES (fun _ => "{}") "/vault" "hi" 0%nat None
           service_0).
  split; [intros n; reflexivity |].
  intros tok messages model wire H. simpl in H.
  destruct (List.length messages <=? 2)%nat; injection H as <-; reflexivity.
Defined.

(** Without that, the look can be missing. The user puts in another secret
    while the tool of the first round runs: the service forgets its token,
    and [query], which looks at the expiry only of a token that it holds,
    places the request of the second round with the token of the first,
    stale as it is, without a look. *)
Example query_after_updatePat_skips_the_look :
  Service.calls
    (Service.query quiet_host reauthenticating TOOL_NAMES (fun _ => "{}")
       "/vault" "hi" 0%nat None service_0).2
  = [TokenFetch; ChatRequest "t0"; ChatRequest "t0"]
  /\ rechecked false [TokenFetch; ChatRequest "t0"; ChatRequest "t0"] = false.
Proof. split; vm_compute; reflexivity. Qed.

(** ** The stream of the service, line by line *)

Lemma split_on_is_cons c s : exists h t, JS.split_on c s = h :: t.
Proof.
  induction s as [| a s IH]; [eexists _, _; reflexivity |].
  cbn [JS.split_on]. destruct (Ascii.eqb a c); [eexists _, _; reflexivity |].
  destruct IH as (h & t & ->). eexists _, _; reflexivity.
Qed.

Lemma removelast_cons_cons {A : Type} (x y : A) l :
  List.removelast (x :: y :: l) = x :: List.removelast (y :: l).
Proof. reflexivity. Qed.

Lemma split_on_app c a b :
  JS.split_on c (a +:+ b)
  = List.app (List.removelast (JS.split_on c a))
      (JS.split_on c (List.last (JS.split_on c a) "" +:+ b)).
Proof.
  induction a as [| x a IH]; [reflexivity |].
  change (String x a +:+ b) with (String x (a +:+ b)).
  cbn [JS.split_on].
  destruct (split_on_is_cons c a) as (h & t & Ha).
  destruct (Ascii.eqb x c) eqn:Ex.
  - rewrite IH, Ha. destruct t; reflexivity.
  - rewrite IH, Ha.
    destruct t as [| h' t].
    + cbn [List.removelast List.last List.app].
      change (String x h +:+ b) with (String x (h +:+ b)).
      cbn [JS.split_on]. rewrite Ex. reflexivity.
    + cbn [List.last]. rewrite !removelast_cons_cons. cbn [List.app].
      destruct (split_on_is_cons c (List.last (h' :: t) "" +:+ b)) as (h2 & t2 & H2).
      reflexivity.
Qed.

Lemma complete_unfinished text : complete_lines (unfinished_line text) = [].
Proof.
  unfold complete_lines, unfinished_line.
  induction text as [| a s IH]; [reflexivity |].
  cbn [JS.split_on].
  destruct (split_on_is_cons "010" s) as (h & t & Hs). rewrite Hs in *.
  destruct (Ascii.eqb a "010") eqn:Ea.
  - destruct t; exact IH.
  - destruct t as [| h' t].
    + cbn [List.last] in *. cbn [JS.split_on]. rewrite Ea.
      destruct (split_on_is_cons "010" h) as (h2 & t2 & H2). rewrite H2 in *.
      destruct t2; [reflexivity | discriminate IH].
    + exact IH.
Qed.

Lemma read_loop_complete_lines reads buffer :
  complete_lines buffer = [] ->
  ServiceClient.read_loop reads buffer = complete_lines (buffer +:+ concat_all reads).
Proof.
  revert buffer. induction reads as [| value reads IH]; intros buffer Hb.
  - cbn [ServiceClient.read_loop concat_all List.fold_right].
    rewrite append_nil_r. symmetry. exact Hb.
  - cbn [ServiceClient.read_loop ServiceClient.take_lines concat_all List.fold_right].
    fold (concat_all reads).
    pose proof (IH _ (complete_unfinished (buffer +:+ value))) as IH'.
    unfold unfinished_line in IH'. rewrite IH'.
    rewrite <- append_assoc.
    unfold complete_lines.
    rewrite (split_on_app "010" (buffer +:+ value) (concat_all reads)).
    destruct (split_on_is_cons "010"
                (List.last (JS.split_on "010" (buffer +:+ value)) "" +:+ concat_all reads))
      as (h & t & H).
    rewrite H.
    rewrite List.removelast_app by discriminate. reflexivity.
Qed.

(** X20. However the body of the response is cut into reads, [streamChat]
    of the service sees the same lines: the lines of the whole text that
    end in a line feed, each one once and in order. Text after the last
    line feed is never looked at, not even when the stream ends. *)
Theorem stream_is_read_line_by_line parse reads :
  ServiceClient.streamChat parse reads
  = List.map (fun line => Service.SLine (ServiceClient.on_line parse line))
      (complete_lines (concat_all reads)).
Proof.
  unfold ServiceClient.streamChat.
  rewrite (read_loop_complete_lines reads "" eq_refl). reflexivity.
Qed.

(** ** The device code flow *)

Lemma paced_refl pace deadline w : paced pace deadline w w.
Proof. exists O. split; [lia |]. split; [lia | left; reflexivity]. Qed.

Lemma paced_step endpoint pace ms deadline w w' :
  punctual endpoint -> 0 <= pace <= ms -> Auth.now w < deadline ->
  paced pace deadline (Auth.post endpoint (Auth.sleep endpoint ms w)).2 w' ->
  paced pace deadline w w'.
Proof.
  intros [Hs Hp] Hms Hlt (n & Hn & Hnow & Hlast).
  cbn [Auth.post Auth.sleep snd Auth.now Auth.polls Auth.slept] in *.
  exists (S n). split; [lia |].
  specialize (Hs (List.length (Auth.slept w))). specialize (Hp (Auth.polls w)).
  split; [nia |].
  right. destruct Hlast as [-> | Hlast]; [cbn; lia | nia].
Qed.

Lemma paced_once endpoint pace ms deadline w :
  punctual endpoint -> 0 <= pace <= ms -> Auth.now w < deadline ->
  paced pace deadline w (Auth.post endpoint (Auth.sleep endpoint ms w)).2.
Proof.
  intros He Hms Hlt. eapply paced_step; try eassumption. apply paced_refl.
Qed.

Lemma plugin_poll_ends endpoint fuel interval deadline w :
  punctual endpoint -> 1 <= interval ->
  (1 <= fuel)%nat -> deadline - Auth.now w <= 1000 * (Z.of_nat fuel - 1) ->
  exists result w',
    PluginAuth.poll endpoint fuel interval deadline w = (Some result, w')
    /\ paced (interval * 1000) deadline w w'.
Proof.
  intros He Hi. revert w. induction fuel as [| fuel IH]; intros w Hf Hd; [lia |].
  cbn [PluginAuth.poll].
  destruct (Auth.now w <? deadline) eqn:Hlt.
  2: { eexists _, _. split; [reflexivity | apply paced_refl]. }
  apply Z.ltb_lt in Hlt.
  pose proof (paced_once endpoint (interval * 1000) (interval * 1000) deadline w He
                ltac:(lia) Hlt) as Hone.
  destruct (Auth.post endpoint (Auth.sleep endpoint (interval * 1000) w)) as [reply w1] eqn:Hpost.
  cbn [snd] in Hone.
  assert (Hnow : Auth.now w + 1000 <= Auth.now w1).
  { apply (f_equal snd) in Hpost.
    cbn [Auth.post Auth.sleep snd Auth.now Auth.polls Auth.slept] in Hpost. subst w1.
    cbn [Auth.now]. destruct He as [Hs Hp].
    specialize (Hs (List.length (Auth.slept w))). specialize (Hp (Auth.polls w)). lia. }
  destruct reply as [data | message]; [| eexists _, _; split; [reflexivity | exact Hone]].
  destruct (Js.truthy (Js.get data "access_token"));
    [eexists _, _; split; [reflexivity | exact Hone] |].
  destruct (Auth.is_string (Js.get data "error") "expired_token");
    [eexists _, _; split; [reflexivity | exact Hone] |].
  destruct (_ && _); [eexists _, _; split; [reflexivity | exact Hone] |].
  destruct (IH w1) as (result & w' & Hr & Hpaced); [lia | lia |].
  exists result, w'. split; [exact Hr |].
  apply (paced_step endpoint _ (interval * 1000) _ w w' He); [lia | exact Hlt |].
  rewrite Hpost. exact Hpaced.
Qed.

Lemma service_poll_ends endpoint fuel interval pollInterval deadline w :
  punctual endpoint -> 1 <= interval -> interval * 1000 <= pollInterval ->
  (1 <= fuel)%nat -> deadline - Auth.now w <= 1000 * (Z.of_nat fuel - 1) ->
  exists result w',
    ServiceAuth.poll endpoint fuel pollInterval deadline w = (Some result, w')
    /\ paced (interval * 1000) deadline w w'.
Proof.
  intros He Hi. revert pollInterval w.
  induction fuel as [| fuel IH]; intros pollInterval w Hpi Hf Hd; [lia |].
  cbn [ServiceAuth.poll].
  destruct (Auth.now w <? deadline) eqn:Hlt.
  2: { eexists _, _. split; [reflexivity | apply paced_refl]. }
  apply Z.ltb_lt in Hlt.
  pose proof (paced_once endpoint (interval * 1000) pollInterval deadline w He
                ltac:(lia) Hlt) as Hone.
  destruct (Auth.post endpoint (Auth.sleep endpoint pollInterval w)) as [reply w1] eqn:Hpost.
  cbn [snd] in Hone.
  assert (Hnow : Auth.now w + 1000 <= Auth.now w1).
  { apply (f_equal snd) in Hpost.
    cbn [Auth.post Auth.sleep snd Auth.now Auth.polls Auth.slept] in Hpost. subst w1.
    cbn [Auth.now]. destruct He as [Hs Hp].
    specialize (Hs (List.length (Auth.slept w))). specialize (Hp (Auth.polls w)). lia. }
  assert (Hgo : forall pollInterval',
             interval * 1000 <= pollInterval' ->
             exists result w',
               ServiceAuth.poll endpoint fuel pollInterval' deadline w1 = (Some result, w')
               /\ paced (interval * 1000) deadline w w').
  { intros pollInterval' Hpi'.
    destruct (IH pollInterval' w1) as (result & w' & Hr & Hpaced); [lia | lia | lia |].
    exists result, w'. split; [exact Hr |].
    apply (paced_step endpoint _ pollInterval _ w w' He); [lia | exact Hlt |].
    rewrite Hpost. exact Hpaced. }
  destruct reply as [data | message]; [| eexists _, _; split; [reflexivity | exact Hone]].
  destruct (Js.truthy (Js.get data "access_token"));
    [eexists _, _; split; [reflexivity | exact Hone] |].
  destruct (Auth.is_string (Js.get data "error") "slow_down"); [apply Hgo; lia |].
  destruct (Auth.is_string (Js.get data "error") "authorization_pending"); [apply Hgo; lia |].
  destruct (Auth.is_string (Js.get data "error") "expired_token");
    [eexists _, _; split; [reflexivity | exact Hone] |].
  destruct (Js.truthy (Js.get data "error"));
    [eexists _, _; split; [reflexivity | exact Hone] |].
  apply Hgo. lia.
Qed.

(** X21. With timers that do not fire early, requests that take no
    negative time and an interval of at least one second,
    [pollForAccessToken] comes to an end in both implementations, with a
    token or an error, within one turn of its loop per second of
    [expiresIn] and one more. Its requests take at least [interval]
    seconds each, and all of them but the last fit before the deadline. *)
Theorem polling_ends_and_keeps_the_pace endpoint fuel interval expiresIn w :
  punctual endpoint -> 1 <= interval -> (Z.to_nat expiresIn < fuel)%nat ->
  (exists result w',
      PluginAuth.pollForAccessToken endpoint fuel interval expiresIn w = (Some result, w')
      /\ paced (interval * 1000) (Auth.now w + expiresIn * 1000) w w')
  /\ (exists result w',
         ServiceAuth.pollForAccessToken endpoint fuel interval expiresIn w
         = (Some result, w')
         /\ paced (interval * 1000) (Auth.now w + expiresIn * 1000) w w').
Proof.
  intros He Hi Hf. split.
  - apply plugin_poll_ends; try assumption; lia.
  - apply (service_poll_ends endpoint fuel interval); try assumption; lia.
Qed.

Lemma polling_ends_and_keeps_the_pace_witness :
  (exists result w',
      PluginAuth.pollForAccessToken patient_endpoint 10 5 9 (Auth.mkPolling 0 0 [])
      = (Some result, w')
      /\ paced (5 * 1000) (Auth.now (Auth.mkPolling 0 0 []) + 9 * 1000)
           (Auth.mkPolling 0 0 []) w')
  /\ (exists result w',
         ServiceAuth.pollForAccessToken patient_endpoint 10 5 9 (Auth.mkPolling 0 0 [])
         = (Some result, w')
         /\ paced (5 * 1000) (Auth.now (Auth.mkPolling 0 0 []) + 9 * 1000)
              (Auth.mkPolling 0 0 []) w').
Proof.
  apply (polling_ends_and_keeps_the_pace patient_endpoint 10 5 9 (Auth.mkPolling 0 0 [])).
  - split; intros n; simpl; lia.
  - lia.
  - simpl. lia.
Defined.

Lemma plugin_poll_sleeps endpoint fuel interval deadline w :
  exists n,
    Auth.polls (PluginAuth.poll endpoint fuel interval deadline w).2 = (Auth.polls w + n)%nat
    /\ Auth.slept (PluginAuth.poll endpoint fuel interval deadline w).2
       = List.app (Auth.slept w) (List.repeat (interval * 1000) n).
Proof.
  revert w. induction fuel as [| fuel IH]; intros w.
  { exists O. cbn. rewrite List.app_nil_r. split; [lia | reflexivity]. }
  cbn [PluginAuth.poll].
  destruct (Auth.now w <? deadline).
  2: { exists O. cbn. rewrite List.app_nil_r. split; [lia | reflexivity]. }
  assert (Hone : exists n,
             Auth.polls (Auth.post endpoint (Auth.sleep endpoint (interval * 1000) w)).2
             = (Auth.polls w + n)%nat
             /\ Auth.slept (Auth.post endpoint (Auth.sleep endpoint (interval * 1000) w)).2
                = List.app (Auth.slept w) (List.repeat (interval * 1000) n)).
  { exists 1%nat. cbn. split; [lia | reflexivity]. }
  specialize (IH (Auth.post endpoint (Auth.sleep endpoint (interval * 1000) w)).2).
  destruct (Auth.post endpoint (Auth.sleep endpoint (interval * 1000) w)) as [reply w1] eqn:Hpost.
  cbn [snd] in *.
  destruct reply as [data | message]; [| exact Hone].
  destruct (Js.truthy (Js.get data "access_token")); [exact Hone |].
  destruct (Auth.is_string (Js.get data "error") "expired_token"); [exact Hone |].
  destruct (_ && _); [exact Hone |].
  destruct IH as (n & Hn & Hs).
  apply (f_equal snd) in Hpost.
  cbn [Auth.post Auth.sleep snd Auth.polls Auth.slept Auth.now] in Hpost. subst w1.
  cbn [Auth.polls Auth.slept] in Hn, Hs.
  exists (S n). split; [lia |].
  rewrite Hs, <- List.app_assoc. reflexivity.
Qed.

Lemma service_poll_sleeps endpoint fuel pollInterval deadline w :
  exists n,
    Auth.polls (ServiceAuth.poll endpoint fuel pollInterval deadline w).2 = (Auth.polls w + n)%nat
    /\ Auth.slept (ServiceAuth.poll endpoint fuel pollInterval deadline w).2
       = List.app (Auth.slept w)
           (List.map (fun i => pollInterval + 5000 * slow_downs endpoint (Auth.polls w) i)
              (List.seq 0 n)).
Proof.
  revert pollInterval w. induction fuel as [| fuel IH]; intros pollInterval w.
  { exists O. cbn. rewrite List.app_nil_r. split; [lia | reflexivity]. }
  cbn [ServiceAuth.poll].
  destruct (Auth.now w <? deadline).
  2: { exists O. cbn. rewrite List.app_nil_r. split; [lia | reflexivity]. }
  assert (Hone : exists n,
             Auth.polls (Auth.post endpoint (Auth.sleep endpoint pollInterval w)).2
             = (Auth.polls w + n)%nat
             /\ Auth.slept (Auth.post endpoint (Auth.sleep endpoint pollInterval w)).2
                = List.app (Auth.slept w)
                    (List.map (fun i => pollInterval
                                        + 5000 * slow_downs endpoint (Auth.polls w) i)
                       (List.seq 0 n))).
  { exists 1%nat. cbn. split; [lia |]. do 2 f_equal. lia. }
  assert (Hgo : forall pollInterval',
             pollInterval'
             = pollInterval
               + 5000 * (if backs_off (Auth.post_reply endpoint (Auth.polls w)) then 1 else 0) ->
             exists n,
               Auth.polls (ServiceAuth.poll endpoint fuel pollInterval' deadline
                        (Auth.post endpoint (Auth.sleep endpoint pollInterval w)).2).2
               = (Auth.polls w + n)%nat
               /\ Auth.slept (ServiceAuth.poll endpoint fuel pollInterval' deadline
                           (Auth.post endpoint (Auth.sleep endpoint pollInterval w)).2).2
                  = List.app (Auth.slept w)
                      (List.map (fun i => pollInterval
                                          + 5000 * slow_downs endpoint (Auth.polls w) i)
                         (List.seq 0 n))).
  { intros pollInterval' Hp.
    destruct (IH pollInterval' (Auth.post endpoint (Auth.sleep endpoint pollInterval w)).2)
      as (n & Hn & Hs).
    cbn [Auth.post Auth.sleep snd Auth.polls Auth.slept] in Hn, Hs |- *.
    exists (S n). split; [lia |].
    rewrite Hs, <- List.app_assoc. f_equal.
    cbn [List.seq List.map List.app slow_downs]. f_equal; [lia |].
    rewrite <- List.seq_shift, List.map_map.
    apply List.map_ext. intros i. cbn [slow_downs]. lia. }
  unfold Auth.post in *. cbn [fst snd] in *.
  change (Auth.polls (Auth.sleep endpoint pollInterval w)) with (Auth.polls w) in *.
  destruct (Auth.post_reply endpoint (Auth.polls w)) as [data | message]; [| exact Hone].
  cbn [backs_off] in Hgo.
  destruct (Js.truthy (Js.get data "access_token")); [exact Hone |].
  cbn [negb andb] in Hgo.
  destruct (Auth.is_string (Js.get data "error") "slow_down"); [apply Hgo; lia |].
  destruct (Auth.is_string (Js.get data "error") "authorization_pending"); [apply Hgo; lia |].
  destruct (Auth.is_string (Js.get data "error") "expired_token"); [exact Hone |].
  destruct (Js.truthy (Js.get data "error")); [exact Hone |].
  apply Hgo. lia.
Qed.

(** X22. Only the service backs off. The plug-in asks for the same sleep,
    [interval] seconds, before every request, whatever the endpoint has
    answered; the service asks for [interval] seconds and five seconds more
    for every [slow_down] it has been answered with so far. *)
Theorem only_the_service_backs_off endpoint fuel interval expiresIn w :
  (exists n,
      Auth.polls (PluginAuth.pollForAccessToken endpoint fuel interval expiresIn w).2
      = (Auth.polls w + n)%nat
      /\ Auth.slept (PluginAuth.pollForAccessToken endpoint fuel interval expiresIn w).2
         = List.app (Auth.slept w) (List.repeat (interval * 1000) n))
  /\ (exists n,
         Auth.polls (ServiceAuth.pollForAccessToken endpoint fuel interval expiresIn w).2
         = (Auth.polls w + n)%nat
         /\ Auth.slept (ServiceAuth.pollForAccessToken endpoint fuel interval expiresIn w).2
            = List.app (Auth.slept w)
                (List.map (fun i => interval * 1000
                                    + 5000 * slow_downs endpoint (Auth.polls w) i)
                   (List.seq 0 n))).
Proof. split; [apply plugin_poll_sleeps | apply service_poll_sleeps]. Qed.

(** ** The chat view *)

Lemma contents_update_last f ms :
  (forall m, Chat.sm_content (f m) = Chat.sm_content m) ->
  List.map Chat.sm_content (Chat.update_last f ms) = List.map Chat.sm_content ms.
Proof.
  intros Hf. unfold Chat.update_last.
  destruct (List.rev ms) as [| last before] eqn:Hr; [reflexivity |].
  destruct (Chat.is_assistant last); [| reflexivity].
  rewrite <- (List.rev_involutive ms), Hr.
  cbn [List.rev]. rewrite !List.map_app. cbn [List.map]. rewrite Hf. reflexivity.
Qed.

Lemma contents_update_latest id status result rev_ms :
  List.map Chat.sm_content (Chat.update_latest id status result rev_ms)
  = List.map Chat.sm_content rev_ms.
Proof.
  induction rev_ms as [| msg earlier IH]; [reflexivity |].
  cbn [Chat.update_latest].
  destruct (Chat.toolCalls msg) as [tcs |].
  - destruct (Chat.update_found id status result tcs); cbn [List.map Chat.sm_content];
      [reflexivity | rewrite IH; reflexivity].
  - cbn [List.map]. rewrite IH. reflexivity.
Qed.

Lemma scroll_if_auto_keeps c :
  contents (Chat.scroll_if_auto c) = contents c
  /\ Chat.fullText (Chat.scroll_if_auto c) = Chat.fullText c
  /\ shown (Chat.scroll_if_auto c) = shown c.
Proof. unfold Chat.scroll_if_auto. destruct (Chat.autoScroll c); repeat split. Qed.

Lemma handle_step Date_now (c : Chat.Controller) (e : Plugin.Event) :
  plugin_final e = false ->
  shown c = true ->
  let c' := Chat.handle Date_now c e in
  shown c' = true
  /\ Chat.fullText c'
     = Chat.fullText c +:+ match e with Plugin.TextDelta text => text | _ => "" end
  /\ contents c'
     = List.app (contents c)
         (match e with Plugin.TextDone _ => [Chat.fullText c] | _ => [] end).
Proof.
  intros Hf Hs. unfold shown in Hs.
  destruct (Chat.currentAssistantEl c) as [[wrapper contentEl] |] eqn:Hw; [| discriminate].
  destruct e as [text | fullText | id name | id partialArgs | id name input result
                | message |]; try discriminate Hf; cbn [Chat.handle]; cbv zeta.
  - unfold Chat.handleTextDelta. rewrite Hw.
    unfold Chat.scroll_if_auto, shown, contents.
    destruct (Chat.currentTextEl c) as [el |] eqn:Ht; chat_fields; rewrite ?Ht;
      chat_fields; destruct (Chat.autoScroll c); chat_fields; rewrite ?Hw, ?List.app_nil_r;
      repeat split.
  - unfold Chat.handleTextDone, Chat.addAssistantMessage, shown, contents. chat_fields.
    rewrite Hw, append_nil_r, List.map_app. repeat split.
  - unfold Chat.handleToolCallStart. rewrite Hw.
    unfold Chat.scroll_if_auto, Chat.addToolCallToLast, shown, contents. chat_fields.
    destruct (Chat.autoScroll c); chat_fields; rewrite Hw, append_nil_r, List.app_nil_r,
      contents_update_last by reflexivity; repeat split.
  - unfold Chat.handleToolCallInput, Chat.scroll_if_auto, shown, contents.
    destruct (Chat.autoScroll c); chat_fields; rewrite Hw, append_nil_r, List.app_nil_r;
      repeat split.
  - unfold Chat.handleToolCallComplete, Chat.scroll_if_auto, Chat.updateToolCallStatus,
      shown, contents.
    destruct (Chat.map_get _ _); chat_fields; destruct (Chat.autoScroll c); chat_fields;
      rewrite Hw, append_nil_r, List.app_nil_r, List.map_rev, contents_update_latest,
        <- List.map_rev, List.rev_involutive; repeat split.
Qed.

Lemma said_snoc before e :
  said (List.app before [e])
  = said before +:+ match e with Plugin.TextDelta text => text | _ => "" end.
Proof.
  unfold said. rewrite List.flat_map_app, concat_all_app. f_equal.
  destruct e; cbn; rewrite ?append_nil_r; reflexivity.
Qed.

Lemma drive_persists Date_now evs before c :
  none_of plugin_final evs = true ->
  shown c = true ->
  Chat.fullText c = said before ->
  contents (drive Date_now evs c) = List.app (contents c) (persisted before evs).
Proof.
  revert before c. induction evs as [| e evs IH]; intros before c Hq Hs Hf.
  - cbn. rewrite List.app_nil_r. reflexivity.
  - unfold none_of in Hq. cbn [List.forallb] in Hq. apply andb_prop in Hq.
    destruct Hq as [He Hq]. apply negb_true_iff in He.
    destruct (handle_step Date_now c e He Hs) as (Hs' & Hf' & Hc').
    cbn [drive List.fold_left persisted].
    change (List.fold_left (Chat.handle Date_now) evs ?x) with (drive Date_now evs x).
    rewrite (IH (List.app before [e])); [| exact Hq | exact Hs' |].
    + rewrite Hc', Hf, <- List.app_assoc. reflexivity.
    + rewrite Hf', Hf, said_snoc. reflexivity.
Qed.

(** X23. While a response is under way (from [beginResponse] on, before
    [onDone] or [onError]), the chat state gains one message for every
    [onTextDone], and its content is the text of all the deltas since the
    response began: the text of the rounds before it is in it again. No
    earlier content is changed. *)
Theorem stored_text_is_all_text_so_far Date_now evs c :
  none_of plugin_final evs = true ->
  contents (drive Date_now evs (Chat.beginResponse c))
  = List.app (contents c) (persisted [] evs).
Proof.
  intros Hq. apply (drive_persists Date_now evs [] (Chat.beginResponse c) Hq); reflexivity.
Qed.

Lemma stored_text_is_all_text_so_far_witness :
  contents
    (drive (fun _ => 0)
       [Plugin.TextDelta "a"; Plugin.TextDone "a"; Plugin.ToolCallStart "call_0" "bash";
        Plugin.TextDelta "b"; Plugin.TextDone "b"]
       (Chat.beginResponse chat_0))
  = ["a"; "ab"].
Proof.
  etransitivity;
    [apply (stored_text_is_all_text_so_far (fun _ => 0)
              [Plugin.TextDelta "a"; Plugin.TextDone "a";
               Plugin.ToolCallStart "call_0" "bash";
               Plugin.TextDelta "b"; Plugin.TextDone "b"] chat_0);
     reflexivity
    | vm_compute; reflexivity].
Defined.

Lemma messages_endResponse c : Chat.messages (Chat.endResponse c) = Chat.messages c.
Proof.
  unfold Chat.endResponse.
  destruct (Chat.currentAssistantEl c) as [[wrapper contentEl] |]; reflexivity.
Qed.

Lemma handle_keeps_empty Date_now c e :
  is_text_done e = false -> Chat.messages c = [] ->
  Chat.messages (Chat.handle Date_now c e) = [].
Proof.
  intros He Hm.
  destruct e as [text | fullText | id name | id partialArgs | id name input result
                | message |]; try discriminate He; cbn [Chat.handle].
  - unfold Chat.handleTextDelta, Chat.scroll_if_auto.
    destruct (Chat.currentAssistantEl c) as [[wrapper contentEl] |]; [| exact Hm].
    destruct (Chat.currentTextEl c) as [el |] eqn:Ht; chat_fields; rewrite ?Ht;
      chat_fields; destruct (Chat.autoScroll c); exact Hm.
  - unfold Chat.handleToolCallStart, Chat.scroll_if_auto, Chat.addToolCallToLast.
    destruct (Chat.currentAssistantEl c) as [[wrapper contentEl] |]; [| exact Hm].
    chat_fields. destruct (Chat.autoScroll c); chat_fields; rewrite Hm; reflexivity.
  - unfold Chat.handleToolCallInput, Chat.scroll_if_auto.
    destruct (Chat.autoScroll c); exact Hm.
  - unfold Chat.handleToolCallComplete, Chat.scroll_if_auto, Chat.updateToolCallStatus.
    destruct (Chat.map_get _ _); chat_fields; destruct (Chat.autoScroll c); chat_fields;
      rewrite Hm; reflexivity.
  - unfold Chat.handleError. rewrite messages_endResponse.
    destruct (Chat.currentAssistantEl c) as [[wrapper contentEl] |]; exact Hm.
  - unfold Chat.handleDone. rewrite messages_endResponse. exact Hm.
Qed.

(** X24. A chat state that holds no message stays empty as long as no
    [onTextDone] comes: the tool calls of rounds that say nothing are not
    stored, neither their start nor their result. *)
Theorem tool_calls_without_text_are_not_stored Date_now evs c :
  Chat.messages c = [] ->
  List.existsb is_text_done evs = false ->
  Chat.messages (drive Date_now evs c) = [].
Proof.
  revert c. induction evs as [| e evs IH]; intros c Hm He; [exact Hm |].
  cbn [List.existsb] in He. apply orb_false_iff in He. destruct He as [He Hes].
  cbn [drive List.fold_left]. apply IH; [| exact Hes].
  apply handle_keeps_empty; assumption.
Qed.

Lemma tool_calls_without_text_are_not_stored_witness :
  Chat.messages
    (drive (fun _ => 0)
       [Plugin.ToolCallStart "call_0" "bash";
        Plugin.ToolCallComplete "call_0" "bash" ∅ (mkToolResult "ok" false);
        Plugin.Done]
       (Chat.beginResponse chat_0))
  = [].
Proof.
  apply (tool_calls_without_text_are_not_stored (fun _ => 0)
           [Plugin.ToolCallStart "call_0" "bash";
            Plugin.ToolCallComplete "call_0" "bash" ∅ (mkToolResult "ok" false);
            Plugin.Done]
           (Chat.beginResponse chat_0)); reflexivity.
Defined.

Lemma update_found_none id status result tcs :
  List.existsb (names_call id) tcs = false ->
  Chat.update_found id status result tcs = None.
Proof.
  induction tcs as [| tc tcs IH]; intros H; [reflexivity |].
  cbn [List.existsb] in H. apply orb_false_iff in H. destruct H as [H1 H2].
  cbn [Chat.update_found]. unfold names_call in H1. rewrite H1, (IH H2). reflexivity.
Qed.

Lemma update_found_first id status result pre tc post :
  List.existsb (names_call id) pre = false ->
  Chat.stc_id tc = id ->
  Chat.update_found id status result (List.app pre (tc :: post))
  = Some (List.app pre
            (Chat.mkStoredToolCall (Chat.stc_id tc) (Chat.stc_name tc) (Chat.stc_input tc)
               (match result with Some r => Some r | None => Chat.stc_result tc end)
               status :: post)).
Proof.
  intros Hpre Hid. induction pre as [| p pre IH].
  - cbn [List.app Chat.update_found]. rewrite Hid, String.eqb_refl. reflexivity.
  - cbn [List.existsb] in Hpre. apply orb_false_iff in Hpre. destruct Hpre as [H1 H2].
    cbn [List.app Chat.update_found]. unfold names_call in H1. rewrite H1, (IH H2).
    reflexivity.
Qed.

Lemma existsb_rev_false {A : Type} (p : A -> bool) (l : list A) :
  List.existsb p l = false -> List.existsb p (List.rev l) = false.
Proof.
  induction l as [| x l IH]; intros H; [reflexivity |].
  cbn [List.existsb] in H. apply orb_false_iff in H. destruct H as [H1 H2].
  cbn [List.rev]. rewrite List.existsb_app, (IH H2). cbn. rewrite H1. reflexivity.
Qed.

Lemma update_latest_skips id status result later m earlier tcs' :
  List.existsb (has_call id) later = false ->
  match Chat.toolCalls m with
  | Some tcs => Chat.update_found id status result tcs = Some tcs'
  | None => False
  end ->
  Chat.update_latest id status result (List.app later (m :: earlier))
  = List.app later
      (Chat.mkStoredMessage (Chat.sm_id m) (Chat.sm_role m) (Chat.sm_content m)
         (Chat.timestamp m) (Some tcs') :: earlier).
Proof.
  intros Hl Hm. induction later as [| l later IH].
  - cbn [List.app Chat.update_latest].
    destruct (Chat.toolCalls m) as [tcs |]; [| contradiction]. rewrite Hm. reflexivity.
  - cbn [List.existsb] in Hl. apply orb_false_iff in Hl. destruct Hl as [H1 H2].
    cbn [List.app Chat.update_latest]. unfold has_call in H1.
    destruct (Chat.toolCalls l) as [tcs |].
    + cbn [default] in H1. rewrite (update_found_none id status result tcs H1), (IH H2).
      reflexivity.
    + rewrite (IH H2). reflexivity.
Qed.

(** X25. [updateToolCallStatus] changes one tool call and nothing else:
    in the latest message that holds a call with the id, the first call
    with the id gets the status, and the result when one is given. Earlier
    messages with a call of the same id, and later calls with the id in the
    same message, stay as they are. *)
Theorem status_goes_to_the_latest_call id status result c front m back pre tc post :
  Chat.messages c = List.app front (m :: back) ->
  List.existsb (has_call id) back = false ->
  Chat.toolCalls m = Some (List.app pre (tc :: post)) ->
  List.existsb (names_call id) pre = false ->
  Chat.stc_id tc = id ->
  Chat.messages (Chat.updateToolCallStatus id status result c)
  = List.app front
      (Chat.mkStoredMessage (Chat.sm_id m) (Chat.sm_role m) (Chat.sm_content m)
         (Chat.timestamp m)
         (Some (List.app pre
                  (Chat.mkStoredToolCall (Chat.stc_id tc) (Chat.stc_name tc)
                     (Chat.stc_input tc)
                     (match result with Some r => Some r | None => Chat.stc_result tc end)
                     status :: post)))
       :: back).
Proof.
  intros Hm Hback Htcs Hpre Hid.
  unfold Chat.updateToolCallStatus. chat_fields. rewrite Hm.
  rewrite List.rev_app_distr. cbn [List.rev]. rewrite <- List.app_assoc. cbn [List.app].
  rewrite (update_latest_skips id status result (List.rev back) m (List.rev front)
             (List.app pre
                (Chat.mkStoredToolCall (Chat.stc_id tc) (Chat.stc_name tc) (Chat.stc_input tc)
                   (match result with Some r => Some r | None => Chat.stc_result tc end)
                   status :: post))).
  - rewrite List.rev_app_distr. cbn [List.rev]. rewrite !List.rev_involutive.
    rewrite <- List.app_assoc. reflexivity.
  - apply existsb_rev_false. exact Hback.
  - rewrite Htcs. apply update_found_first; assumption.
Qed.

Lemma status_goes_to_the_latest_call_witness :
  Chat.messages
    (Chat.updateToolCallStatus "call_0" Chat.completed (Some (mkToolResult "ok" false))
       (Chat.set_messages
          [Chat.mkStoredMessage "msg_0_1" assistant "first" 0
             (Some [Chat.mkStoredToolCall "call_0" "bash" ∅ None Chat.running]);
           Chat.mkStoredMessage "msg_0_2" assistant "second" 0
             (Some [Chat.mkStoredToolCall "call_0" "grep" ∅ None Chat.running])]
          chat_0))
  = [Chat.mkStoredMessage "msg_0_1" assistant "first" 0
       (Some [Chat.mkStoredToolCall "call_0" "bash" ∅ None Chat.running]);
     Chat.mkStoredMessage "msg_0_2" assistant "second" 0
       (Some [Chat.mkStoredToolCall "call_0" "grep" ∅ (Some (mkToolResult "ok" false))
                Chat.completed])].
Proof.
  apply (status_goes_to_the_latest_call "call_0" Chat.completed
           (Some (mkToolResult "ok" false))
           (Chat.set_messages
              [Chat.mkStoredMessage "msg_0_1" assistant "first" 0
                 (Some [Chat.mkStoredToolCall "call_0" "bash" ∅ None Chat.running]);
               Chat.mkStoredMessage "msg_0_2" assistant "second" 0
                 (Some [Chat.mkStoredToolCall "call_0" "grep" ∅ None Chat.running])]
              chat_0)
           [Chat.mkStoredMessage "msg_0_1" assistant "first" 0
              (Some [Chat.mkStoredToolCall "call_0" "bash" ∅ None Chat.running])]
           (Chat.mkStoredMessage "msg_0_2" assistant "second" 0
              (Some [Chat.mkStoredToolCall "call_0" "grep" ∅ None Chat.running]))
           [] [] (Chat.mkStoredToolCall "call_0" "grep" ∅ None Chat.running) []);
    reflexivity.
Defined.

(** ** The summary of a tool call *)

Lemma length_take_exact n s :
  String.length (JSLib.take n s) = Nat.min n (String.length s).
Proof.
  revert s. induction n as [| n IH]; intros s; [reflexivity |].
  destruct s as [| c s]; [reflexivity |]. cbn. rewrite IH. reflexivity.
Qed.

Lemma length_app (a b : string) :
  String.length (a +:+ b) = (String.length a + String.length b)%nat.
Proof.
  induction a as [| c a IH]; [reflexivity |].
  change (String c a +:+ b) with (String c (a +:+ b)). cbn [String.length]. rewrite IH.
  reflexivity.
Qed.

Lemma take_prefix n s : exists rest, s = JSLib.take n s +:+ rest.
Proof.
  revert s. induction n as [| n IH]; intros s; [exists s; reflexivity |].
  destruct s as [| c s]; [exists ""; reflexivity |].
  destruct (IH s) as [rest H]. exists rest. cbn [JSLib.take].
  change (String c (JSLib.take n s) +:+ rest) with (String c (JSLib.take n s +:+ rest)).
  rewrite <- H. reflexivity.
Qed.

(** [truncate] keeps a string that fits, and cuts one that does not to
    [max] code units, the last of them the ellipsis. *)
Lemma truncate_fits s max :
  1 <= max ->
  Z.of_nat (String.length (ToolCallRenderer.truncate s max)) <= max
  /\ (ToolCallRenderer.truncate s max = s
      \/ exists kept rest,
           s = kept +:+ rest
           /\ Z.of_nat (String.length kept) = max - 1
           /\ ToolCallRenderer.truncate s max = kept +:+ ToolCallRenderer.ellipsis).
Proof.
  intros Hmax. unfold ToolCallRenderer.truncate, ToolCallRenderer.slice_to.
  destruct (max <? Z.of_nat (String.length s)) eqn:E.
  - apply Z.ltb_lt in E.
    destruct (max - 1 <? 0) eqn:E1; [apply Z.ltb_lt in E1; lia |].
    replace (Z.min (max - 1) (Z.of_nat (String.length s))) with (max - 1) by lia.
    split.
    + rewrite length_app, length_take_exact. cbn. lia.
    + right. destruct (take_prefix (Z.to_nat (max - 1)) s) as [rest H].
      exists (JSLib.take (Z.to_nat (max - 1)) s), rest.
      split; [exact H |]. split; [rewrite length_take_exact; lia | reflexivity].
  - apply Z.ltb_ge in E. split; [exact E | left; reflexivity].
Qed.

(** X26. The summary in the header of a tool call is never longer than
    60 code units, whatever the tool and its input. *)
Theorem summary_fits_the_header name input :
  Z.of_nat (String.length (ToolCallRenderer.getSummary name input)) <= 60.
Proof.
  unfold ToolCallRenderer.getSummary.
  repeat match goal with
         | |- context [if ?b then _ else _] =>
             match b with
             | context [String.eqb] => destruct b
             end
         end;
    try (cbn; lia);
    match goal with
    | |- context [ToolCallRenderer.truncate ?s ?m] =>
        pose proof (proj1 (truncate_fits s m ltac:(lia))); lia
    end.
Qed.
